(** * liskov-semver: the version-decision engine of [main.mjs]

    A shallow embedding of the engine's logic: tag resolution, entry-point
    extraction, witness synthesis and the version decision.  External
    processes (git, the package manager, tsc) and the file system are an
    explicit environment ([World]); every call the engine makes is recorded
    in a log, and JavaScript exceptions are an error result.

    JavaScript strings are taken as sequences of 8-bit code units
    ([string]); the characters that matter to the engine (digits, letters,
    [.], [-], [+], [v], white space, line feed) are all in that range. *)

From Stdlib Require Import List String Ascii Bool ZArith NArith Lia.
From Stdlib Require Import Sorted Permutation.
From Stdlib Require OrderedTypeEx.
From Stdlib Require Import Decimal DecimalFacts DecimalN DecimalString.
Import ListNotations.

Set Warnings "-register-all".

Open Scope list_scope.
Open Scope string_scope.

(** ** JavaScript built-ins used by the engine *)

Module JS.

(** A thrown exception: [Error(msg)] raised by the engine itself, a
    [TypeError] raised by the runtime or by a library, and the
    [SyntaxError] of [JSON.parse]. *)
Inductive exn : Type :=
| Error (msg : string)
| TypeError (origin : string)
| SyntaxError.

Inductive Result (A : Type) : Type :=
| Ok (a : A)
| Throw (e : exn).
Arguments Ok {A} a.
Arguments Throw {A} e.

Definition bindR {A B : Type} (r : Result A) (k : A -> Result B) : Result B :=
  match r with
  | Ok a => k a
  | Throw e => Throw e
  end.

(** White space as [String.prototype.trim] sees it, within 8-bit code units:
    TAB, LF, VT, FF, CR, SP and NBSP. *)
Definition isWhite (c : ascii) : bool :=
  let n := nat_of_ascii c in
  ((9 <=? n)%nat && (n <=? 13)%nat) || (n =? 32)%nat || (n =? 160)%nat.

Fixpoint trimStart (s : string) : string :=
  match s with
  | EmptyString => EmptyString
  | String c s' => if isWhite c then trimStart s' else s
  end.

Fixpoint trimEnd (s : string) : string :=
  match s with
  | EmptyString => EmptyString
  | String c s' =>
      match trimEnd s' with
      | EmptyString => if isWhite c then EmptyString else String c EmptyString
      | t => String c t
      end
  end.

(** [s.trim()] *)
Definition trim (s : string) : string := trimEnd (trimStart s).

(** [s.split(sep)] for a one-character separator; never the empty list. *)
Fixpoint split (sep : ascii) (s : string) : list string :=
  match s with
  | EmptyString => [EmptyString]
  | String c s' =>
      if Ascii.eqb c sep then EmptyString :: split sep s'
      else match split sep s' with
           | h :: t => String c h :: t
           | [] => [String c EmptyString]
           end
  end.

(** [l.join(sep)] *)
Definition join (sep : string) (l : list string) : string := String.concat sep l.

(** The line feed and the double quote. *)
Definition nl : string := String "010" EmptyString.
Definition dq : string := String "034" EmptyString.

(** [`${n}`] for a non-negative integer. *)
Definition showNum (n : N) : string := NilEmpty.string_of_uint (N.to_uint n).

(** [Array.prototype.sort(cmp)]: the sort is stable, so with a consistent
    comparator its result is that of a stable insertion sort; so it is on
    two elements with an antisymmetric comparator, whatever the order in
    which the engine hands them to it.  The comparator may throw, and then
    so does the sort.  [y] moves in front of [x] exactly when
    [cmp x y > 0]. *)
Section Sort.
Context {A : Type}.
Variable cmp : A -> A -> Result Z.

Fixpoint insert (x : A) (l : list A) : Result (list A) :=
  match l with
  | [] => Ok [x]
  | y :: l' =>
      bindR (cmp x y) (fun c =>
        if (c >? 0)%Z
        then bindR (insert x l') (fun r => Ok (y :: r))
        else Ok (x :: l))
  end.

Fixpoint sort (l : list A) : Result (list A) :=
  match l with
  | [] => Ok []
  | x :: l' => bindR (sort l') (insert x)
  end.

End Sort.

(** The default comparator of [Array.prototype.sort()] on strings: code-unit
    order. *)
Definition defaultCompare (a b : string) : Result Z :=
  Ok (match String.compare a b with Lt => (-1)%Z | Eq => 0%Z | Gt => 1%Z end).

(** [a[0] ?? null] *)
Definition first {A : Type} (l : list A) : option A :=
  match l with
  | [] => None
  | x :: _ => Some x
  end.

End JS.
Import JS.

(** ** The [semver] package

    The engine's only use of version syntax and order is through the
    [semver] package (release 7), an external dependency.  This module
    follows the package's strict mode as it runs: the pattern of a full
    version, the bound of 256 characters on the text, the bound
    [Number.MAX_SAFE_INTEGER] on major, minor and patch, numbers as
    IEEE 754 doubles, and the comparison of pre-release identifiers, which
    converts numerals to doubles.  Every number that occurs is a
    non-negative integer, so a double is given by its (integral) value. *)

Module semver.

Definition MAX_LENGTH : nat := 256.

(** [Number.MAX_SAFE_INTEGER], 2^53 - 1. *)
Definition MAX_SAFE_INTEGER : N := 9007199254740991.

(** The double nearest to the integer [n], ties to the even significand:
    what [+s] gives for a decimal numeral [s] of value [n], and what an
    arithmetic operation with exact result [n] gives.  Integers below 2^53
    are doubles themselves; the numerals of a text of at most 256
    characters are far below the largest double. *)
Definition toNumber (n : N) : N :=
  if (n <? 2 ^ 53)%N then n
  else
    let e := (N.log2 n - 52)%N in
    let q := N.shiftr n e in
    let r := (n - N.shiftl q e)%N in
    let half := N.shiftl 1 (e - 1) in
    let q' :=
      if (half <? r)%N || ((r =? half)%N && N.odd q) then (q + 1)%N else q in
    N.shiftl q' e.

(** An element of the [prerelease] array: a number or a string. *)
Inductive identifier : Type :=
| Num (n : N)
| Alnum (s : string).

(** The [SemVer] object (its [version] field is [format]). *)
Record SemVer : Type := mkSemVer {
  v_major : N;
  v_minor : N;
  v_patch : N;
  v_prerelease : list identifier;
  v_build : list string
}.

(** What the engine hands to the package: a string, a [SemVer] object, or
    anything else ([null], a number, an object...), which the package never
    accepts. *)
Inductive arg : Type :=
| Text (s : string)
| Parsed (v : SemVer)
| NotAVersion.

Definition isDigit (c : ascii) : bool :=
  let n := nat_of_ascii c in ((48 <=? n)%nat && (n <=? 57)%nat).

Definition isLetter (c : ascii) : bool :=
  let n := nat_of_ascii c in
  ((65 <=? n)%nat && (n <=? 90)%nat) || ((97 <=? n)%nat && (n <=? 122)%nat).

(** [[a-zA-Z0-9-]] *)
Definition isLetterDashNumber (c : ascii) : bool :=
  isDigit c || isLetter c || Ascii.eqb c "-".

Fixpoint allChars (p : ascii -> bool) (s : string) : bool :=
  match s with
  | EmptyString => true
  | String c s' => p c && allChars p s'
  end.

(** [/^[0-9]+$/.test(s)] *)
Definition isNumeric (s : string) : bool :=
  match s with
  | EmptyString => false
  | _ => allChars isDigit s
  end.

(** The exact value of a string of digits. *)
Definition digitsValue (s : string) : N :=
  match NilEmpty.uint_of_string s with
  | Some d => N.of_uint d
  | None => 0%N
  end.

(** [0|[1-9]\d*], with its exact value. *)
Definition numericIdentifier (s : string) : option N :=
  match s with
  | EmptyString => None
  | String c s' =>
      if allChars isDigit s && (negb (Ascii.eqb c "0") || String.eqb s' "")
      then Some (digitsValue s)
      else None
  end.

(** A pre-release identifier: numeric, or [\d*[a-zA-Z-][a-zA-Z0-9-]*].  The
    constructor turns a numeric one into a number when that number is below
    [MAX_SAFE_INTEGER], and keeps the string otherwise. *)
Definition prereleaseIdentifier (s : string) : option identifier :=
  match numericIdentifier s with
  | Some n =>
      let num := toNumber n in
      Some (if (num <? MAX_SAFE_INTEGER)%N then Num num else Alnum s)
  | None =>
      if allChars isLetterDashNumber s && negb (allChars isDigit s)
      then Some (Alnum s)
      else None
  end.

(** A build identifier: [[a-zA-Z0-9-]+]. *)
Definition buildIdentifier (s : string) : option string :=
  match s with
  | EmptyString => None
  | _ => if allChars isLetterDashNumber s then Some s else None
  end.

Fixpoint traverse {A B : Type} (f : A -> option B) (l : list A) : option (list B) :=
  match l with
  | [] => Some []
  | x :: l' =>
      match f x, traverse f l' with
      | Some y, Some r => Some (y :: r)
      | _, _ => None
      end
  end.

(** Cut a string at the first occurrence of a separator. *)
Fixpoint cut (sep : ascii) (s : string) : string * option string :=
  match s with
  | EmptyString => (EmptyString, None)
  | String c s' =>
      if Ascii.eqb c sep then (EmptyString, Some s')
      else let (h, t) := cut sep s' in (String c h, t)
  end.

Definition dotted {B : Type} (f : string -> option B) (part : option string)
  : option (list B) :=
  match part with
  | None => Some []
  | Some s => traverse f (split "." s)
  end.

(** The match of the package's full strict pattern on an already trimmed
    string: an optional [v], three numeric identifiers separated by dots,
    then optionally [-] and dot-separated pre-release identifiers, then
    optionally [+] and dot-separated build identifiers, and nothing else.
    Major, minor and patch are the matched numerals as numbers ([+m[1]],
    [+m[2]], [+m[3]]). *)
Definition matchFull (s : string) : option SemVer :=
  let s := match s with String "v" s' => s' | _ => s end in
  let (rest, buildPart) := cut "+" s in
  let (mainPart, prePart) := cut "-" rest in
  match traverse numericIdentifier (split "." mainPart),
        dotted prereleaseIdentifier prePart,
        dotted buildIdentifier buildPart with
  | Some [ma; mi; pa], Some pre, Some bld =>
      Some (mkSemVer (toNumber ma) (toNumber mi) (toNumber pa) pre bld)
  | _, _, _ => None
  end.

Definition showIdentifier (i : identifier) : string :=
  match i with
  | Num n => showNum n
  | Alnum s => s
  end.

(** The [version] field: the normalised text, without build metadata. *)
Definition format (v : SemVer) : string :=
  showNum (v_major v) ++ "." ++ showNum (v_minor v) ++ "." ++ showNum (v_patch v)
  ++ match v_prerelease v with
     | [] => ""
     | pre => "-" ++ join "." (map showIdentifier pre)
     end.

(** Major, minor and patch are within the package's range. *)
Definition withinRange (v : SemVer) : bool :=
  (v_major v <=? MAX_SAFE_INTEGER)%N && (v_minor v <=? MAX_SAFE_INTEGER)%N
  && (v_patch v <=? MAX_SAFE_INTEGER)%N.

(** [new SemVer(version)]: a [SemVer] object is returned as it is; a string
    must have at most [MAX_LENGTH] characters, match the full pattern once
    trimmed, and have major, minor and patch within range; everything else
    is a [TypeError]. *)
Definition construct (a : arg) : Result SemVer :=
  match a with
  | Parsed v => Ok v
  | Text s =>
      if (MAX_LENGTH <? String.length s)%nat then Throw (TypeError "semver")
      else
        match matchFull (trim s) with
        | Some v => if withinRange v then Ok v else Throw (TypeError "semver")
        | None => Throw (TypeError "semver")
        end
  | NotAVersion => Throw (TypeError "semver")
  end.

(** [semver.parse(version)]: the object, or [null]. *)
Definition parse (a : arg) : option SemVer :=
  match construct a with
  | Ok v => Some v
  | Throw _ => None
  end.

(** [`${x}`] of what the package returns. *)
Definition toString (a : arg) : string :=
  match a with
  | Text s => s
  | Parsed v => format v
  | NotAVersion => "null"
  end.

(** [semver.valid(version)]: the normalised text, or [null]. *)
Definition valid (a : arg) : option string := option_map format (parse a).

(** [semver.major(version)] *)
Definition major (a : arg) : Result N :=
  bindR (construct a) (fun v => Ok (v_major v)).

Definition compareN (a b : N) : Z :=
  match N.compare a b with Lt => (-1)%Z | Eq => 0%Z | Gt => 1%Z end.

(** [numeric.test(a)]: a number prints as digits. *)
Definition numeric (a : identifier) : bool :=
  match a with
  | Num _ => true
  | Alnum s => isNumeric s
  end.

(** [+a] for a numeric [a]. *)
Definition numberOf (a : identifier) : N :=
  match a with
  | Num n => n
  | Alnum s => toNumber (digitsValue s)
  end.

(** [a === b] *)
Definition strictEq (a b : identifier) : bool :=
  match a, b with
  | Num x, Num y => (x =? y)%N
  | Alnum x, Alnum y => String.eqb x y
  | _, _ => false
  end.

(** [compareIdentifiers]: two numeric identifiers are compared as numbers,
    after conversion; a numeric one is below one that is not; two that are
    not numeric are compared as strings. *)
Definition compareIdentifiers (a b : identifier) : Z :=
  let anum := numeric a in
  let bnum := numeric b in
  if anum && bnum then compareN (numberOf a) (numberOf b)
  else if strictEq a b then 0%Z
  else if anum && negb bnum then (-1)%Z
  else if bnum && negb anum then 1%Z
  else match a, b with
       | Alnum x, Alnum y =>
           match String.compare x y with Lt => (-1)%Z | _ => 1%Z end
       | _, _ => 1%Z
       end.

(** The loop of [comparePre]: identical identifiers are passed over; the
    first pair that is not identical decides, also when
    [compareIdentifiers] finds the two equal as numbers. *)
Fixpoint comparePreFrom (a b : list identifier) : Z :=
  match a, b with
  | [], [] => 0%Z
  | _ :: _, [] => 1%Z
  | [], _ :: _ => (-1)%Z
  | x :: a', y :: b' =>
      if strictEq x y then comparePreFrom a' b' else compareIdentifiers x y
  end.

(** [comparePre]: a version without pre-release is greater than one with. *)
Definition comparePre (a b : SemVer) : Z :=
  match v_prerelease a, v_prerelease b with
  | _ :: _, [] => (-1)%Z
  | [], _ :: _ => 1%Z
  | [], [] => 0%Z
  | pa, pb => comparePreFrom pa pb
  end.

Definition orElse (c d : Z) : Z := if (c =? 0)%Z then d else c.

(** [compareMain] *)
Definition compareMain (a b : SemVer) : Z :=
  orElse (compareN (v_major a) (v_major b))
    (orElse (compareN (v_minor a) (v_minor b))
       (compareN (v_patch a) (v_patch b))).

(** [SemVer.prototype.compare]: build metadata is ignored.  (The package
    first answers 0 when the two [version] texts are identical, which is
    what the two comparisons give then.) *)
Definition compareVersions (a b : SemVer) : Z :=
  orElse (compareMain a b) (comparePre a b).

(** [semver.compare(a, b)] *)
Definition compare (a b : arg) : Result Z :=
  bindR (construct a) (fun va =>
  bindR (construct b) (fun vb => Ok (compareVersions va vb))).

(** [semver.rcompare(a, b)] *)
Definition rcompare (a b : arg) : Result Z := compare b a.

Inductive release : Type := Rmajor | Rminor | Rpatch.

Definition isNil {A : Type} (l : list A) : bool :=
  match l with [] => true | _ => false end.

(** [SemVer.prototype.inc(release)] for the three releases the engine asks
    for; a pre-release version is bumped to its own release.  The
    increment is that of a double, and its result is not checked against
    the range. *)
Definition increment (v : SemVer) (r : release) : SemVer :=
  match r with
  | Rmajor =>
      let bump := negb (v_minor v =? 0)%N || negb (v_patch v =? 0)%N
                  || isNil (v_prerelease v) in
      mkSemVer (if bump then toNumber (v_major v + 1) else v_major v) 0 0 []
        (v_build v)
  | Rminor =>
      let bump := negb (v_patch v =? 0)%N || isNil (v_prerelease v) in
      mkSemVer (v_major v) (if bump then toNumber (v_minor v + 1) else v_minor v)
        0 [] (v_build v)
  | Rpatch =>
      let bump := isNil (v_prerelease v) in
      mkSemVer (v_major v) (v_minor v)
        (if bump then toNumber (v_patch v + 1) else v_patch v) [] (v_build v)
  end.

(** [semver.inc(version, release)]: the text of the incremented version, or
    [null] when [version] is not valid.  A [SemVer] object is re-read from
    its [version] text. *)
Definition inc (a : arg) (r : release) : option string :=
  let a' := match a with Parsed v => Text (format v) | _ => a end in
  match construct a' with
  | Ok v => Some (format (increment v r))
  | Throw _ => None
  end.

End semver.


(** ** JSON values, as [JSON.parse] returns them *)

(** The members of an object are listed in property order; their keys are
    pairwise distinct ([distinctKeys]), as in every JavaScript object. *)
Inductive json : Type :=
| JNull
| JBool (b : bool)
| JNum (lexeme : string)
| JStr (s : string)
| JArr (items : list json)
| JObj (members : list (string * json)).

Definition distinctKeys (members : list (string * json)) : Prop :=
  NoDup (map fst members).

(** [typeof v === "object"]: true of [null] and of arrays too. *)
Definition typeofObject (v : json) : bool :=
  match v with
  | JNull | JArr _ | JObj _ => true
  | _ => false
  end.

Definition indices (n : nat) : list string :=
  map (fun i => showNum (N.of_nat i)) (seq 0 n).

Definition chars (s : string) : list json :=
  map (fun c => JStr (String c EmptyString)) (list_ascii_of_string s).

(** [key in v], for a key that no prototype provides (the engine asks for
    ["types"] only): a [TypeError] unless [v] is an object or an array. *)
Definition hasProperty (key : string) (v : json) : Result bool :=
  match v with
  | JObj members => Ok (existsb (fun kv => String.eqb (fst kv) key) members)
  | JArr items =>
      Ok (existsb (String.eqb key) ("length" :: indices (List.length items)))
  | _ => Throw (TypeError "in")
  end.

(** [v.key], [None] for [undefined]; a [TypeError] on [null]. *)
Definition getProperty (key : string) (v : json) : Result (option json) :=
  match v with
  | JNull => Throw (TypeError "property of null")
  | JObj members =>
      Ok (option_map snd (find (fun kv => String.eqb (fst kv) key) members))
  | JArr items =>
      Ok (if String.eqb key "length"
          then Some (JNum (showNum (N.of_nat (List.length items))))
          else match semver.numericIdentifier key with
               | Some i => nth_error items (N.to_nat i)
               | None => None
               end)
  | JStr s =>
      Ok (if String.eqb key "length"
          then Some (JNum (showNum (N.of_nat (String.length s))))
          else match semver.numericIdentifier key with
               | Some i => nth_error (chars s) (N.to_nat i)
               | None => None
               end)
  | _ => Ok None
  end.

(** [x ?? d] *)
Definition orDefault (x : option json) (d : json) : json :=
  match x with
  | None | Some JNull => d
  | Some v => v
  end.

(** [Object.entries(v)] for a [v] that is neither [null] nor [undefined]. *)
Definition entries (v : json) : list (string * json) :=
  match v with
  | JObj members => members
  | JArr items => combine (indices (List.length items)) items
  | JStr s => combine (indices (String.length s)) (chars s)
  | _ => []
  end.

(** [a.filter(p)] with a predicate that may throw. *)
Fixpoint filterR {A : Type} (p : A -> Result bool) (l : list A) : Result (list A) :=
  match l with
  | [] => Ok []
  | x :: l' =>
      bindR (p x) (fun keep =>
      bindR (filterR p l') (fun r => Ok (if keep then x :: r else r)))
  end.

(** What the engine passes to [semver] when it passes a manifest value. *)
Definition ofJson (v : json) : semver.arg :=
  match v with
  | JStr s => semver.Text s
  | _ => semver.NotAVersion
  end.

Definition ofText (s : option string) : semver.arg :=
  match s with
  | Some t => semver.Text t
  | None => semver.NotAVersion
  end.

Definition ofParsed (v : option semver.SemVer) : semver.arg :=
  match v with
  | Some x => semver.Parsed x
  | None => semver.NotAVersion
  end.

(** ** The environment and the effects of a run *)

(** A child process as [spawn] starts it, and what it resolves to.  The exit
    code is [None] when there is none: the child was killed by a signal, or
    its program could not be started.  In the second case the engine's
    [spawn], which has no listener for the ['error'] event of the child,
    does not resolve: node itself ends there, and no handler and no
    [finally] block runs.  The functions below follow a run as if [spawn]
    resolved then too; a statement on what a run does last is made for runs
    whose children all close with an exit code ([closed]). *)
Record command : Type := mkCommand {
  cmd : string;
  args : list string;
  cwd : option string
}.

Record spawned : Type := mkSpawned {
  code : option Z;
  stdout : string;
  stderr : string
}.

(** Everything a run does to the outside, in order. *)
Inductive event : Type :=
| Spawned (c : command)
| Stderr (text : string)
| Mkdtemp (prefix : string)
| Mkdir (path : string)
| Access (path : string)
| ReadFile (path : string)
| WriteFile (path content : string)
| Rm (path : string).

(** What the outside answers during one run. *)
Record World : Type := mkWorld {
  spawnResult : command -> spawned;
  tmpdir : string;
  mkdtempResult : string -> Result string;
  mkdirResult : string -> Result unit;
  accessible : string -> bool;
  readJson : string -> Result json;
  writeFileResult : string -> string -> Result unit
}.

(** A computation of the engine: it reads the environment, may throw, and
    leaves the log of what it did. *)
Definition M (A : Type) : Type := World -> Result A * list event.

Definition ret {A : Type} (a : A) : M A := fun _ => (Ok a, []).

Definition bind {A B : Type} (m : M A) (k : A -> M B) : M B :=
  fun w =>
    match m w with
    | (Ok a, l) => let (r, l') := k a w in (r, (l ++ l')%list)
    | (Throw e, l) => (Throw e, l)
    end.

Notation "x <- m ;; k" := (bind m (fun x => k))
  (at level 61, m at next level, right associativity).
Notation "m ;;; k" := (bind m (fun _ => k))
  (at level 61, right associativity).

Definition throw {A : Type} (e : exn) : M A := fun _ => (Throw e, []).

Definition liftR {A : Type} (r : Result A) : M A := fun _ => (r, []).

Definition emit (e : event) : M unit := fun _ => (Ok tt, [e]).

Definition ask {A : Type} (f : World -> A) : M A := fun w => (Ok (f w), []).

Definition askR {A : Type} (f : World -> Result A) : M A := fun w => (f w, []).

(** [try { m } finally { cleanup }] *)
Definition finally {A : Type} (m : M A) (cleanup : M unit) : M A :=
  fun w =>
    let (r, l) := m w in
    let (c, l') := cleanup w in
    (match c with Ok _ => r | Throw e => Throw e end, (l ++ l')%list).

(** [Promise.all([m1, m2])] of two computations already started.  In a
    real run their events interleave, and when one of them throws the other
    goes on in the background for as long as the process lives; the log
    lists the events of [m1], then those of [m2], each in full. *)
Definition both {A B : Type} (m1 : M A) (m2 : M B) : M (A * B) :=
  fun w =>
    let (r1, l1) := m1 w in
    let (r2, l2) := m2 w in
    (match r1, r2 with
     | Ok a, Ok b => Ok (a, b)
     | Throw e, _ => Throw e
     | _, Throw e => Throw e
     end, (l1 ++ l2)%list).

Definition isZero (c : option Z) : bool :=
  match c with
  | Some z => (z =? 0)%Z
  | None => false
  end.

Definition isSome {A : Type} (o : option A) : bool :=
  match o with Some _ => true | None => false end.

(** [path.join(a, b)] and [path.resolve(a, b)], for segments that need no
    normalisation. *)
Definition pathJoin (a b : string) : string := a ++ "/" ++ b.

Definition stderrWrite (text : string) : M unit := emit (Stderr text).

(** ** Git queries (the same in every revision of the engine) *)

(** [tags.filter((tag) => null !== semver.valid(tag))] *)
Definition validTags (tags : list string) : list string :=
  filter (fun tag => isSome (semver.valid (semver.Text tag))) tags.

(** [tags.sort(semver.rcompare); return tags[0] ?? null] *)
Definition highestOf (tags : list string) : Result (option string) :=
  bindR (sort (fun a b => semver.rcompare (semver.Text a) (semver.Text b)) tags)
    (fun sorted => Ok (first sorted)).

Section Git.
Variable spawn : string -> list string -> option string -> M spawned.

Definition getRoot : M (option string) :=
  r <- spawn "git" ["rev-parse"; "--show-toplevel"] None ;;
  ret (if isZero (code r) then Some (trim (stdout r)) else None).

Definition isDirty (root : string) : M bool :=
  r <- spawn "git" ["status"; "--porcelain"] (Some root) ;;
  ret (negb (isZero (code r) && String.eqb "" (trim (stdout r)))).

Definition isReachable (root oldRef newRef : string) : M bool :=
  r <- spawn "git" ["rev-list"; "--boundary"; oldRef ++ ".." ++ newRef]
         (Some root) ;;
  ret (isZero (code r) && negb (String.eqb "" (trim (stdout r)))).

Definition getHighestVersionTag (root : string) : M (option string) :=
  r <- spawn "git" ["tag"; "--list"] (Some root) ;;
  let tags :=
    if isZero (code r) then validTags (split "010" (stdout r)) else [] in
  liftR (highestOf tags).

Definition getCurrentBranch (root : string) : M (option string) :=
  r <- spawn "git" ["branch"; "--show-current"] (Some root) ;;
  ret (if isZero (code r) then Some (trim (stdout r)) else None).

End Git.

(** ** The version decision (the same in every revision) *)

(** [latest(leftSemVer, rightSemVer)] *)
Definition latest (leftSemVer rightSemVer : semver.arg) : Result semver.arg :=
  bindR (sort semver.rcompare [leftSemVer; rightSemVer]) (fun semVers =>
    Ok (match semVers with
        | x :: _ => x
        | [] => semver.NotAVersion
        end)).

(** The end of [main], from [let newSemVer = "0.1.0"] on. *)
Definition decide (previousSemVer currentSemVer : json)
  (forwards backwards : bool) : Result semver.arg :=
  bindR
    (if forwards then
       if backwards
       then Ok (semver.inc (ofJson previousSemVer) semver.Rpatch)
       else Ok (semver.inc (ofJson previousSemVer) semver.Rminor)
     else
       bindR (semver.major (ofJson previousSemVer)) (fun m =>
         if (m =? 0)%N
         then Ok (semver.inc (ofJson previousSemVer) semver.Rminor)
         else Ok (semver.inc (ofJson previousSemVer) semver.Rmajor)))
    (fun newSemVer =>
       latest (ofText newSemVer)
         (ofParsed (semver.parse (ofJson currentSemVer)))).

(** ** Entry points and declared version of a manifest *)

(** The entry points a manifest declares, in the order the code collects
    them: the root first, then the qualifying keys of the export map. *)
Definition declaredEntryPoints (packageJsonContents : json) : Result (list string) :=
  bindR (hasProperty "types" packageJsonContents) (fun rootTypes =>
  let entryPoints := if rootTypes then [""] else [] in
  bindR (getProperty "exports" packageJsonContents) (fun exports =>
  bindR (filterR
           (fun kv =>
              if typeofObject (snd kv) then hasProperty "types" (snd kv)
              else Ok false)
           (entries (orDefault exports (JObj []))))
    (fun qualifying => Ok (entryPoints ++ map fst qualifying)%list))).

(** [packageJsonContents.version ?? null] *)
Definition declaredVersion (packageJsonContents : json) : Result json :=
  bindR (getProperty "version" packageJsonContents) (fun version =>
    Ok (orDefault version JNull)).

(** The tail of [createTgzAndGetEntryPointsAndVersion] in [main.mjs], from
    the manifest as parsed. *)
Definition entryPointsAndVersion (packageJsonContents : json)
  : Result (list string * json) :=
  if negb (typeofObject packageJsonContents)
  then Throw (Error "error: malformed package.json")
  else
    bindR (declaredEntryPoints packageJsonContents) (fun entryPoints =>
    let entryPoints :=
      if (List.length entryPoints =? 0)%nat then (entryPoints ++ [""])%list
      else entryPoints in
    bindR (sort defaultCompare entryPoints) (fun entryPoints =>
    bindR (declaredVersion packageJsonContents) (fun version =>
      Ok (entryPoints, version)))).

(** The same tail in the revision of [unnamed/part_000], which has no
    fall-back to the root entry point. *)
Definition entryPointsAndVersion_part000 (packageJsonContents : json)
  : Result (list string * json) :=
  if negb (typeofObject packageJsonContents)
  then Throw (Error "error: malformed package.json")
  else
    bindR (declaredEntryPoints packageJsonContents) (fun entryPoints =>
    bindR (sort defaultCompare entryPoints) (fun entryPoints =>
    bindR (declaredVersion packageJsonContents) (fun version =>
      Ok (entryPoints, version)))).

(** ** The witness programs *)

(** One import-all statement of an artifact ([role]) for an entry point. *)
Definition importLine (role entryPoint : string) : string :=
  if String.eqb "" entryPoint
  then "import * as " ++ role ++ "_ from " ++ dq ++ role ++ dq ++ ";"
  else "import * as " ++ role ++ "_" ++ entryPoint ++ " from "
       ++ dq ++ role ++ "/" ++ entryPoint ++ dq ++ ";".

(** The aggregate of an artifact, keyed by its entry points. *)
Definition aggregate (role : string) (entryPoints : list string) : string :=
  "const " ++ role ++ " = { "
  ++ join ", "
       (map (fun entryPoint => "_" ++ entryPoint ++ ": " ++ role ++ "_" ++ entryPoint)
          entryPoints)
  ++ " };".

Definition commonSource (previousVersionEndpoints currentVersionEndpoints : list string)
  : string :=
  join nl
    [ dq ++ "use strict" ++ dq ++ ";";
      "";
      join nl (map (importLine "previousVersion") previousVersionEndpoints);
      "";
      join nl (map (importLine "currentVersion") currentVersionEndpoints);
      "";
      aggregate "previousVersion" previousVersionEndpoints;
      aggregate "currentVersion" currentVersionEndpoints;
      "" ].

(** The text of [currentFitsPrevious.ts], the forward-fits program. *)
Definition currentFitsPrevious (previousVersionEndpoints currentVersionEndpoints : list string)
  : string :=
  join nl
    [ commonSource previousVersionEndpoints currentVersionEndpoints;
      "((_: typeof previousVersion): void => void {})(currentVersion);";
      "" ].

(** The text of [previousFitsCurrent.ts], the backward-fits program. *)
Definition previousFitsCurrent (previousVersionEndpoints currentVersionEndpoints : list string)
  : string :=
  join nl
    [ commonSource previousVersionEndpoints currentVersionEndpoints;
      "((_: typeof currentVersion): void => void {})(previousVersion);";
      "" ].

(** [JSON.stringify({ dependencies: {...} }, null, 2)] *)
Definition scratchManifest : string :=
  join nl
    [ "{";
      "  " ++ dq ++ "dependencies" ++ dq ++ ": {";
      "    " ++ dq ++ "previousVersion" ++ dq ++ ": "
        ++ dq ++ "./previousVersion.tgz" ++ dq ++ ",";
      "    " ++ dq ++ "currentVersion" ++ dq ++ ": "
        ++ dq ++ "./currentVersion.tgz" ++ dq;
      "  }";
      "}" ].

(** ** [main.mjs] *)

Module MainMjs.

(** [spawn(command, args, options)]: resolves when the child closes (see
    [spawned] for a child that cannot be started). *)
Definition spawn (command : string) (args : list string) (cwd : option string)
  : M spawned :=
  let c := mkCommand command args cwd in
  emit (Spawned c) ;;; ask (fun w => spawnResult w c).

Definition exists_ (path : string) : M bool :=
  emit (Access path) ;;; ask (fun w => accessible w path).

Definition withTempDir {A : Type} (prefix : string) (callback : string -> M A)
  : M A :=
  emit (Mkdtemp prefix) ;;;
  tempDir <- askR (fun w => mkdtempResult w prefix) ;;
  finally (callback tempDir) (emit (Rm tempDir)).

Definition cloneTo (root to ref : string) : M bool :=
  stderrWrite ("[START] Cloning " ++ root ++ "@" ++ ref ++ " into " ++ to ++ nl) ;;;
  r <- spawn "git"
         [ "clone"; "--branch"; ref; "-c"; "advice.detachedHead=false";
           "--depth"; "1"; "--single-branch"; "--no-tags";
           "--recurse-submodules"; "--shallow-submodules"; "--";
           "file://" ++ root; to ] None ;;
  stderrWrite ("[DONE] Cloning " ++ root ++ "@" ++ ref ++ " into " ++ to ++ nl) ;;;
  ret (isZero (code r)).

Definition install (dir : string) : M bool :=
  stderrWrite ("[START] Installing dependencies in " ++ dir ++ nl) ;;;
  r <- spawn "pnpm" ["install"] (Some dir) ;;
  stderrWrite ("[DONE] Installing dependencies in " ++ dir ++ nl) ;;;
  ret (isZero (code r)).

Definition rename (dir name : string) : M bool :=
  stderrWrite ("[START] Renaming package in " ++ dir ++ " to '" ++ name ++ "'" ++ nl) ;;;
  r <- spawn "pnpm" ["pkg"; "set"; "name=" ++ name] (Some dir) ;;
  stderrWrite ("[DONE] Renaming package in " ++ dir ++ " to '" ++ name ++ "'" ++ nl) ;;;
  ret (isZero (code r)).

Definition build (dir : string) : M bool :=
  stderrWrite ("[START] Building package in " ++ dir ++ nl) ;;;
  r <- spawn "pnpm" ["run"; "build"] (Some dir) ;;
  stderrWrite ("[DONE] Building package in " ++ dir ++ nl) ;;;
  ret (isZero (code r)).

Definition packTo (dir to : string) : M bool :=
  stderrWrite ("[START] Packing package in " ++ dir ++ nl) ;;;
  pack <- spawn "pnpm" ["pack"] (Some dir) ;;
  stderrWrite ("[DONE] Packing package in " ++ dir ++ nl) ;;;
  if negb (isZero (code pack)) then ret false
  else
    stderrWrite ("[START] Moving packed package in " ++ dir ++ " to " ++ to ++ nl) ;;;
    mv <- spawn "mv" [pathJoin dir (trim (stdout pack)); to] None ;;
    stderrWrite ("[DONE] Moving packed package in " ++ dir ++ " to " ++ to ++ nl) ;;;
    ret (isZero (code mv)).

(** [if (!(await step)) throw new Error(msg)] *)
Definition orThrow (step : M bool) (msg : string) : M unit :=
  ok <- step ;;
  if ok then ret tt else throw (Error msg).

Definition createTgzAndGetEntryPointsAndVersion (root base ref name : string)
  : M (list string * json) :=
  let dir := pathJoin base name in
  emit (Mkdir dir) ;;;
  askR (fun w => mkdirResult w dir) ;;;
  orThrow (cloneTo root dir ref) "error: failed to clone to temporary directory" ;;;
  let packageJsonPath := pathJoin dir "package.json" in
  orThrow (exists_ packageJsonPath) "error: no package.json found after cloning" ;;;
  orThrow (rename dir name) "error: failed to rename" ;;;
  orThrow (install dir) "error: failed to install" ;;;
  orThrow (build dir) "error: failed to build" ;;;
  orThrow (packTo dir (pathJoin base (name ++ ".tgz"))) "error: failed to pack" ;;;
  emit (ReadFile packageJsonPath) ;;;
  packageJsonContents <- askR (fun w => readJson w packageJsonPath) ;;
  liftR (entryPointsAndVersion packageJsonContents).

Definition writeFile (path content : string) : M unit :=
  emit (WriteFile path content) ;;;
  askR (fun w => writeFileResult w path content).

(** The two packagings are awaited one after the other; the three files are
    written together. *)
Definition hydrateBaseDirectoryAndGetSemver
  (root previousVersion currentVersion base : string) : M (json * json) :=
  previous <- createTgzAndGetEntryPointsAndVersion root base previousVersion
                "previousVersion" ;;
  current <- createTgzAndGetEntryPointsAndVersion root base currentVersion
               "currentVersion" ;;
  let (previousVersionEndpoints, previousSemVer) := previous in
  let (currentVersionEndpoints, currentSemVer) := current in
  both (writeFile (pathJoin base "package.json") scratchManifest)
    (both
       (writeFile (pathJoin base "currentFitsPrevious.ts")
          (currentFitsPrevious previousVersionEndpoints currentVersionEndpoints))
       (writeFile (pathJoin base "previousFitsCurrent.ts")
          (previousFitsCurrent previousVersionEndpoints currentVersionEndpoints))) ;;;
  orThrow (install base) "error: failed to install" ;;;
  ret (previousSemVer, currentSemVer).

Definition tscOk (base file : string) : M bool :=
  let ts := pathJoin base file in
  stderrWrite ("[START] Running tsc on " ++ ts ++ nl) ;;;
  r <- spawn "tsc" ["--noEmit"; "--strict"; ts] (Some base) ;;
  stderrWrite ("[DONE] Running tsc on " ++ ts ++ nl) ;;;
  ret (isZero (code r)).

Definition liskovSemVerForwardsBackwards (root previousVersion currentVersion : string)
  : M (json * json * bool * bool) :=
  tmp <- ask tmpdir ;;
  withTempDir (pathJoin tmp "liskov-semver-") (fun base =>
    semVers <- hydrateBaseDirectoryAndGetSemver root previousVersion
                 currentVersion base ;;
    fits <- both (tscOk base "currentFitsPrevious.ts")
              (tscOk base "previousFitsCurrent.ts") ;;
    ret (fst semVers, snd semVers, fst fits, snd fits)).

Definition main (errorOnDirty errorOnUnreachable : bool) : M semver.arg :=
  root <- getRoot spawn ;;
  match root with
  | None => throw (Error "error: cannot determine git root")
  | Some root =>
      dirty <- (if errorOnDirty then isDirty spawn root else ret false) ;;
      if dirty then throw (Error "error: dirty working tree")
      else
        previousVersion <- getHighestVersionTag spawn root ;;
        match previousVersion with
        | None => ret (semver.Text "0.1.0")
        | Some previousVersion =>
            currentVersion <- getCurrentBranch spawn root ;;
            match currentVersion with
            | None => throw (Error "error: no current version --- detached HEAD?")
            | Some currentVersion =>
                unreachable <-
                  (if errorOnUnreachable
                   then reachable <- isReachable spawn root previousVersion
                                       currentVersion ;;
                        ret (negb reachable)
                   else ret false) ;;
                if unreachable
                then throw (Error
                  "error: current version is not reachable from previous version")
                else
                  r <- liskovSemVerForwardsBackwards root previousVersion
                         currentVersion ;;
                  let '(previousSemVer, currentSemVer, forwards, backwards) := r in
                  liftR (decide previousSemVer currentSemVer forwards backwards)
            end
        end
  end.

(** The end of the script: the result on standard output and exit code 0,
    or the failure and exit code 1. *)
Inductive outcome : Type :=
| Printed (text : string)
| Failed (e : exn).

Definition run (errorOnDirty errorOnUnreachable : bool) (w : World)
  : outcome * list event :=
  match main errorOnDirty errorOnUnreachable w with
  | (Ok v, l) => (Printed (semver.toString v ++ nl), l)
  | (Throw e, l) => (Failed e, l)
  end.

End MainMjs.

(** ** The revision of [unnamed/part_000]: the same-commit exit *)

Module Part000.

Definition prefixAll (lines prefix : string) : string :=
  join nl (map (fun line => prefix ++ " " ++ line) (split "010" (trim lines)))
  ++ nl.

(** [`${code}`] *)
Definition showCode (c : option Z) : string :=
  match c with
  | Some z => NilEmpty.string_of_int (Z.to_int z)
  | None => "null"
  end.

(** [spawn] of this revision reports every child process on standard error
    when it closes (see [spawned] for a child that cannot be started; the
    [catch] block, for a synchronous failure of [child_process.spawn], is
    left out). *)
Definition spawn (command : string) (args : list string) (cwd : option string)
  : M spawned :=
  let c := mkCommand command args cwd in
  let boundary :=
    command ++ " " ++ join " " (map (fun arg => "[" ++ arg ++ "]") args) ++ nl in
  stderrWrite ("[START] " ++ boundary) ;;;
  emit (Spawned c) ;;;
  r <- ask (fun w => spawnResult w c) ;;
  stderrWrite (prefixAll (stdout r) "[OUT]") ;;;
  stderrWrite (prefixAll (stderr r) "[ERR]") ;;;
  stderrWrite ("[CODE] " ++ showCode (code r) ++ nl) ;;;
  stderrWrite ("[DONE] " ++ boundary) ;;;
  ret r.

Definition getRefCommit (root ref refType : string) : M (option string) :=
  r <- spawn "git" ["rev-list"; "-1"; refType ++ "s/" ++ ref] (Some root) ;;
  ret (if isZero (code r) then Some (trim (stdout r)) else None).

Section Main.
(** The packaging and oracle stage of this revision (it chooses among three
    package managers); the exits below come before it. *)
Variable liskovSemVerForwardsBackwards :
  string -> string -> string -> M (json * json * bool * bool).

Definition main (errorOnDirty errorOnUnreachable : bool) : M semver.arg :=
  root <- getRoot spawn ;;
  match root with
  | None => throw (Error "error: cannot determine git root")
  | Some root =>
      dirty <- (if errorOnDirty then isDirty spawn root else ret false) ;;
      if dirty then throw (Error "error: dirty working tree")
      else
        previousVersion <- getHighestVersionTag spawn root ;;
        match previousVersion with
        | None => ret (semver.Text "0.1.0")
        | Some previousVersion =>
            previousVersionHash <- getRefCommit root previousVersion "tag" ;;
            match previousVersionHash with
            | None => throw (Error
                ("error: cannot determine commit for previous version ("
                 ++ previousVersion ++ ")"))
            | Some previousVersionHash =>
                currentVersion <- getCurrentBranch spawn root ;;
                match currentVersion with
                | None =>
                    throw (Error "error: no current version --- detached HEAD?")
                | Some currentVersion =>
                    currentVersionHash <- getRefCommit root currentVersion "head" ;;
                    match currentVersionHash with
                    | None => throw (Error
                        ("error: cannot determine commit for current version ("
                         ++ currentVersion ++ ")"))
                    | Some currentVersionHash =>
                        if String.eqb previousVersionHash currentVersionHash
                        then ret (ofText (semver.valid (semver.Text previousVersion)))
                        else
                          unreachable <-
                            (if errorOnUnreachable
                             then reachable <- isReachable spawn root
                                                 previousVersion currentVersion ;;
                                  ret (negb reachable)
                             else ret false) ;;
                          if unreachable
                          then throw (Error
                            "error: current version is not reachable from previous version")
                          else
                            r <- liskovSemVerForwardsBackwards root
                                   previousVersion currentVersion ;;
                            let '(previousSemVer, currentSemVer, forwards, backwards) := r in
                            liftR (decide previousSemVer currentSemVer forwards
                                     backwards)
                    end
                end
            end
        end
  end.

Definition run (errorOnDirty errorOnUnreachable : bool) (w : World)
  : MainMjs.outcome * list event :=
  match main errorOnDirty errorOnUnreachable w with
  | (Ok v, l) => (MainMjs.Printed (semver.toString v ++ nl), l)
  | (Throw e, l) => (MainMjs.Failed e, l)
  end.

End Main.

End Part000.

(** ** Vocabulary of the statements *)

(** A child process that only queries the repository. *)
Definition isGitQuery (c : command) : bool :=
  String.eqb (cmd c) "git" &&
  match args c with
  | sub :: _ =>
      existsb (String.eqb sub) ["rev-parse"; "status"; "tag"; "branch"; "rev-list"]
  | [] => false
  end.

(** An event that touches nothing but the repository's metadata: a git
    query, or a line on standard error. *)
Definition isQuiet (e : event) : bool :=
  match e with
  | Spawned c => isGitQuery c
  | Stderr _ => true
  | _ => false
  end.

(** The files a run wrote, in order. *)
Fixpoint written (l : list event) : list (string * string) :=
  match l with
  | [] => []
  | WriteFile path content :: l' => (path, content) :: written l'
  | _ :: l' => written l'
  end.

(** The order of [Array.prototype.sort()] on strings. *)
Definition strLe (a b : string) : Prop := String.compare a b <> Gt.

(** Semantic-version order, the precedence of SemVer 2.0.0: major, minor
    and patch are compared as numbers; a version with a pre-release is below
    the same version without; pre-release identifiers are compared from the
    left, numerals as numbers of any size, others as strings, a numeral
    below every other identifier, and a list below its extensions.  Build
    metadata is ignored.  This is the order the statements speak of;
    [semver.compareVersions] is what the package computes. *)
Definition exactIdentifier (i : semver.identifier) : N + string :=
  match i with
  | semver.Num n => inl n
  | semver.Alnum s =>
      if semver.isNumeric s then inl (semver.digitsValue s) else inr s
  end.

(** The three-way comparison of two strings as a number. *)
Definition compareStr (a b : string) : Z :=
  match String.compare a b with Lt => (-1)%Z | Eq => 0%Z | Gt => 1%Z end.

Definition precedenceKeys (a b : N + string) : Z :=
  match a, b with
  | inl x, inl y => semver.compareN x y
  | inl _, inr _ => (-1)%Z
  | inr _, inl _ => 1%Z
  | inr x, inr y => compareStr x y
  end.

Definition precedenceIdentifiers (a b : semver.identifier) : Z :=
  precedenceKeys (exactIdentifier a) (exactIdentifier b).

Fixpoint precedencePreFrom (a b : list semver.identifier) : Z :=
  match a, b with
  | [], [] => 0%Z
  | _ :: _, [] => 1%Z
  | [], _ :: _ => (-1)%Z
  | x :: a', y :: b' =>
      semver.orElse (precedenceIdentifiers x y) (precedencePreFrom a' b')
  end.

Definition precedencePre (a b : semver.SemVer) : Z :=
  match semver.v_prerelease a, semver.v_prerelease b with
  | _ :: _, [] => (-1)%Z
  | [], _ :: _ => 1%Z
  | [], [] => 0%Z
  | pa, pb => precedencePreFrom pa pb
  end.

Definition precedence (a b : semver.SemVer) : Z :=
  semver.orElse (semver.compareMain a b) (precedencePre a b).

(** [a] is above, or not below, [b] in semantic-version order. *)
Definition higher (a b : semver.SemVer) : Prop := (precedence a b > 0)%Z.
Definition notLower (a b : semver.SemVer) : Prop := (precedence a b >= 0)%Z.

(** No numeral among the pre-release identifiers reaches
    [Number.MAX_SAFE_INTEGER]: each is held as a number. *)
Definition safeIdentifier (i : semver.identifier) : bool :=
  match i with
  | semver.Num _ => true
  | semver.Alnum s => negb (semver.isNumeric s)
  end.

Definition safe (v : semver.SemVer) : bool :=
  forallb safeIdentifier (semver.v_prerelease v).

(** A version whose numbers are doubles up to 2^53: a valid one, or the
    increment of a valid one. *)
Definition bounded (v : semver.SemVer) : Prop :=
  (semver.v_major v <= 2 ^ 53)%N /\ (semver.v_minor v <= 2 ^ 53)%N /\
  (semver.v_patch v <= 2 ^ 53)%N.

(** [t] is a greatest element of [tags] under semantic-version order. *)
Definition isHighest (t : string) (tags : list string) : Prop :=
  In t tags /\
  exists vt, semver.parse (semver.Text t) = Some vt /\
    forall t', In t' tags ->
      exists vt', semver.parse (semver.Text t') = Some vt' /\ notLower vt vt'.

(** A three-way comparison that is an order: its values are signs, it is
    antisymmetric, and it is transitive, strictly so when one side is. *)
Record order3 {A : Type} (c : A -> A -> Z) : Prop := mkOrder3 {
  o_sign : forall x y, c x y = (-1)%Z \/ c x y = 0%Z \/ c x y = 1%Z;
  o_anti : forall x y, c y x = (- c x y)%Z;
  o_trans : forall x y z, (c x y >= 0)%Z -> (c y z >= 0)%Z ->
      (c x z >= 0)%Z /\ ((c x y > 0)%Z \/ (c y z > 0)%Z -> (c x z > 0)%Z)
}.

(** The release the decision table of the spec selects. *)
Definition tableRelease (forwards backwards : bool) (p : semver.SemVer)
  : semver.release :=
  if forwards then
    if backwards then semver.Rpatch else semver.Rminor
  else if (semver.v_major p =? 0)%N then semver.Rminor else semver.Rmajor.

(** The greater of two versions under semantic-version order. *)
Definition greater (a b : semver.SemVer) : semver.SemVer :=
  if (precedence b a >? 0)%Z then b else a.

(** The version a tag name stands for ([0.0.0] when it stands for none). *)
Definition versionOf (t : string) : semver.SemVer :=
  match semver.parse (semver.Text t) with
  | Some v => v
  | None => semver.mkSemVer 0 0 0 [] []
  end.

(** A tag name the package accepts, with every numeral among its
    pre-release identifiers held as a number. *)
Definition safeTag (t : string) : Prop :=
  (exists v, semver.parse (semver.Text t) = Some v) /\ safe (versionOf t) = true.

(** The tag names [git tag --list] reports, one per line; none when the
    command fails. *)
Definition listedTags (w : World) (root : string) : list string :=
  let r := spawnResult w (mkCommand "git" ["tag"; "--list"] (Some root)) in
  if isZero (code r) then split "010" (stdout r) else [].

(** [v] is an object that declares a ["types"] field. *)
Definition declaresTypes (v : json) : bool :=
  match v with
  | JObj members => existsb (fun kv => String.eqb (fst kv) "types") members
  | _ => false
  end.

(** The entries of the export map of a manifest (none when it has no
    export map). *)
Definition exportMap (m : json) : list (string * json) :=
  match getProperty "exports" m with
  | Ok exports => entries (orDefault exports (JObj []))
  | Throw _ => []
  end.

(** The keys of the export map whose value is an object declaring types. *)
Definition qualifyingKeys (m : json) : list string :=
  map fst (filter (fun kv => declaresTypes (snd kv)) (exportMap m)).

(** The root entry point when the manifest declares root types, then the
    qualifying keys; the root alone when there would be none. *)
Definition collected (m : json) : list string :=
  let l := ((if declaresTypes m then [""] else []) ++ qualifyingKeys m)%list in
  match l with
  | [] => [""]
  | _ => l
  end.

Definition isNull (v : json) : bool :=
  match v with JNull => true | _ => false end.

(** A manifest extraction goes through: an object (or an array) none of
    whose export-map values is [null]. *)
Definition extractable (m : json) : bool :=
  match m with
  | JObj _ | JArr _ => forallb (fun kv => negb (isNull (snd kv))) (exportMap m)
  | _ => false
  end.

(** The entry points as a set: the union the spec describes, each name
    once. *)
Definition entryPointSet (m : json) : list string :=
  nodup string_dec (collected m).

(** The version field of a manifest as it is; [null] when there is none. *)
Definition versionField (m : json) : json :=
  match m with
  | JObj members =>
      match find (fun kv => String.eqb (fst kv) "version") members with
      | Some kv => snd kv
      | None => JNull
      end
  | _ => JNull
  end.

(** What the repository answers to the engine's queries. *)
Definition cmdRevParse : command :=
  mkCommand "git" ["rev-parse"; "--show-toplevel"] None.
Definition cmdStatus (root : string) : command :=
  mkCommand "git" ["status"; "--porcelain"] (Some root).
Definition cmdTagList (root : string) : command :=
  mkCommand "git" ["tag"; "--list"] (Some root).
Definition cmdBranch (root : string) : command :=
  mkCommand "git" ["branch"; "--show-current"] (Some root).
Definition cmdRevList (root ref refType : string) : command :=
  mkCommand "git" ["rev-list"; "-1"; refType ++ "s/" ++ ref] (Some root).

Definition stdoutIfOk (r : spawned) : option string :=
  if isZero (code r) then Some (trim (stdout r)) else None.

Definition gitRoot (w : World) : option string :=
  stdoutIfOk (spawnResult w cmdRevParse).

Definition statusOf (w : World) (root : string) : spawned :=
  spawnResult w (cmdStatus root).

Definition currentBranch (w : World) (root : string) : option string :=
  stdoutIfOk (spawnResult w (cmdBranch root)).

Definition refCommit (w : World) (root ref refType : string) : option string :=
  stdoutIfOk (spawnResult w (cmdRevList root ref refType)).

(** A log that shows git queries and lines on standard error only: no
    clone, no package manager, no type-checker, no scratch directory. *)
Definition quiet (l : list event) : Prop := Forall (fun e => isQuiet e = true) l.

(** The entry points of the artifact packed under [name] in the scratch
    directory [base]. *)
Definition artifactEntryPoints (w : World) (base name : string)
  : Result (list string) :=
  bindR (readJson w (pathJoin (pathJoin base name) "package.json")) (fun m =>
  bindR (entryPointsAndVersion m) (fun r => Ok (fst r))).

(** The declared version of that artifact. *)
Definition artifactVersion (w : World) (base name : string) : Result json :=
  bindR (readJson w (pathJoin (pathJoin base name) "package.json")) declaredVersion.

(** A repository whose only tag, [v1.2.3], sits on the commit of the
    checked-out branch, with a manifest that declares version [1.0.0];
    every child process succeeds, and both witness programs type-check. *)
Definition sameCommitWorld : World :=
  mkWorld
    (fun c =>
       let sub := nth 0 (args c) "" in
       if String.eqb (cmd c) "git" then
         if String.eqb sub "rev-parse" then mkSpawned (Some 0%Z) ("/repo" ++ nl) ""
         else if String.eqb sub "tag" then mkSpawned (Some 0%Z) ("v1.2.3" ++ nl) ""
         else if String.eqb sub "branch" then mkSpawned (Some 0%Z) ("main" ++ nl) ""
         else if String.eqb sub "rev-list"
         then mkSpawned (Some 0%Z) ("4f2a9c1" ++ nl) ""
         else mkSpawned (Some 0%Z) "" ""
       else if String.eqb sub "pack"
       then mkSpawned (Some 0%Z) ("pkg-1.0.0.tgz" ++ nl) ""
       else mkSpawned (Some 0%Z) "" "")
    "/tmp"
    (fun prefix => Ok (prefix ++ "k3Jq0x"))
    (fun _ => Ok tt)
    (fun _ => true)
    (fun _ => Ok (JObj [("name", JStr "pkg"); ("version", JStr "1.0.0");
                        ("types", JStr "./dist/index.d.ts")]))
    (fun _ _ => Ok tt).

(** A computation that writes no file, whatever the environment. *)
Definition writesNothing {A : Type} (m : M A) : Prop :=
  forall w, written (snd (m w)) = [].

(** Another repository and another machine: a different scratch directory,
    a different package at version [2.5.0], with the same single root
    entry point. *)
Definition otherWorld : World :=
  mkWorld
    (fun c =>
       if String.eqb (nth 0 (args c) "") "pack"
       then mkSpawned (Some 0%Z) ("lib-2.5.0.tgz" ++ nl) ""
       else mkSpawned (Some 0%Z) "" "")
    "/var/tmp"
    (fun prefix => Ok (prefix ++ "Zz81Qp"))
    (fun _ => Ok tt)
    (fun _ => true)
    (fun _ => Ok (JObj [("version", JStr "2.5.0"); ("name", JStr "lib");
                        ("types", JStr "./types/main.d.ts");
                        ("exports", JObj [(".", JStr "./main.js")])]))
    (fun _ _ => Ok tt).

(** ** The package managers of [unnamed/part_000] *)

Module Part000Pm.

(** The three command dialects, chosen by the lock file found. *)
Inductive manager : Type := Yarn | Pnpm | Npm.

Definition commandOf (m : manager) : string :=
  match m with
  | Yarn => "yarn"
  | Pnpm => "pnpm"
  | Npm => "npm"
  end.

Definition exists_ (path : string) : M bool :=
  emit (Access path) ;;; ask (fun w => accessible w path).

Definition pm (dir : string) : M manager :=
  yarn <- exists_ (pathJoin dir "yarn.lock") ;;
  if yarn then ret Yarn
  else
    pnpm <- exists_ (pathJoin dir "pnpm-lock.yaml") ;;
    if pnpm then ret Pnpm else ret Npm.

(** [typeof c.scripts === "object" && undefined !== c.scripts.build] *)
Definition hasBuildScript (packageJsonContents : json) : Result bool :=
  bindR (getProperty "scripts" packageJsonContents) (fun scripts =>
    match scripts with
    | Some s =>
        if typeofObject s
        then bindR (getProperty "build" s) (fun build => Ok (isSome build))
        else Ok false
    | None => Ok false
    end).

Definition pm_build (dir : string) : M bool :=
  command <- pm dir ;;
  match command with
  | Yarn =>
      emit (ReadFile (pathJoin dir "package.json")) ;;;
      packageJsonContents <- askR (fun w => readJson w (pathJoin dir "package.json")) ;;
      if negb (typeofObject packageJsonContents)
      then throw (Error "error: malformed package.json")
      else
        build <- liftR (hasBuildScript packageJsonContents) ;;
        if build
        then r <- Part000.spawn "yarn" ["run"; "build"] (Some dir) ;;
             ret (isZero (code r))
        else ret true
  | Pnpm | Npm =>
      r <- Part000.spawn (commandOf command) ["run"; "--if-present"; "build"]
             (Some dir) ;;
      ret (isZero (code r))
  end.

End Part000Pm.

(** ** The documented revision of [unnamed/part_000]: its witness text *)

Module Part000Doc.

(** The import statement of [createVersionWitnesses]: one template, with
    the slash left out for the root entry point. *)
Definition importLine (role entryPoint : string) : string :=
  "import * as " ++ role ++ "_" ++ entryPoint ++ " from " ++ dq ++ role
  ++ (if String.eqb "" entryPoint then "" else "/") ++ entryPoint ++ dq ++ ";".

Definition commonSource (previousEndpoints currentEndpoints : list string)
  : string :=
  join nl
    [ dq ++ "use strict" ++ dq ++ ";";
      "";
      join nl (map (importLine "previousVersion") previousEndpoints);
      "";
      join nl (map (importLine "currentVersion") currentEndpoints);
      "";
      aggregate "previousVersion" previousEndpoints;
      aggregate "currentVersion" currentEndpoints;
      "" ].

End Part000Doc.

(** ** [unnamed/part_001]: the queries on tags and branches *)

Module GitMjs.

(** [Array.from(new Set(xs))]: each element once, at its first place. *)
Fixpoint fromSet (xs : list string) : list string :=
  match xs with
  | [] => []
  | x :: rest => x :: filter (fun y => negb (String.eqb y x)) (fromSet rest)
  end.

(** [getTags], from what [git.listTags] answered. *)
Definition getTags (listed : list string) : Result (list string) :=
  sort defaultCompare (fromSet listed).

(** [getBranches], from what [git.listBranches] answered. *)
Definition getBranches (listed : list string) : Result (list string) :=
  sort defaultCompare (fromSet listed).

Definition getTagsAndBranches (listedTags listedBranches : list string)
  : Result (list string) :=
  bindR (getTags listedTags) (fun tags =>
  bindR (getBranches listedBranches) (fun branches =>
    sort defaultCompare (fromSet (tags ++ branches)%list))).

(** A row of [git.statusMatrix]: the file and its three status numbers. *)
Record row : Type := mkRow {
  filepath : string;
  head : N;
  workDir : N;
  stage : N
}.

(** [isDirty], from what [git.statusMatrix] answered. *)
Definition isDirty (matrix : list row) : bool :=
  existsb (fun r => negb (head r * workDir r * stage r =? 1)%N) matrix.

End GitMjs.

(** ** Vocabulary of the later stages *)

Definition treeDirty (w : World) (root : string) : bool :=
  negb (isZero (code (statusOf w root))
        && String.eqb "" (trim (stdout (statusOf w root)))).

Definition cmdBoundary (root oldRef newRef : string) : command :=
  mkCommand "git" ["rev-list"; "--boundary"; oldRef ++ ".." ++ newRef] (Some root).

Definition reachable (w : World) (root oldRef newRef : string) : bool :=
  let r := spawnResult w (cmdBoundary root oldRef newRef) in
  isZero (code r) && negb (String.eqb "" (trim (stdout r))).

Definition cmdClone (root to ref : string) : command :=
  mkCommand "git"
    [ "clone"; "--branch"; ref; "-c"; "advice.detachedHead=false";
      "--depth"; "1"; "--single-branch"; "--no-tags";
      "--recurse-submodules"; "--shallow-submodules"; "--";
      "file://" ++ root; to ] None.

Definition cmdPnpm (arguments : list string) (dir : string) : command :=
  mkCommand "pnpm" arguments (Some dir).

Definition cmdMv (from to : string) : command :=
  mkCommand "mv" [from; to] None.

Definition cmdTsc (base file : string) : command :=
  mkCommand "tsc" ["--noEmit"; "--strict"; pathJoin base file] (Some base).

Definition succeeded (w : World) (c : command) : bool :=
  isZero (code (spawnResult w c)).

(** The child processes a run started, in order. *)
Fixpoint spawnedCommands (l : list event) : list command :=
  match l with
  | [] => []
  | Spawned c :: l' => c :: spawnedCommands l'
  | _ :: l' => spawnedCommands l'
  end.

(** Every child process of the run closed with an exit code: none was
    killed, and the program of each could be started. *)
Definition closed (w : World) (l : list event) : Prop :=
  Forall (fun c => code (spawnResult w c) <> None) (spawnedCommands l).

(** The files a run read, in order. *)
Fixpoint filesRead (l : list event) : list string :=
  match l with
  | [] => []
  | ReadFile path :: l' => path :: filesRead l'
  | _ :: l' => filesRead l'
  end.

(** The prefix of the scratch directory. *)
Definition scratchPrefix (w : World) : string :=
  pathJoin (tmpdir w) "liskov-semver-".

(** The versions [a] and [b] are equal in precedence. *)
Definition sameVersion (a b : semver.SemVer) : Prop :=
  precedence a b = 0%Z.

(** The creation and the removal of a scratch directory. *)
Definition isScratchEvent (e : event) : bool :=
  match e with
  | Mkdtemp _ | Rm _ => true
  | _ => false
  end.

(** A computation all of whose events satisfy [ok], whatever the
    environment. *)
Definition logsOnly {A : Type} (ok : event -> bool) (m : M A) : Prop :=
  forall w, Forall (fun e => ok e = true) (snd (m w)).

(** The environment [w], except that the commands selected by [test] get
    the answer [answer]. *)
Definition withAnswer (w : World) (test : command -> bool) (answer : spawned)
  : World :=
  mkWorld (fun c => if test c then answer else spawnResult w c)
    (tmpdir w) (mkdtempResult w) (mkdirResult w) (accessible w) (readJson w)
    (writeFileResult w).

Definition isSubcommand (program sub : string) (c : command) : bool :=
  String.eqb (cmd c) program && String.eqb (nth 0 (args c) "") sub.

(** [sameCommitWorld] with a clone that fails. *)
Definition cloneFailsWorld : World :=
  withAnswer sameCommitWorld (isSubcommand "git" "clone")
    (mkSpawned (Some 128%Z) "" "fatal: Remote branch not found").

(** [sameCommitWorld] on a detached HEAD: no current branch is printed. *)
Definition detachedWorld : World :=
  withAnswer sameCommitWorld (isSubcommand "git" "branch")
    (mkSpawned (Some 0%Z) "" "").

(** [sameCommitWorld] where the tag cannot reach the branch. *)
Definition unreachableWorld : World :=
  withAnswer sameCommitWorld
    (fun c => isSubcommand "git" "rev-list" c
              && String.eqb (nth 1 (args c) "") "--boundary")
    (mkSpawned (Some 0%Z) "" "").

(** * Properties *)

(** ** Three-way orders *)

Lemma order3_zero_trans {A : Type} (c : A -> A -> Z) (H : order3 c) x y z :
  c x y = 0%Z -> c y z = 0%Z -> c x z = 0%Z.
Proof.
  intros Hxy Hyz.
  destruct (o_trans c H x y z) as [H1 _]; try lia.
  destruct (o_trans c H z y x) as [H2 _].
  - rewrite (o_anti c H y z). lia.
  - rewrite (o_anti c H x y). lia.
  - rewrite (o_anti c H x z) in H2. lia.
Qed.

Lemma order3_refl {A : Type} (c : A -> A -> Z) (H : order3 c) x : c x x = 0%Z.
Proof. pose proof (o_anti c H x x). lia. Qed.

Lemma order3_lex {A : Type} (c1 c2 : A -> A -> Z) :
  order3 c1 -> order3 c2 ->
  order3 (fun x y => semver.orElse (c1 x y) (c2 x y)).
Proof.
  intros H1 H2. split.
  - intros x y. unfold semver.orElse.
    destruct (Z.eqb_spec (c1 x y) 0); [apply (o_sign c2 H2)|apply (o_sign c1 H1)].
  - intros x y. unfold semver.orElse.
    rewrite (o_anti c1 H1 x y), (o_anti c2 H2 x y).
    destruct (Z.eqb_spec (c1 x y) 0), (Z.eqb_spec (- c1 x y) 0); lia.
  - intros x y z. unfold semver.orElse.
    pose proof (o_sign c1 H1 x y) as S1. pose proof (o_sign c1 H1 y z) as S2.
    destruct (Z.eqb_spec (c1 x y) 0) as [E1|E1],
             (Z.eqb_spec (c1 y z) 0) as [E2|E2]; intros G1 G2.
    + rewrite (order3_zero_trans c1 H1 x y z E1 E2). simpl.
      apply (o_trans c2 H2); assumption.
    + destruct (o_trans c1 H1 x y z) as [_ T]; try lia.
      destruct (Z.eqb_spec (c1 x z) 0); lia.
    + destruct (o_trans c1 H1 x y z) as [_ T]; try lia.
      destruct (Z.eqb_spec (c1 x z) 0); lia.
    + destruct (o_trans c1 H1 x y z) as [_ T]; try lia.
      destruct (Z.eqb_spec (c1 x z) 0); lia.
Qed.

Lemma order3_on {A B : Type} (f : A -> B) (c : B -> B -> Z) :
  order3 c -> order3 (fun x y => c (f x) (f y)).
Proof.
  intros H. split; intros.
  - apply (o_sign c H).
  - apply (o_anti c H).
  - apply (o_trans c H); assumption.
Qed.

Lemma order3_flip {A : Type} (c : A -> A -> Z) :
  order3 c -> order3 (fun x y => c y x).
Proof.
  intros H. split.
  - intros x y. apply (o_sign c H).
  - intros x y. apply (o_anti c H).
  - intros x y z G1 G2.
    destruct (o_trans c H z y x G2 G1) as [T1 T2]. split; [assumption|].
    intros [G|G]; apply T2; [right|left]; assumption.
Qed.

Lemma order3_compareN : order3 semver.compareN.
Proof.
  split; unfold semver.compareN.
  - intros x y. destruct (N.compare x y); auto.
  - intros x y. rewrite (N.compare_antisym x y).
    destruct (N.compare x y); reflexivity.
  - intros x y z.
    destruct (N.compare_spec x y), (N.compare_spec y z), (N.compare_spec x z);
      intros; split; intros; lia.
Qed.

Lemma compareN_refl_0 n : semver.compareN n n = 0%Z.
Proof. unfold semver.compareN. now rewrite N.compare_refl. Qed.

Lemma order3_compareStr : order3 compareStr.
Proof.
  split; unfold compareStr.
  - intros x y. destruct (String.compare x y); auto.
  - intros x y. rewrite (String.compare_antisym y x).
    destruct (String.compare x y); reflexivity.
  - intros x y z.
    destruct (String.compare x y) eqn:Exy;
      destruct (String.compare y z) eqn:Eyz; intros G1 G2; try lia.
    + apply String.compare_eq_iff in Exy, Eyz. subst.
      pose proof (proj2 (OrderedTypeEx.String_as_OT.cmp_eq z z) eq_refl) as R.
      unfold OrderedTypeEx.String_as_OT.cmp in R. rewrite R. lia.
    + apply String.compare_eq_iff in Exy. subst. rewrite Eyz. lia.
    + apply String.compare_eq_iff in Eyz. subst. rewrite Exy. lia.
    + assert (L : String.compare z x = Lt).
      { apply OrderedTypeEx.String_as_OT.cmp_lt.
        apply OrderedTypeEx.String_as_OT.lt_trans with y;
          apply OrderedTypeEx.String_as_OT.cmp_lt;
          rewrite String.compare_antisym; [rewrite Eyz|rewrite Exy]; reflexivity. }
      rewrite String.compare_antisym, L. simpl. lia.
Qed.

Lemma orElse_trans (a1 b1 d1 a2 b2 d2 : Z) :
  ((a1 >= 0)%Z -> (b1 >= 0)%Z ->
     (d1 >= 0)%Z /\ ((a1 > 0)%Z \/ (b1 > 0)%Z -> (d1 > 0)%Z)) ->
  (a1 = 0%Z -> b1 = 0%Z -> d1 = 0%Z) ->
  ((a2 >= 0)%Z -> (b2 >= 0)%Z ->
     (d2 >= 0)%Z /\ ((a2 > 0)%Z \/ (b2 > 0)%Z -> (d2 > 0)%Z)) ->
  (semver.orElse a1 a2 >= 0)%Z -> (semver.orElse b1 b2 >= 0)%Z ->
  (semver.orElse d1 d2 >= 0)%Z /\
  ((semver.orElse a1 a2 > 0)%Z \/ (semver.orElse b1 b2 > 0)%Z ->
   (semver.orElse d1 d2 > 0)%Z).
Proof.
  unfold semver.orElse. intros T1 Z1 T2.
  destruct (Z.eqb_spec a1 0), (Z.eqb_spec b1 0), (Z.eqb_spec d1 0);
    intros G1 G2; try (specialize (Z1 ltac:(assumption) ltac:(assumption)));
    first [ lia | apply T2; assumption | destruct T1 as [? T1]; lia ].
Qed.

Lemma order3_precedenceKeys : order3 precedenceKeys.
Proof.
  pose proof order3_compareN as HN. pose proof order3_compareStr as HS.
  split.
  - intros [x|x] [y|y]; simpl; auto;
      [apply (o_sign _ HN)|apply (o_sign _ HS)].
  - intros [x|x] [y|y]; simpl; auto;
      [apply (o_anti _ HN)|apply (o_anti _ HS)].
  - intros [x|x] [y|y] [z|z]; simpl; intros G1 G2; try lia.
    + apply (o_trans _ HN x y z); assumption.
    + apply (o_trans _ HS x y z); assumption.
Qed.

Lemma order3_precedenceIdentifiers : order3 precedenceIdentifiers.
Proof. apply (order3_on exactIdentifier), order3_precedenceKeys. Qed.

Lemma order3_precedencePreFrom : order3 precedencePreFrom.
Proof.
  pose proof order3_precedenceIdentifiers as HI.
  assert (Hanti : forall a b,
             precedencePreFrom b a = (- precedencePreFrom a b)%Z).
  { induction a as [|x a IH]; intros [|y b]; try reflexivity.
    simpl. unfold semver.orElse.
    rewrite (o_anti _ HI x y), IH.
    destruct (Z.eqb_spec (precedenceIdentifiers x y) 0),
             (Z.eqb_spec (- precedenceIdentifiers x y) 0); lia. }
  assert (Htrans : forall a b d,
             (precedencePreFrom a b >= 0)%Z ->
             (precedencePreFrom b d >= 0)%Z ->
             (precedencePreFrom a d >= 0)%Z /\
             ((precedencePreFrom a b > 0)%Z \/ (precedencePreFrom b d > 0)%Z ->
              (precedencePreFrom a d > 0)%Z)).
  { induction a as [|x a IH]; intros [|y b] [|z d]; try (simpl; lia).
    cbn [precedencePreFrom].
    apply orElse_trans.
    - apply (o_trans _ HI).
    - apply (order3_zero_trans _ HI).
    - apply IH. }
  split; [|exact Hanti|exact Htrans].
  induction x as [|x a IH]; intros [|y b]; simpl; auto.
  unfold semver.orElse.
  destruct (Z.eqb_spec (precedenceIdentifiers x y) 0);
    [apply IH|apply (o_sign _ HI)].
Qed.

Lemma order3_precedencePre : order3 precedencePre.
Proof.
  pose proof order3_precedencePreFrom as HP.
  split; unfold precedencePre.
  - intros x y. destruct (semver.v_prerelease x), (semver.v_prerelease y);
      auto. apply (o_sign _ HP).
  - intros x y. destruct (semver.v_prerelease x), (semver.v_prerelease y);
      auto. apply (o_anti _ HP).
  - intros x y z.
    destruct (semver.v_prerelease x) as [|i a], (semver.v_prerelease y) as [|j b],
             (semver.v_prerelease z) as [|k d]; try lia.
    apply (o_trans _ HP).
Qed.

Lemma order3_compareMain : order3 semver.compareMain.
Proof.
  unfold semver.compareMain.
  apply (order3_lex (fun a b => semver.compareN (semver.v_major a) (semver.v_major b))).
  - apply (order3_on semver.v_major), order3_compareN.
  - apply (order3_lex
             (fun a b => semver.compareN (semver.v_minor a) (semver.v_minor b))).
    + apply (order3_on semver.v_minor), order3_compareN.
    + apply (order3_on semver.v_patch), order3_compareN.
Qed.

(** Semantic-version order is an order. *)
Lemma order3_precedence : order3 precedence.
Proof.
  unfold precedence.
  apply (order3_lex semver.compareMain precedencePre).
  - apply order3_compareMain.
  - apply order3_precedencePre.
Qed.

(** ** The package's comparison and semantic-version order *)

Lemma strictEq_sym a b : semver.strictEq a b = semver.strictEq b a.
Proof.
  destruct a as [x|x], b as [y|y]; simpl; try reflexivity.
  - apply N.eqb_sym.
  - apply String.eqb_sym.
Qed.

Lemma strictEq_refl a : semver.strictEq a a = true.
Proof. destruct a; simpl; [apply N.eqb_refl|apply String.eqb_refl]. Qed.

Lemma compare_neq_swap x y :
  String.eqb x y = false ->
  match String.compare y x with Lt => (-1)%Z | _ => 1%Z end
  = (- match String.compare x y with Lt => (-1)%Z | _ => 1%Z end)%Z.
Proof.
  intros H. rewrite (String.compare_antisym y x).
  destruct (String.compare x y) eqn:E; simpl; try reflexivity.
  apply String.compare_eq_iff in E. subst.
  now rewrite String.eqb_refl in H.
Qed.

(** The package's comparison is antisymmetric on all versions. *)
Lemma compareIdentifiers_anti a b :
  semver.compareIdentifiers b a = (- semver.compareIdentifiers a b)%Z.
Proof.
  unfold semver.compareIdentifiers. rewrite (strictEq_sym b a).
  destruct (semver.numeric a) eqn:Na, (semver.numeric b) eqn:Nb; cbn [andb negb].
  - apply (o_anti _ order3_compareN).
  - destruct (semver.strictEq a b); reflexivity.
  - destruct (semver.strictEq a b); reflexivity.
  - destruct (semver.strictEq a b) eqn:E; [reflexivity|].
    destruct a as [x|x], b as [y|y]; try discriminate Na; try discriminate Nb.
    apply compare_neq_swap. exact E.
Qed.

Lemma comparePreFrom_anti a b :
  semver.comparePreFrom b a = (- semver.comparePreFrom a b)%Z.
Proof.
  revert b. induction a as [|x a IH]; intros [|y b]; try reflexivity.
  simpl. rewrite (strictEq_sym y x).
  destruct (semver.strictEq x y); [apply IH|apply compareIdentifiers_anti].
Qed.

Lemma compareVersions_anti a b :
  semver.compareVersions b a = (- semver.compareVersions a b)%Z.
Proof.
  unfold semver.compareVersions, semver.orElse.
  rewrite (o_anti _ order3_compareMain a b).
  assert (P : semver.comparePre b a = (- semver.comparePre a b)%Z).
  { unfold semver.comparePre.
    destruct (semver.v_prerelease a), (semver.v_prerelease b); try reflexivity.
    apply comparePreFrom_anti. }
  rewrite P.
  destruct (Z.eqb_spec (semver.compareMain a b) 0),
           (Z.eqb_spec (- semver.compareMain a b) 0); lia.
Qed.

Lemma comparePreFrom_refl a : semver.comparePreFrom a a = 0%Z.
Proof.
  induction a as [|x a IH]; simpl; [reflexivity|].
  now rewrite strictEq_refl.
Qed.

Lemma compareVersions_refl a : semver.compareVersions a a = 0%Z.
Proof.
  unfold semver.compareVersions, semver.orElse.
  rewrite (order3_refl _ order3_compareMain). simpl.
  unfold semver.comparePre.
  destruct (semver.v_prerelease a); [reflexivity|apply comparePreFrom_refl].
Qed.

(** Against a version without pre-release no identifier is looked at: the
    package's comparison is semantic-version order. *)
Lemma compare_release_right a b :
  semver.v_prerelease b = [] -> semver.compareVersions a b = precedence a b.
Proof.
  intros H. unfold semver.compareVersions, precedence, semver.comparePre,
    precedencePre. rewrite H.
  destruct (semver.v_prerelease a); reflexivity.
Qed.

Lemma compare_release_left a b :
  semver.v_prerelease a = [] -> semver.compareVersions a b = precedence a b.
Proof.
  intros H. unfold semver.compareVersions, precedence, semver.comparePre,
    precedencePre. rewrite H.
  destruct (semver.v_prerelease b); reflexivity.
Qed.

Lemma safe_numeric i :
  safeIdentifier i = true ->
  semver.numeric i = match i with semver.Num _ => true | _ => false end.
Proof.
  destruct i as [n|s]; simpl; [reflexivity|].
  intros H. now apply negb_true_iff in H.
Qed.

Lemma compareIdentifiers_safe x y :
  safeIdentifier x = true -> safeIdentifier y = true ->
  (semver.strictEq x y = true -> precedenceIdentifiers x y = 0%Z) /\
  (semver.strictEq x y = false ->
   semver.compareIdentifiers x y = precedenceIdentifiers x y /\
   precedenceIdentifiers x y <> 0%Z).
Proof.
  intros Sx Sy. unfold semver.compareIdentifiers, precedenceIdentifiers.
  rewrite (safe_numeric x Sx), (safe_numeric y Sy).
  destruct x as [x|x], y as [y|y]; simpl in *.
  - split; intros H.
    + apply N.eqb_eq in H. subst. apply compareN_refl_0.
    + split; [reflexivity|]. apply N.eqb_neq in H.
      unfold semver.compareN. destruct (N.compare_spec x y); congruence.
  - apply negb_true_iff in Sy. rewrite Sy. split; [discriminate|].
    intros _. split; [reflexivity|discriminate].
  - apply negb_true_iff in Sx. rewrite Sx. split; [discriminate|].
    intros _. split; [reflexivity|discriminate].
  - apply negb_true_iff in Sx, Sy. rewrite Sx, Sy. simpl. unfold compareStr.
    split; intros H.
    + apply String.eqb_eq in H. subst.
      pose proof (proj2 (OrderedTypeEx.String_as_OT.cmp_eq y y) eq_refl) as R.
      unfold OrderedTypeEx.String_as_OT.cmp in R. now rewrite R.
    + rewrite H.
      destruct (String.compare x y) eqn:E; try (split; [reflexivity|discriminate]).
      apply String.compare_eq_iff in E. subst.
      now rewrite String.eqb_refl in H.
Qed.

Lemma comparePreFrom_safe a b :
  forallb safeIdentifier a = true -> forallb safeIdentifier b = true ->
  semver.comparePreFrom a b = precedencePreFrom a b.
Proof.
  revert b. induction a as [|x a IH]; intros [|y b]; try reflexivity.
  simpl. intros Ha Hb.
  apply andb_true_iff in Ha, Hb. destruct Ha as [Sx Sa], Hb as [Sy Sb].
  destruct (compareIdentifiers_safe x y Sx Sy) as [E N].
  unfold semver.orElse.
  destruct (semver.strictEq x y).
  - rewrite (E eq_refl). simpl. apply IH; assumption.
  - destruct (N eq_refl) as [N1 N2]. rewrite N1.
    destruct (Z.eqb_spec (precedenceIdentifiers x y) 0); [contradiction|reflexivity].
Qed.

(** On versions whose numerals are all held as numbers, the package's
    comparison is semantic-version order. *)
Lemma compareVersions_safe a b :
  safe a = true -> safe b = true ->
  semver.compareVersions a b = precedence a b.
Proof.
  unfold safe, semver.compareVersions, precedence, semver.comparePre,
    precedencePre.
  intros Sa Sb.
  destruct (semver.v_prerelease a) as [|x a'], (semver.v_prerelease b) as [|y b'];
    try reflexivity.
  now rewrite (comparePreFrom_safe _ _ Sa Sb).
Qed.

(** ** [Array.prototype.sort] with a comparator that is an order *)

Section SortFacts.
Context {A : Type}.
Variable cmp : A -> A -> Result Z.
Variable c : A -> A -> Z.
Variable good : A -> Prop.
Hypothesis Hc : order3 c.
Hypothesis Hcmp : forall x y, good x -> good y -> cmp x y = Ok (c x y).

Let leq (x y : A) : Prop := (c x y <= 0)%Z.

Lemma leq_trans x y z : leq x y -> leq y z -> leq x z.
Proof.
  unfold leq. intros Hxy Hyz.
  destruct (o_trans c Hc z y x) as [T _].
  - rewrite (o_anti c Hc y z). lia.
  - rewrite (o_anti c Hc x y). lia.
  - rewrite (o_anti c Hc x z) in T. lia.
Qed.

Lemma insert_sorted x l :
  good x -> Forall good l -> StronglySorted leq l ->
  exists r, insert cmp x l = Ok r /\ Permutation (x :: l) r /\ StronglySorted leq r.
Proof.
  intros Hx. induction l as [|y l IH]; intros Hl Hs.
  - exists [x]. simpl. repeat split; auto. constructor; constructor.
  - inversion Hl as [|? ? Hy Hl']; subst.
    apply StronglySorted_inv in Hs. destruct Hs as [Hs Hall].
    simpl. rewrite (Hcmp x y Hx Hy). simpl.
    destruct (Z.gtb_spec (c x y) 0) as [G|G].
    + destruct (IH Hl' Hs) as [r [E [P S]]]. rewrite E. simpl.
      exists (y :: r). repeat split.
      * rewrite perm_swap. constructor. exact P.
      * constructor; [exact S|].
        apply (Permutation_Forall P). constructor; [|exact Hall].
        unfold leq. rewrite (o_anti c Hc x y). lia.
    + exists (x :: y :: l). repeat split; auto.
      constructor.
      * constructor; assumption.
      * assert (L : leq x y) by (unfold leq; lia).
        constructor; [exact L|].
        eapply Forall_impl; [|exact Hall]. intros a La.
        apply (leq_trans x y a); assumption.
Qed.

Lemma sort_sorted l :
  Forall good l ->
  exists r, sort cmp l = Ok r /\ Permutation l r /\ StronglySorted leq r.
Proof.
  induction l as [|x l IH]; intros Hl.
  - exists []. repeat split; auto. constructor.
  - inversion Hl as [|? ? Hx Hl']; subst.
    destruct (IH Hl') as [r [E [P S]]]. simpl. rewrite E. simpl.
    destruct (insert_sorted x r Hx (Permutation_Forall P Hl') S)
      as [r' [E' [P' S']]].
    exists r'. repeat split; auto.
    transitivity (x :: r); [constructor; exact P|exact P'].
Qed.

(** The first element of the sorted array is lowest in the comparator's
    order (so it is the greatest when the comparator is a reversed one). *)
Lemma sort_first l :
  Forall good l ->
  exists r, sort cmp l = Ok r /\ Permutation l r /\
    match first r with
    | None => l = []
    | Some h => In h l /\ forall y, In y l -> (c h y <= 0)%Z
    end.
Proof.
  intros Hl. destruct (sort_sorted l Hl) as [r [E [P S]]].
  exists r. repeat split; auto.
  destruct r as [|h t]; simpl.
  - apply Permutation_sym, Permutation_nil in P. exact P.
  - split.
    + apply (Permutation_in h (Permutation_sym P)). left. reflexivity.
    + intros y Hy. apply (Permutation_in y P) in Hy.
      apply StronglySorted_inv in S. destruct S as [_ Hall].
      destruct Hy as [<-|Hy].
      * rewrite (order3_refl c Hc). lia.
      * rewrite Forall_forall in Hall. apply Hall. exact Hy.
Qed.

End SortFacts.

(** ** [Array.prototype.sort] with a comparator that does not throw *)

Section SortTotal.
Context {A : Type}.
Variable cmp : A -> A -> Result Z.
Variable good : A -> Prop.
Hypothesis Hcmp : forall x y, good x -> good y -> exists z, cmp x y = Ok z.

Lemma insert_perm x l :
  good x -> Forall good l ->
  exists r, insert cmp x l = Ok r /\ Permutation (x :: l) r.
Proof.
  intros Hx. induction l as [|y l IH]; intros Hl.
  - exists [x]. split; [reflexivity|apply Permutation_refl].
  - inversion Hl as [|? ? Hy Hl']; subst.
    simpl. destruct (Hcmp x y Hx Hy) as [z ->]. simpl.
    destruct (z >? 0)%Z.
    + destruct (IH Hl') as [r [E P]]. rewrite E. simpl.
      exists (y :: r). split; [reflexivity|].
      rewrite perm_swap. constructor. exact P.
    + exists (x :: y :: l). split; [reflexivity|apply Permutation_refl].
Qed.

Lemma sort_perm l :
  Forall good l -> exists r, sort cmp l = Ok r /\ Permutation l r.
Proof.
  induction l as [|x l IH]; intros Hl.
  - exists []. split; [reflexivity|constructor].
  - inversion Hl as [|? ? Hx Hl']; subst.
    destruct (IH Hl') as [r [E P]]. simpl. rewrite E. simpl.
    destruct (insert_perm x r Hx (Permutation_Forall P Hl')) as [r' [E' P']].
    exists r'. split; [exact E'|].
    transitivity (x :: r); [constructor; exact P|exact P'].
Qed.

End SortTotal.

(** ** Strings and numerals *)

Lemma allChars_app p a b :
  semver.allChars p (a ++ b) = semver.allChars p a && semver.allChars p b.
Proof.
  induction a as [|c a IH]; simpl; [reflexivity|].
  rewrite IH. apply andb_assoc.
Qed.

Lemma allChars_impl (p q : ascii -> bool) s :
  (forall c, p c = true -> q c = true) ->
  semver.allChars p s = true -> semver.allChars q s = true.
Proof.
  intros Hpq. induction s as [|c s IH]; simpl; [reflexivity|].
  intros H. apply andb_true_iff in H. destruct H as [Hc Hs].
  rewrite (Hpq c Hc), (IH Hs). reflexivity.
Qed.

Lemma append_empty_r (s : string) : s ++ "" = s.
Proof. induction s as [|c s IH]; simpl; [reflexivity|now rewrite IH]. Qed.

Lemma trim_id s :
  semver.allChars (fun c => negb (isWhite c)) s = true -> trim s = s.
Proof.
  intros H. unfold trim.
  assert (E : trimStart s = s).
  { destruct s as [|c s]; simpl in *; [reflexivity|].
    apply andb_true_iff in H. destruct H as [Hc _].
    apply negb_true_iff in Hc. now rewrite Hc. }
  rewrite E. clear E.
  induction s as [|c s IH]; simpl in *; [reflexivity|].
  apply andb_true_iff in H. destruct H as [Hc Hs].
  apply negb_true_iff in Hc. rewrite (IH Hs), Hc.
  destruct s; reflexivity.
Qed.

Lemma cut_none sep s :
  semver.allChars (fun c => negb (Ascii.eqb c sep)) s = true ->
  semver.cut sep s = (s, None).
Proof.
  induction s as [|c s IH]; simpl; [reflexivity|].
  intros H. apply andb_true_iff in H. destruct H as [Hc Hs].
  apply negb_true_iff in Hc. rewrite Hc, (IH Hs). reflexivity.
Qed.

Lemma split_single sep s :
  semver.allChars (fun c => negb (Ascii.eqb c sep)) s = true ->
  split sep s = [s].
Proof.
  induction s as [|c s IH]; simpl; [reflexivity|].
  intros H. apply andb_true_iff in H. destruct H as [Hc Hs].
  apply negb_true_iff in Hc. rewrite Hc, (IH Hs). reflexivity.
Qed.

Lemma split_app sep a b :
  semver.allChars (fun c => negb (Ascii.eqb c sep)) a = true ->
  split sep (a ++ String sep b) = a :: split sep b.
Proof.
  induction a as [|c a IH]; simpl.
  - intros _. now rewrite Ascii.eqb_refl.
  - intros H. apply andb_true_iff in H. destruct H as [Hc Hs].
    apply negb_true_iff in Hc. rewrite Hc, (IH Hs). reflexivity.
Qed.

Lemma digit_facts c :
  semver.isDigit c = true ->
  isWhite c = false /\ Ascii.eqb c "." = false /\ Ascii.eqb c "+" = false /\
  Ascii.eqb c "-" = false /\ Ascii.eqb c "v" = false.
Proof.
  destruct c as [[|] [|] [|] [|] [|] [|] [|] [|]];
    intros H; try discriminate H; repeat split; reflexivity.
Qed.

Lemma string_of_uint_digits d :
  semver.allChars semver.isDigit (NilEmpty.string_of_uint d) = true.
Proof. induction d; simpl; auto. Qed.

Lemma showNum_digits n : semver.allChars semver.isDigit (showNum n) = true.
Proof. apply string_of_uint_digits. Qed.

Lemma to_uint_normal n : unorm (N.to_uint n) = N.to_uint n.
Proof.
  rewrite <- (DecimalN.Unsigned.to_of (N.to_uint n)).
  now rewrite DecimalN.Unsigned.of_to.
Qed.

Lemma normal_no_leading_zero d :
  unorm d = d ->
  match NilEmpty.string_of_uint d with
  | EmptyString => False
  | String c s => negb (Ascii.eqb c "0") || String.eqb s "" = true
  end.
Proof.
  destruct d as [|d| | | | | | | | |]; simpl; intros H; try reflexivity.
  - discriminate H.
  - assert (E : d = Nil).
    { rewrite unorm_D0 in H.
      destruct (nzhead d) eqn:En;
        try (rewrite unorm_nzhead in H by (rewrite En; discriminate);
             exfalso; apply (nzhead_nonzero d d); exact H).
      apply unorm_0 in En. rewrite En in H. now injection H. }
    subst d. reflexivity.
Qed.

Lemma digitsValue_showNum n : semver.digitsValue (showNum n) = n.
Proof.
  unfold semver.digitsValue, showNum.
  rewrite NilEmpty.usu. apply DecimalN.Unsigned.of_to.
Qed.

Lemma numericIdentifier_showNum n :
  semver.numericIdentifier (showNum n) = Some n.
Proof.
  unfold semver.numericIdentifier.
  pose proof (showNum_digits n) as Hd.
  pose proof (normal_no_leading_zero _ (to_uint_normal n)) as Hz.
  pose proof (digitsValue_showNum n) as Hv.
  unfold showNum in *.
  destruct (NilEmpty.string_of_uint (N.to_uint n)) as [|c s] eqn:E;
    [contradiction|].
  rewrite Hd, Hz, Hv. reflexivity.
Qed.

Lemma toNumber_small n : (n < 2 ^ 53)%N -> semver.toNumber n = n.
Proof.
  intros H. unfold semver.toNumber.
  destruct (N.ltb_spec n (2 ^ 53)); [reflexivity|lia].
Qed.

Lemma toNumber_succ n :
  (n <= semver.MAX_SAFE_INTEGER)%N -> semver.toNumber (n + 1) = (n + 1)%N.
Proof.
  unfold semver.MAX_SAFE_INTEGER. intros H.
  destruct (N.eq_dec n 9007199254740991) as [->|Hn]; [reflexivity|].
  apply toNumber_small. lia.
Qed.

(** The digits of a numeral bound its value from below. *)
Lemma of_uint_acc_lower d acc :
  (N.pos acc * 10 ^ N.of_nat (nb_digits d) <= N.pos (Pos.of_uint_acc d acc))%N.
Proof.
  revert acc.
  induction d; intros acc; cbn [nb_digits Pos.of_uint_acc];
    try (rewrite Nat2N.inj_succ, N.pow_succ_r';
         etransitivity; [|apply IHd];
         generalize (10 ^ N.of_nat (nb_digits d))%N; intros; nia).
  simpl. lia.
Qed.

Lemma string_of_uint_length d :
  String.length (NilEmpty.string_of_uint d) = nb_digits d.
Proof. induction d; simpl; congruence. Qed.

Lemma to_uint_shape n :
  N.to_uint n = D0 Nil \/
  exists acc d, nb_digits (N.to_uint n) = S (nb_digits d) /\
                N.of_uint (N.to_uint n) = N.pos (Pos.of_uint_acc d acc).
Proof.
  pose proof (to_uint_normal n) as H.
  destruct (N.to_uint n) as [|d|d|d|d|d|d|d|d|d|d] eqn:E.
  - exfalso. destruct n; simpl in E; [discriminate|].
    apply (DecimalPos.Unsigned.to_uint_nonnil _ E).
  - left. f_equal.
    rewrite unorm_D0 in H.
    destruct (nzhead d) eqn:En;
      try (rewrite unorm_nzhead in H by (rewrite En; discriminate);
           exfalso; apply (nzhead_nonzero d d); exact H).
    apply unorm_0 in En. rewrite En in H. now injection H.
  - right. exists 1%positive, d. split; reflexivity.
  - right. exists 2%positive, d. split; reflexivity.
  - right. exists 3%positive, d. split; reflexivity.
  - right. exists 4%positive, d. split; reflexivity.
  - right. exists 5%positive, d. split; reflexivity.
  - right. exists 6%positive, d. split; reflexivity.
  - right. exists 7%positive, d. split; reflexivity.
  - right. exists 8%positive, d. split; reflexivity.
  - right. exists 9%positive, d. split; reflexivity.
Qed.

Lemma showNum_length n k :
  (n < 10 ^ N.of_nat k)%N -> (0 < k)%nat -> (String.length (showNum n) <= k)%nat.
Proof.
  intros Hn Hk. unfold showNum. rewrite string_of_uint_length.
  destruct (to_uint_shape n) as [E|[acc [d [E1 E2]]]].
  - rewrite E. simpl. lia.
  - rewrite E1. rewrite DecimalN.Unsigned.of_to in E2.
    pose proof (of_uint_acc_lower d acc) as L. rewrite <- E2 in L.
    destruct (Nat.le_gt_cases (S (nb_digits d)) k) as [?|G]; [assumption|].
    exfalso.
    assert (P : (10 ^ N.of_nat k <= 10 ^ N.of_nat (nb_digits d))%N).
    { apply N.pow_le_mono_r; lia. }
    nia.
Qed.

Lemma showNum_head n :
  exists c s, showNum n = String c s /\ semver.isDigit c = true.
Proof.
  pose proof (showNum_digits n) as Hd.
  pose proof (normal_no_leading_zero _ (to_uint_normal n)) as Hz.
  unfold showNum in *.
  destruct (NilEmpty.string_of_uint (N.to_uint n)) as [|c s];
    [contradiction|].
  exists c, s. split; [reflexivity|].
  simpl in Hd. apply andb_true_iff in Hd. apply Hd.
Qed.

(** ** The text of a released version reads back *)

Lemma matchFull_release (ma mi pa : N) :
  semver.matchFull (showNum ma ++ "." ++ showNum mi ++ "." ++ showNum pa)
  = Some (semver.mkSemVer (semver.toNumber ma) (semver.toNumber mi)
            (semver.toNumber pa) [] []).
Proof.
  pose proof (showNum_digits ma) as Da. pose proof (showNum_digits mi) as Di.
  pose proof (showNum_digits pa) as Dp.
  assert (Dot : forall sep,
             sep = "+"%char \/ sep = "-"%char ->
             semver.allChars (fun c => negb (Ascii.eqb c sep))
               (showNum ma ++ "." ++ showNum mi ++ "." ++ showNum pa) = true).
  { intros sep Hsep.
    assert (Hd : forall n, semver.allChars (fun c => negb (Ascii.eqb c sep))
                             (showNum n) = true).
    { intros n. apply (allChars_impl semver.isDigit); [|apply showNum_digits].
      intros c Hc. destruct (digit_facts c Hc) as [_ [_ [Hp [Hm _]]]].
      destruct Hsep; subst sep; [now rewrite Hp|now rewrite Hm]. }
    rewrite !allChars_app, !Hd. destruct Hsep; subst sep; reflexivity. }
  assert (NoDot : forall n, semver.allChars (fun c => negb (Ascii.eqb c "."))
                              (showNum n) = true).
  { intros n. apply (allChars_impl semver.isDigit); [|apply showNum_digits].
    intros c Hc. destruct (digit_facts c Hc) as [_ [Hp _]]. now rewrite Hp. }
  unfold semver.matchFull.
  destruct (showNum_head ma) as [c [s [E Hc]]].
  assert (V : match showNum ma ++ "." ++ showNum mi ++ "." ++ showNum pa with
              | String "v" s' => s'
              | _ => showNum ma ++ "." ++ showNum mi ++ "." ++ showNum pa
              end = showNum ma ++ "." ++ showNum mi ++ "." ++ showNum pa).
  { rewrite E. simpl.
    destruct c as [[|] [|] [|] [|] [|] [|] [|] [|]];
      try discriminate Hc; reflexivity. }
  rewrite V.
  rewrite (cut_none "+" _ (Dot _ (or_introl eq_refl))).
  rewrite (cut_none "-" _ (Dot _ (or_intror eq_refl))).
  change ("." ++ showNum mi ++ "." ++ showNum pa)
    with (String "." (showNum mi ++ String "." (showNum pa))).
  rewrite (split_app "." _ _ (NoDot ma)), (split_app "." _ _ (NoDot mi)),
    (split_single "." _ (NoDot pa)).
  simpl. rewrite !numericIdentifier_showNum. reflexivity.
Qed.

Lemma format_release v :
  semver.v_prerelease v = [] ->
  semver.format v
  = showNum (semver.v_major v) ++ "." ++ showNum (semver.v_minor v)
    ++ "." ++ showNum (semver.v_patch v).
Proof.
  intros H. unfold semver.format. rewrite H.
  now rewrite append_empty_r.
Qed.

Lemma release_not_white (ma mi pa : N) :
  semver.allChars (fun c => negb (isWhite c))
    (showNum ma ++ "." ++ showNum mi ++ "." ++ showNum pa) = true.
Proof.
  assert (Hd : forall n, semver.allChars (fun c => negb (isWhite c)) (showNum n) = true).
  { intros n. apply (allChars_impl semver.isDigit); [|apply showNum_digits].
    intros c Hc. destruct (digit_facts c Hc) as [Hw _]. now rewrite Hw. }
  rewrite !allChars_app, !Hd. reflexivity.
Qed.

Lemma length_append (a b : string) :
  String.length (a ++ b) = (String.length a + String.length b)%nat.
Proof. induction a as [|c a IH]; simpl; [reflexivity|now rewrite IH]. Qed.

Lemma toNumber_le n : (n <= 2 ^ 53)%N -> semver.toNumber n = n.
Proof.
  intros H. destruct (N.eq_dec n (2 ^ 53)) as [->|Hn]; [reflexivity|].
  apply toNumber_small. lia.
Qed.

Lemma release_length (ma mi pa : N) :
  (ma <= 2 ^ 53)%N -> (mi <= 2 ^ 53)%N -> (pa <= 2 ^ 53)%N ->
  (semver.MAX_LENGTH <?
   String.length (showNum ma ++ "." ++ showNum mi ++ "." ++ showNum pa))%nat
  = false.
Proof.
  intros Ha Hi Hp. apply Nat.ltb_ge.
  rewrite !length_append.
  assert (L : forall n, (n <= 2 ^ 53)%N -> (String.length (showNum n) <= 16)%nat).
  { intros n Hn. apply showNum_length; [|lia].
    apply N.le_lt_trans with (2 ^ 53)%N; [exact Hn|reflexivity]. }
  pose proof (L ma Ha). pose proof (L mi Hi). pose proof (L pa Hp).
  unfold semver.MAX_LENGTH. simpl String.length. lia.
Qed.

(** [new SemVer(v.version)] for a [v] without pre-release: [v], less its
    build metadata, when its numbers are within range, and a [TypeError]
    otherwise. *)
Lemma construct_format_release v :
  semver.v_prerelease v = [] -> bounded v ->
  semver.construct (semver.Text (semver.format v))
  = if semver.withinRange v
    then Ok (semver.mkSemVer (semver.v_major v) (semver.v_minor v)
               (semver.v_patch v) [] [])
    else Throw (TypeError "semver").
Proof.
  intros H [Ha [Hi Hp]]. rewrite (format_release v H). unfold semver.construct.
  rewrite (release_length _ _ _ Ha Hi Hp).
  rewrite (trim_id _ (release_not_white _ _ _)), matchFull_release.
  rewrite (toNumber_le _ Ha), (toNumber_le _ Hi), (toNumber_le _ Hp).
  reflexivity.
Qed.

(** ** The version decision on valid declared versions *)

Lemma compareN_refl n : semver.compareN n n = 0%Z.
Proof. apply compareN_refl_0. Qed.

Lemma compareN_succ n : semver.compareN (n + 1) n = 1%Z.
Proof.
  unfold semver.compareN.
  replace (N.compare (n + 1) n) with Gt; [reflexivity|].
  symmetry. apply N.compare_gt_iff. lia.
Qed.

Lemma increment_prerelease v r : semver.v_prerelease (semver.increment v r) = [].
Proof. destruct r; reflexivity. Qed.

Lemma withinRange_spec v :
  semver.withinRange v = true <->
  (semver.v_major v <= semver.MAX_SAFE_INTEGER)%N /\
  (semver.v_minor v <= semver.MAX_SAFE_INTEGER)%N /\
  (semver.v_patch v <= semver.MAX_SAFE_INTEGER)%N.
Proof.
  unfold semver.withinRange. rewrite !andb_true_iff, !N.leb_le. tauto.
Qed.

(** The increment of a version within range adds exactly one to a
    component, so its numbers are at most 2^53. *)
Lemma increment_exact v r :
  semver.withinRange v = true ->
  bounded (semver.increment v r) /\
  semver.increment v r
  = match r with
    | semver.Rmajor =>
        semver.mkSemVer
          (if negb (semver.v_minor v =? 0)%N || negb (semver.v_patch v =? 0)%N
              || semver.isNil (semver.v_prerelease v)
           then semver.v_major v + 1 else semver.v_major v)%N 0 0 []
          (semver.v_build v)
    | semver.Rminor =>
        semver.mkSemVer (semver.v_major v)
          (if negb (semver.v_patch v =? 0)%N || semver.isNil (semver.v_prerelease v)
           then semver.v_minor v + 1 else semver.v_minor v)%N 0 []
          (semver.v_build v)
    | semver.Rpatch =>
        semver.mkSemVer (semver.v_major v) (semver.v_minor v)
          (if semver.isNil (semver.v_prerelease v)
           then semver.v_patch v + 1 else semver.v_patch v)%N []
          (semver.v_build v)
    end.
Proof.
  intros H. apply withinRange_spec in H. destruct H as [Ha [Hi Hp]].
  unfold bounded, semver.increment.
  rewrite (toNumber_succ _ Ha), (toNumber_succ _ Hi), (toNumber_succ _ Hp).
  unfold semver.MAX_SAFE_INTEGER in *.
  destruct r; cbn [semver.v_major semver.v_minor semver.v_patch];
    (split; [|reflexivity]);
    repeat match goal with |- context [if ?b then _ else _] => destruct b end;
    change (2 ^ 53)%N with 9007199254740992%N; lia.
Qed.


Lemma parse_construct a v : semver.parse a = Some v -> semver.construct a = Ok v.
Proof.
  unfold semver.parse. destruct (semver.construct a); [|discriminate].
  now intros [= ->].
Qed.

Lemma parse_ofJson_text P p :
  semver.parse (ofJson P) = Some p -> exists s, P = JStr s.
Proof. destruct P; try discriminate. intros _. eauto. Qed.

(** What the package accepts from a text is within range. *)
Lemma parse_text_range s v :
  semver.parse (semver.Text s) = Some v -> semver.withinRange v = true.
Proof.
  unfold semver.parse, semver.construct.
  destruct (semver.MAX_LENGTH <? String.length s)%nat; [discriminate|].
  destruct (semver.matchFull (trim s)) as [u|]; [|discriminate].
  destruct (semver.withinRange u) eqn:E; [|discriminate].
  now intros [= <-].
Qed.

Lemma parse_json_range P p :
  semver.parse (ofJson P) = Some p -> semver.withinRange p = true.
Proof.
  intros H. destruct (parse_ofJson_text P p H) as [s ->].
  apply (parse_text_range s). exact H.
Qed.

Lemma inc_valid P p r :
  semver.parse (ofJson P) = Some p ->
  semver.inc (ofJson P) r = Some (semver.format (semver.increment p r)).
Proof.
  intros H. destruct (parse_ofJson_text P p H) as [s ->].
  apply parse_construct in H. simpl ofJson in *.
  change (semver.inc (semver.Text s) r)
    with (match semver.construct (semver.Text s) with
          | Ok v => Some (semver.format (semver.increment v r))
          | Throw _ => None
          end).
  now rewrite H.
Qed.

Lemma precedence_release c v :
  semver.v_prerelease v = [] ->
  precedence c
    (semver.mkSemVer (semver.v_major v) (semver.v_minor v) (semver.v_patch v) [] [])
  = precedence c v /\
  precedence
    (semver.mkSemVer (semver.v_major v) (semver.v_minor v) (semver.v_patch v) [] [])
    c
  = precedence v c.
Proof.
  intros H. unfold precedence, semver.compareMain, precedencePre. simpl.
  rewrite H. split; reflexivity.
Qed.

Lemma latest_valid bump c :
  semver.v_prerelease bump = [] -> bounded bump ->
  latest (semver.Text (semver.format bump)) (semver.Parsed c)
  = if semver.withinRange bump
    then Ok (if (precedence c bump >? 0)%Z
             then semver.Parsed c
             else semver.Text (semver.format bump))
    else Throw (TypeError "semver").
Proof.
  intros H B. unfold latest. simpl.
  unfold semver.rcompare, semver.compare.
  rewrite (construct_format_release bump H B). simpl.
  destruct (semver.withinRange bump); [|reflexivity]. simpl.
  rewrite (compare_release_right c
             (semver.mkSemVer (semver.v_major bump) (semver.v_minor bump)
                (semver.v_patch bump) [] []) eq_refl).
  rewrite (proj1 (precedence_release c bump H)).
  destruct (precedence c bump >? 0)%Z; reflexivity.
Qed.

(** The decision on two valid declared versions: the greater of the bump
    and [C] when the bump is within the package's range, and the package's
    [TypeError] when it is not. *)
Lemma decide_valid P C p c forwards backwards :
  semver.parse (ofJson P) = Some p ->
  semver.parse (ofJson C) = Some c ->
  decide P C forwards backwards
  = if semver.withinRange (semver.increment p (tableRelease forwards backwards p))
    then Ok (if (precedence c
                   (semver.increment p (tableRelease forwards backwards p)) >? 0)%Z
             then semver.Parsed c
             else semver.Text
                    (semver.format
                       (semver.increment p (tableRelease forwards backwards p))))
    else Throw (TypeError "semver").
Proof.
  intros HP HC. unfold decide, tableRelease.
  pose proof (parse_json_range P p HP) as R.
  rewrite HC. simpl ofParsed.
  unfold semver.major. rewrite (parse_construct _ _ HP). simpl bindR.
  destruct forwards; [destruct backwards|destruct (semver.v_major p =? 0)%N];
    simpl bindR; rewrite (inc_valid P p _ HP); simpl ofText;
    apply latest_valid;
    [apply increment_prerelease|apply (increment_exact p _ R)
    |apply increment_prerelease|apply (increment_exact p _ R)
    |apply increment_prerelease|apply (increment_exact p _ R)
    |apply increment_prerelease|apply (increment_exact p _ R)].
Qed.

Lemma greater_ge a b :
  notLower (greater a b) a /\ notLower (greater a b) b /\
  (greater a b = a \/ greater a b = b).
Proof.
  pose proof order3_precedence as H.
  unfold greater, notLower.
  destruct (Z.gtb_spec (precedence b a) 0) as [G|G].
  - rewrite (order3_refl _ H). repeat split; try lia. now right.
  - rewrite (order3_refl _ H), (o_anti _ H b a). repeat split; try lia. now left.
Qed.

(** A declared version the package does not accept, previous or current,
    makes the decision throw. *)
Lemma construct_invalid a :
  semver.parse a = None -> semver.construct a = Throw (TypeError "semver").
Proof.
  unfold semver.parse, semver.construct.
  destruct a as [s|v|]; try reflexivity; try discriminate.
  destruct (semver.MAX_LENGTH <? String.length s)%nat; [reflexivity|].
  destruct (semver.matchFull (trim s)) as [u|]; [|reflexivity].
  destruct (semver.withinRange u); [discriminate|reflexivity].
Qed.

Lemma inc_invalid P r :
  semver.parse (ofJson P) = None -> semver.inc (ofJson P) r = None.
Proof.
  intros H. unfold semver.inc.
  destruct (ofJson P) as [s|v|] eqn:E.
  - now rewrite (construct_invalid _ H).
  - destruct P; discriminate E.
  - reflexivity.
Qed.

Lemma latest_invalid l r :
  semver.parse l = None \/ semver.parse r = None ->
  latest l r = Throw (TypeError "semver").
Proof.
  intros H. unfold latest. simpl. unfold semver.rcompare, semver.compare.
  destruct (semver.parse r) as [vr|] eqn:Er.
  - destruct H as [H|H]; [|discriminate].
    rewrite (parse_construct _ _ Er), (construct_invalid _ H). reflexivity.
  - rewrite (construct_invalid _ Er). reflexivity.
Qed.

Lemma decide_invalid P C forwards backwards :
  semver.parse (ofJson P) = None \/ semver.parse (ofJson C) = None ->
  decide P C forwards backwards = Throw (TypeError "semver").
Proof.
  intros H. unfold decide.
  destruct (semver.parse (ofJson P)) as [p|] eqn:EP.
  - destruct H as [H|H]; [discriminate|].
    unfold semver.major. rewrite (parse_construct _ _ EP). simpl bindR.
    rewrite H. simpl ofParsed.
    destruct forwards; [destruct backwards|destruct (semver.v_major p =? 0)%N];
      simpl bindR; apply latest_invalid; now right.
  - unfold semver.major. rewrite (construct_invalid _ EP).
    destruct forwards; [destruct backwards|]; simpl bindR;
      try reflexivity;
      rewrite (inc_invalid P _ EP); apply latest_invalid; now left.
Qed.

(** C1, as the code has it.  For valid declared versions [P] (previous) and
    [C] (current) and any oracle outcome, the decision computes the patch
    increment of [P] when both directions fit, the minor increment when
    only the forward direction fits, the minor increment when the forward
    direction fails and the major of [P] is 0, and the major increment when
    it fails and the major is not 0.  While that bump is within the range
    of the package (no number above [Number.MAX_SAFE_INTEGER]), what is
    reported is the greater of the bump and [C] under semantic-version
    order; when the bump leaves the range, the decision throws the
    package's [TypeError] and nothing is reported. *)
Theorem version_decision (P C : json) (p c : semver.SemVer)
  (forwards backwards : bool) :
  semver.parse (ofJson P) = Some p ->
  semver.parse (ofJson C) = Some c ->
  exists bump,
    (forwards = true -> backwards = true ->
       bump = semver.increment p semver.Rpatch) /\
    (forwards = true -> backwards = false ->
       bump = semver.increment p semver.Rminor) /\
    (forwards = false -> semver.v_major p = 0%N ->
       bump = semver.increment p semver.Rminor) /\
    (forwards = false -> semver.v_major p <> 0%N ->
       bump = semver.increment p semver.Rmajor) /\
    semver.inc (ofJson P) (tableRelease forwards backwards p)
    = Some (semver.format bump) /\
    (semver.withinRange bump = true ->
     exists res,
       decide P C forwards backwards = Ok res /\
       semver.toString res = semver.format (greater bump c) /\
       notLower (greater bump c) bump /\
       notLower (greater bump c) c /\
       (greater bump c = bump \/ greater bump c = c)) /\
    (semver.withinRange bump = false ->
     decide P C forwards backwards = Throw (TypeError "semver")).
Proof.
  intros HP HC.
  exists (semver.increment p (tableRelease forwards backwards p)).
  pose proof (decide_valid P C p c forwards backwards HP HC) as Hd.
  repeat split.
  - intros -> ->. reflexivity.
  - intros -> ->. reflexivity.
  - intros -> E. unfold tableRelease. now rewrite E.
  - intros -> E. unfold tableRelease.
    destruct (N.eqb_spec (semver.v_major p) 0); [contradiction|reflexivity].
  - apply (inc_valid P p _ HP).
  - intros R. rewrite R in Hd. eexists. split; [exact Hd|].
    split; [|apply greater_ge].
    unfold greater.
    destruct (precedence c _ >? 0)%Z; reflexivity.
  - intros R. now rewrite R in Hd.
Qed.

Lemma version_decision_witness :
  exists res,
    decide (JStr "0.3.0") (JStr "1.0.1") true false = Ok res /\
    semver.toString res = "1.0.1".
Proof.
  destruct (version_decision (JStr "0.3.0") (JStr "1.0.1")
              (semver.mkSemVer 0 3 0 [] []) (semver.mkSemVer 1 0 1 [] [])
              true false eq_refl eq_refl)
    as [bump [_ [Hminor [_ [_ [_ [Hin _]]]]]]].
  rewrite (Hminor eq_refl eq_refl) in Hin.
  destruct (Hin eq_refl) as [res [Hd [Hs _]]].
  exists res. split; [exact Hd|].
  rewrite Hs. reflexivity.
Defined.

(** C1 as stated fails at the edge of the package's range: the previous
    version [9007199254740991.0.0] is valid, its major increment is
    computed as the text [9007199254740992.0.0], and the decision throws on
    reading it back, so nothing is reported. *)
Lemma version_decision_counterexample :
  semver.parse (ofJson (JStr "9007199254740991.0.0"))
  = Some (semver.mkSemVer 9007199254740991 0 0 [] []) /\
  semver.parse (ofJson (JStr "1.0.0")) = Some (semver.mkSemVer 1 0 0 [] []) /\
  semver.inc (ofJson (JStr "9007199254740991.0.0")) semver.Rmajor
  = Some "9007199254740992.0.0" /\
  (forall backwards,
     decide (JStr "9007199254740991.0.0") (JStr "1.0.0") false backwards
     = Throw (TypeError "semver")).
Proof.
  split; [reflexivity|]. split; [reflexivity|]. split; [reflexivity|].
  intros backwards. reflexivity.
Qed.



(** ** The highest version tag *)

Lemma validTags_In names t :
  In t (validTags names) <->
  In t names /\ semver.parse (semver.Text t) <> None.
Proof.
  unfold validTags. rewrite filter_In. unfold semver.valid.
  destruct (semver.parse (semver.Text t)); simpl; split; intros [H1 H2];
    split; auto; try discriminate; try contradiction.
Qed.

Lemma rcompare_tags a b :
  (exists v, semver.parse (semver.Text a) = Some v) ->
  (exists v, semver.parse (semver.Text b) = Some v) ->
  semver.rcompare (semver.Text a) (semver.Text b)
  = Ok (semver.compareVersions (versionOf b) (versionOf a)).
Proof.
  intros [va Ha] [vb Hb]. unfold semver.rcompare, semver.compare, versionOf.
  rewrite Ha, Hb, (parse_construct _ _ Ha), (parse_construct _ _ Hb).
  reflexivity.
Qed.

Lemma rcompare_safe_tags a b :
  safeTag a -> safeTag b ->
  semver.rcompare (semver.Text a) (semver.Text b)
  = Ok (precedence (versionOf b) (versionOf a)).
Proof.
  intros [Va Sa] [Vb Sb]. rewrite (rcompare_tags a b Va Vb).
  now rewrite (compareVersions_safe _ _ Sb Sa).
Qed.

Lemma validTags_valid names :
  Forall (fun t => exists v, semver.parse (semver.Text t) = Some v)
    (validTags names).
Proof.
  apply Forall_forall. intros t Ht.
  apply validTags_In in Ht. destruct Ht as [_ Ht].
  destruct (semver.parse (semver.Text t)) as [v|]; [eauto|contradiction].
Qed.

(** On names the package accepts the sort does not throw, and what is
    returned is one of them, or [null] when there is none. *)
Lemma highestOf_total tags :
  Forall (fun t => exists v, semver.parse (semver.Text t) = Some v) tags ->
  exists res, highestOf tags = Ok res /\
    (res = None <-> tags = []) /\
    (forall t, res = Some t -> In t tags).
Proof.
  intros Hall.
  destruct (sort_perm
              (fun a b => semver.rcompare (semver.Text a) (semver.Text b))
              (fun t => exists v, semver.parse (semver.Text t) = Some v)
              (fun a b Ha Hb => ex_intro _ _ (rcompare_tags a b Ha Hb))
              tags Hall) as [r [E P]].
  unfold highestOf. rewrite E. simpl. exists (first r). split; [reflexivity|].
  destruct r as [|h r]; simpl.
  - apply Permutation_sym, Permutation_nil in P. subst.
    split; [tauto|discriminate].
  - split.
    + split; [discriminate|]. intros ->.
      apply Permutation_nil in P. discriminate P.
    + intros t [= <-]. apply (Permutation_in h (Permutation_sym P)). now left.
Qed.

Lemma highestOf_safe tags :
  Forall safeTag tags ->
  exists res, highestOf tags = Ok res /\
    match res with
    | Some t => isHighest t tags
    | None => tags = []
    end.
Proof.
  intros Hall.
  destruct (sort_first
              (fun a b => semver.rcompare (semver.Text a) (semver.Text b))
              (fun a b => precedence (versionOf b) (versionOf a))
              safeTag
              (order3_flip _ (order3_on versionOf _ order3_precedence))
              rcompare_safe_tags tags Hall) as [r [E [P F]]].
  unfold highestOf. rewrite E. simpl. exists (first r). split; [reflexivity|].
  destruct (first r) as [h|]; [|exact F].
  destruct F as [Hin Hmax]. split; [exact Hin|].
  rewrite Forall_forall in Hall.
  destruct (Hall h Hin) as [[vh Hh] _]. exists vh. split; [exact Hh|].
  intros t' Ht'. destruct (Hall t' Ht') as [[vt Ht] _]. exists vt.
  split; [exact Ht|].
  specialize (Hmax t' Ht'). unfold versionOf in Hmax.
  rewrite Hh, Ht in Hmax. unfold notLower.
  rewrite (o_anti _ order3_precedence vt vh). lia.
Qed.

Lemma getHighestVersionTag_main root w :
  getHighestVersionTag MainMjs.spawn root w
  = (highestOf (validTags (listedTags w root)),
     [Spawned (mkCommand "git" ["tag"; "--list"] (Some root))]).
Proof.
  unfold getHighestVersionTag, listedTags, MainMjs.spawn, bind, emit, ask, liftR.
  simpl.
  destruct (isZero (code (spawnResult w _))); reflexivity.
Qed.

(** C4, as the code has it.  For every list of tag names,
    [getHighestVersionTag] retains exactly the names the package accepts as
    semantic versions, and returns one of them, or [null] when none is
    retained.  When every numeral among the pre-release identifiers of the
    retained names is below [Number.MAX_SAFE_INTEGER], the name returned is
    a greatest one under semantic-version order. *)
Theorem highest_version_tag (names : list string) :
  (forall t, In t (validTags names) <->
             In t names /\ semver.parse (semver.Text t) <> None) /\
  (exists res, highestOf (validTags names) = Ok res /\
     (res = None <-> validTags names = []) /\
     (forall t, res = Some t -> In t (validTags names)) /\
     (Forall (fun t => safe (versionOf t) = true) (validTags names) ->
      match res with
      | Some t => isHighest t (validTags names)
      | None => validTags names = []
      end)) /\
  (forall w root,
     fst (getHighestVersionTag MainMjs.spawn root w)
     = highestOf (validTags (listedTags w root))).
Proof.
  split; [apply validTags_In|]. split.
  - destruct (highestOf_total _ (validTags_valid names)) as [res [E [N I]]].
    exists res. split; [exact E|]. split; [exact N|]. split; [exact I|].
    intros S.
    assert (Hall : Forall safeTag (validTags names)).
    { pose proof (validTags_valid names) as V.
      rewrite Forall_forall in *. intros t Ht. split; auto. }
    destruct (highestOf_safe _ Hall) as [res' [E' H]].
    rewrite E in E'. injection E' as <-. exact H.
  - intros w root. now rewrite getHighestVersionTag_main.
Qed.

Lemma highest_version_tag_witness :
  exists res,
    highestOf (validTags ["v1.0.0"; "nightly"; "2.1.0-rc.1"; "2.1.0"; "1.9.9"])
    = Ok res /\
    match res with
    | Some t =>
        isHighest t (validTags ["v1.0.0"; "nightly"; "2.1.0-rc.1"; "2.1.0"; "1.9.9"])
    | None => validTags ["v1.0.0"; "nightly"; "2.1.0-rc.1"; "2.1.0"; "1.9.9"] = []
    end.
Proof.
  destruct (proj1 (proj2 (highest_version_tag
                            ["v1.0.0"; "nightly"; "2.1.0-rc.1"; "2.1.0"; "1.9.9"])))
    as [res [E [_ [_ H]]]].
  exists res. split; [exact E|]. apply H.
  repeat constructor.
Defined.

(** C4 as stated fails on numerals from [Number.MAX_SAFE_INTEGER] on: the
    package compares them as doubles, so the two tags below compare equal,
    the first listed is returned, and it is not the greatest under
    semantic-version order. *)
Lemma highest_version_tag_counterexample :
  validTags ["1.0.0-9007199254740992"; "1.0.0-9007199254740993"]
  = ["1.0.0-9007199254740992"; "1.0.0-9007199254740993"] /\
  highestOf (validTags ["1.0.0-9007199254740992"; "1.0.0-9007199254740993"])
  = Ok (Some "1.0.0-9007199254740992") /\
  higher (versionOf "1.0.0-9007199254740993") (versionOf "1.0.0-9007199254740992") /\
  ~ isHighest "1.0.0-9007199254740992"
      (validTags ["1.0.0-9007199254740992"; "1.0.0-9007199254740993"]).
Proof.
  split; [reflexivity|]. split; [reflexivity|]. split; [reflexivity|].
  intros [_ [vt [Hvt H]]].
  destruct (H "1.0.0-9007199254740993" (or_intror (or_introl eq_refl)))
    as [vt' [Hvt' G]].
  injection Hvt as <-. injection Hvt' as <-.
  unfold notLower in G. vm_compute in G. apply G. reflexivity.
Qed.

(** ** Entry points *)

Lemma defaultCompare_sorted l :
  exists r, sort defaultCompare l = Ok r /\ Permutation l r /\
            StronglySorted strLe r.
Proof.
  destruct (sort_sorted defaultCompare compareStr (fun _ => True)
              order3_compareStr (fun x y _ _ => eq_refl) l) as [r [E [P S]]].
  { apply Forall_forall. auto. }
  exists r. repeat split; auto.
  clear E P. induction S as [|a r S IH Ha]; constructor; auto.
  eapply Forall_impl; [|exact Ha]. intros b Hb. unfold strLe.
  unfold compareStr in Hb. destruct (String.compare a b); try discriminate; lia.
Qed.

Lemma index_not_types n : String.eqb "types" (showNum n) = false.
Proof.
  destruct (String.eqb_spec "types" (showNum n)) as [E|]; [|reflexivity].
  pose proof (showNum_digits n) as H. rewrite <- E in H. discriminate H.
Qed.

Lemma hasProperty_types v :
  typeofObject v = true -> isNull v = false ->
  hasProperty "types" v = Ok (declaresTypes v).
Proof.
  destruct v as [| | | |items|members]; try discriminate; intros _ _;
    unfold hasProperty, declaresTypes.
  - f_equal. unfold indices.
    cbn [existsb]. change (String.eqb "types" "length") with false.
    cbn [orb].
    induction (seq 0 (List.length items)) as [|i l IH]; [reflexivity|].
    cbn [map existsb]. now rewrite index_not_types, IH.
  - reflexivity.
Qed.

Lemma filterR_ok {A : Type} (p : A -> Result bool) (q : A -> bool) l :
  (forall x, In x l -> p x = Ok (q x)) -> filterR p l = Ok (filter q l).
Proof.
  induction l as [|x l IH]; intros H; [reflexivity|].
  simpl. rewrite (H x (or_introl eq_refl)). simpl.
  rewrite IH by (intros y Hy; apply H; now right). reflexivity.
Qed.

Lemma declaredEntryPoints_ok m :
  extractable m = true ->
  declaredEntryPoints m
  = Ok ((if declaresTypes m then [""] else []) ++ qualifyingKeys m)%list.
Proof.
  intros H. unfold declaredEntryPoints.
  assert (Hobj : typeofObject m = true /\ isNull m = false)
    by (destruct m; try discriminate H; split; reflexivity).
  rewrite (hasProperty_types m (proj1 Hobj) (proj2 Hobj)). simpl.
  unfold qualifyingKeys, exportMap.
  assert (Hall : forallb (fun kv => negb (isNull (snd kv))) (exportMap m) = true)
    by (destruct m; try discriminate H; exact H).
  unfold exportMap in Hall.
  destruct (getProperty "exports" m) as [exports|e] eqn:E;
    [|destruct m; discriminate].
  simpl.
  rewrite (filterR_ok _ (fun kv => declaresTypes (snd kv))); [reflexivity|].
  intros [k v] Hin. simpl.
  rewrite forallb_forall in Hall. specialize (Hall _ Hin). simpl in Hall.
  destruct (typeofObject v) eqn:Ev.
  - apply hasProperty_types; [exact Ev|]. now apply negb_true_iff in Hall.
  - destruct v; try discriminate Ev; reflexivity.
Qed.

Lemma entryPointsAndVersion_ok m :
  extractable m = true ->
  exists eps v,
    entryPointsAndVersion m = Ok (eps, v) /\
    sort defaultCompare (collected m) = Ok eps /\
    declaredVersion m = Ok v.
Proof.
  intros H. unfold entryPointsAndVersion.
  assert (Hobj : typeofObject m = true)
    by (destruct m; try discriminate H; reflexivity).
  rewrite Hobj, (declaredEntryPoints_ok m H). simpl.
  assert (E : (if (List.length
                     ((if declaresTypes m then [""] else []) ++ qualifyingKeys m)
                   =? 0)%nat
               then (((if declaresTypes m then [""] else []) ++ qualifyingKeys m)
                     ++ [""])%list
               else ((if declaresTypes m then [""] else []) ++ qualifyingKeys m)%list)
              = collected m).
  { unfold collected.
    destruct ((if declaresTypes m then [""] else []) ++ qualifyingKeys m)%list;
      reflexivity. }
  rewrite E.
  destruct (defaultCompare_sorted (collected m)) as [eps [Es _]].
  rewrite Es. simpl.
  assert (exists v, declaredVersion m = Ok v) as [v Ev].
  { unfold declaredVersion. destruct m; try discriminate H; simpl; eauto. }
  rewrite Ev. simpl. exists eps, v. auto.
Qed.

Lemma entryPointsAndVersion_part000_ok m :
  extractable m = true ->
  exists eps v,
    entryPointsAndVersion_part000 m = Ok (eps, v) /\
    sort defaultCompare
      ((if declaresTypes m then [""] else []) ++ qualifyingKeys m)%list = Ok eps.
Proof.
  intros H. unfold entryPointsAndVersion_part000.
  assert (Hobj : typeofObject m = true)
    by (destruct m; try discriminate H; reflexivity).
  rewrite Hobj, (declaredEntryPoints_ok m H). simpl.
  destruct (defaultCompare_sorted
              ((if declaresTypes m then [""] else []) ++ qualifyingKeys m)%list)
    as [eps [Es _]].
  rewrite Es. simpl.
  assert (exists v, declaredVersion m = Ok v) as [v Ev].
  { unfold declaredVersion. destruct m; try discriminate H; simpl; eauto. }
  rewrite Ev. simpl. exists eps, v. auto.
Qed.

Lemma entryPoints_sorted_perm m :
  extractable m = true ->
  exists eps v,
    entryPointsAndVersion m = Ok (eps, v) /\
    Permutation (collected m) eps /\
    StronglySorted strLe eps.
Proof.
  intros H.
  destruct (entryPointsAndVersion_ok m H) as [eps [v [E [Es _]]]].
  destruct (defaultCompare_sorted (collected m)) as [r [Er [P S]]].
  rewrite Es in Er. injection Er as <-.
  exists eps, v. auto.
Qed.

(** C3, as the code has it.  For every manifest that is an object and has
    no [null] value in its export map, the entry-point list of [main.mjs]
    is the sorted arrangement of: the root entry point if the manifest
    declares root types, followed by every export-map key whose value is an
    object declaring types (a concatenation, not a union), or of the root
    entry point alone when there would be none; it is never empty.  The
    revision in [unnamed/part_000] sorts the same names without the
    fall-back. *)
Theorem entry_points_of_manifest (m : json) :
  extractable m = true ->
  (exists eps v,
     entryPointsAndVersion m = Ok (eps, v) /\
     Permutation (collected m) eps /\
     StronglySorted strLe eps /\
     eps <> [] /\
     (qualifyingKeys m = [] -> eps = [""])) /\
  (exists eps v,
     entryPointsAndVersion_part000 m = Ok (eps, v) /\
     Permutation
       ((if declaresTypes m then [""] else []) ++ qualifyingKeys m)%list eps /\
     StronglySorted strLe eps).
Proof.
  intros H. split.
  - destruct (entryPoints_sorted_perm m H) as [eps [v [E [P S]]]].
    exists eps, v. repeat split; auto.
    + intros ->. apply Permutation_sym, Permutation_nil in P.
      unfold collected in P.
      destruct ((if declaresTypes m then [""] else []) ++ qualifyingKeys m)%list;
        discriminate P.
    + intros Hq. unfold collected in P. rewrite Hq in P.
      destruct (declaresTypes m); simpl in P;
        now apply Permutation_length_1_inv in P.
  - destruct (entryPointsAndVersion_part000_ok m H) as [eps [v [E Es]]].
    destruct (defaultCompare_sorted
                ((if declaresTypes m then [""] else []) ++ qualifyingKeys m)%list)
      as [r [Er [P S]]].
    rewrite Es in Er. injection Er as <-.
    exists eps, v. auto.
Qed.

Lemma entry_points_of_manifest_witness :
  exists eps v,
    entryPointsAndVersion
      (JObj [("name", JStr "pkg"); ("types", JStr "./dist/index.d.ts");
             ("exports",
              JObj [("utils", JObj [("types", JStr "./dist/utils.d.ts")]);
                    ("cli", JStr "./dist/cli.js");
                    ("core", JObj [("types", JStr "./dist/core.d.ts")])])])
    = Ok (eps, v) /\
    eps <> [].
Proof.
  destruct (entry_points_of_manifest
              (JObj [("name", JStr "pkg"); ("types", JStr "./dist/index.d.ts");
                     ("exports",
                      JObj [("utils", JObj [("types", JStr "./dist/utils.d.ts")]);
                            ("cli", JStr "./dist/cli.js");
                            ("core", JObj [("types", JStr "./dist/core.d.ts")])])])
              eq_refl) as [[eps [v [E [_ [_ [N _]]]]]] _].
  exists eps, v. split; assumption.
Defined.

(** C3 as stated fails where a root types field meets the export key [""]:
    the list holds the root entry point twice, so it is not the sorted
    union.  (A [null] value in the export map makes extraction throw.) *)
Lemma entry_points_union_counterexample :
  entryPointsAndVersion
    (JObj [("types", JStr "index.d.ts");
           ("exports", JObj [("", JObj [("types", JStr "index.d.ts")])])])
  = Ok ([""; ""], JNull) /\
  entryPointSet
    (JObj [("types", JStr "index.d.ts");
           ("exports", JObj [("", JObj [("types", JStr "index.d.ts")])])])
  = [""] /\
  [""; ""] <> [""] /\
  entryPointsAndVersion (JObj [("exports", JObj [("./internal", JNull)])])
  = Throw (TypeError "in").
Proof.
  repeat split; try reflexivity. discriminate.
Qed.

Lemma NoDup_map_filter {A B : Type} (f : A -> B) (p : A -> bool) l :
  NoDup (map f l) -> NoDup (map f (filter p l)).
Proof.
  induction l as [|x l IH]; simpl; intros H; [constructor|].
  inversion H as [|? ? Hx Hl]; subst.
  destruct (p x); simpl; [constructor|]; auto.
  intros Hin. apply Hx.
  apply in_map_iff in Hin. destruct Hin as [y [<- Hy]].
  apply in_map. apply filter_In in Hy. apply Hy.
Qed.

(** C8, as the code has it.  The entry-point list of every extractable
    manifest (the keys of its export map being distinct, as those of any
    object are) is sorted; it is free of duplicates exactly when the
    manifest does not both declare root types and have the export key [""]
    with an object declaring types (then the root entry point occurs
    twice). *)
Theorem entry_points_sorted (m : json) :
  extractable m = true ->
  distinctKeys (exportMap m) ->
  exists eps v,
    entryPointsAndVersion m = Ok (eps, v) /\
    StronglySorted strLe eps /\
    (NoDup eps <-> ~ (declaresTypes m = true /\ In "" (qualifyingKeys m))).
Proof.
  intros H Hkeys.
  destruct (entryPoints_sorted_perm m H) as [eps [v [E [P S]]]].
  exists eps, v. split; [exact E|]. split; [exact S|].
  assert (Hq : NoDup (qualifyingKeys m))
    by (apply NoDup_map_filter; exact Hkeys).
  assert (Hc : NoDup (collected m) <->
               ~ (declaresTypes m = true /\ In "" (qualifyingKeys m))).
  { unfold collected. destruct (declaresTypes m); simpl.
    - split.
      + intros Hn [_ Hin]. inversion Hn; subst. contradiction.
      + intros Hn. constructor; [|exact Hq]. intros Hin. apply Hn. auto.
    - split; [intros _ [Hf _]; discriminate Hf|]. intros _.
      destruct (qualifyingKeys m); [repeat constructor; auto|exact Hq]. }
  rewrite <- Hc. split; intros Hn.
  - apply (Permutation_NoDup (Permutation_sym P) Hn).
  - apply (Permutation_NoDup P Hn).
Qed.

Lemma entry_points_sorted_witness :
  exists eps v,
    entryPointsAndVersion
      (JObj [("types", JStr "./index.d.ts");
             ("exports",
              JObj [("zeta", JObj [("types", JStr "./zeta.d.ts")]);
                    ("alpha", JObj [("types", JStr "./alpha.d.ts")])])])
    = Ok (eps, v) /\
    StronglySorted strLe eps /\ NoDup eps.
Proof.
  destruct (entry_points_sorted
              (JObj [("types", JStr "./index.d.ts");
                     ("exports",
                      JObj [("zeta", JObj [("types", JStr "./zeta.d.ts")]);
                            ("alpha", JObj [("types", JStr "./alpha.d.ts")])])])
              eq_refl) as [eps [v [E [S N]]]].
  - repeat constructor; simpl; intuition discriminate.
  - exists eps, v. split; [exact E|]. split; [exact S|].
    apply N. intros [_ Hin]. simpl in Hin. intuition discriminate.
Defined.

(** C8 as stated fails: with root types and the export key [""], the list
    holds the root entry point twice. *)
Lemma entry_points_duplicate_counterexample :
  entryPointsAndVersion
    (JObj [("version", JStr "1.0.0"); ("types", JStr "./dist/index.d.ts");
           ("exports",
            JObj [("", JObj [("types", JStr "./dist/index.d.ts")]);
                  ("utils", JObj [("types", JStr "./dist/utils.d.ts")])])])
  = Ok ([""; ""; "utils"], JStr "1.0.0") /\
  ~ NoDup [""; ""; "utils"].
Proof.
  split; [reflexivity|].
  intros H. inversion H as [|? ? Hin _]; subst. apply Hin. now left.
Qed.

(** ** Running the engine *)

Lemma bind_ok {A B : Type} (m : M A) (k : A -> M B) w a l :
  m w = (Ok a, l) -> bind m k w = (fst (k a w), (l ++ snd (k a w))%list).
Proof. intros H. unfold bind. rewrite H. now destruct (k a w). Qed.

Lemma bind_throw {A B : Type} (m : M A) (k : A -> M B) w e l :
  m w = (Throw e, l) -> bind m k w = (Throw e, l).
Proof. intros H. unfold bind. now rewrite H. Qed.

Lemma quiet_app l1 l2 : quiet l1 -> quiet l2 -> quiet (l1 ++ l2).
Proof. unfold quiet. intros H1 H2. apply Forall_app. auto. Qed.

Lemma quiet_nil : quiet [].
Proof. constructor. Qed.

(** The git queries, for any [spawn] that answers as the environment does
    and logs nothing but the child it starts and lines on standard error. *)
Section GitFacts.
Variable spawn : string -> list string -> option string -> M spawned.
Hypothesis spawn_spec : forall c a d w,
  exists l, spawn c a d w = (Ok (spawnResult w (mkCommand c a d)), l) /\
            (isGitQuery (mkCommand c a d) = true -> quiet l).

Lemma getRoot_spec w :
  exists l, getRoot spawn w = (Ok (gitRoot w), l) /\ quiet l.
Proof.
  destruct (spawn_spec "git" ["rev-parse"; "--show-toplevel"] None w)
    as [l [E Q]].
  exists (l ++ [])%list. unfold getRoot. rewrite (bind_ok _ _ _ _ _ E).
  split; [reflexivity|]. apply quiet_app; [now apply Q|apply quiet_nil].
Qed.

Lemma isDirty_spec root w :
  exists l,
    isDirty spawn root w
    = (Ok (negb (isZero (code (statusOf w root))
                 && String.eqb "" (trim (stdout (statusOf w root))))), l) /\
    quiet l.
Proof.
  destruct (spawn_spec "git" ["status"; "--porcelain"] (Some root) w)
    as [l [E Q]].
  exists (l ++ [])%list. unfold isDirty. rewrite (bind_ok _ _ _ _ _ E).
  split; [reflexivity|]. apply quiet_app; [now apply Q|apply quiet_nil].
Qed.

Lemma getHighestVersionTag_spec root w :
  exists l,
    getHighestVersionTag spawn root w
    = (highestOf (validTags (listedTags w root)), l) /\ quiet l.
Proof.
  destruct (spawn_spec "git" ["tag"; "--list"] (Some root) w) as [l [E Q]].
  exists (l ++ [])%list. unfold getHighestVersionTag.
  rewrite (bind_ok _ _ _ _ _ E). split.
  - unfold listedTags, liftR. simpl.
    destruct (isZero (code (spawnResult w _))); reflexivity.
  - apply quiet_app; [now apply Q|apply quiet_nil].
Qed.

Lemma getCurrentBranch_spec root w :
  exists l, getCurrentBranch spawn root w = (Ok (currentBranch w root), l) /\
            quiet l.
Proof.
  destruct (spawn_spec "git" ["branch"; "--show-current"] (Some root) w)
    as [l [E Q]].
  exists (l ++ [])%list. unfold getCurrentBranch.
  rewrite (bind_ok _ _ _ _ _ E).
  split; [reflexivity|]. apply quiet_app; [now apply Q|apply quiet_nil].
Qed.

End GitFacts.

Lemma spawn_main c a d w :
  exists l, MainMjs.spawn c a d w = (Ok (spawnResult w (mkCommand c a d)), l) /\
            (isGitQuery (mkCommand c a d) = true -> quiet l).
Proof.
  exists [Spawned (mkCommand c a d)]. split; [reflexivity|].
  intros H. repeat constructor. exact H.
Qed.

Lemma spawn_part000 c a d w :
  exists l, Part000.spawn c a d w = (Ok (spawnResult w (mkCommand c a d)), l) /\
            (isGitQuery (mkCommand c a d) = true -> quiet l).
Proof.
  eexists. split; [reflexivity|].
  intros H. repeat constructor. exact H.
Qed.

Lemma dirtyGate_main errorOnDirty root w :
  (errorOnDirty = true ->
   isZero (code (statusOf w root)) = true /\
   trim (stdout (statusOf w root)) = "") ->
  exists l,
    (if errorOnDirty then isDirty MainMjs.spawn root else ret false) w
    = (Ok false, l) /\ quiet l.
Proof.
  intros H. destruct errorOnDirty.
  - destruct (isDirty_spec _ spawn_main root w) as [l [E Q]].
    destruct (H eq_refl) as [Hc Ho]. rewrite Hc, Ho in E.
    exists l. split; [exact E|exact Q].
  - exists []. split; [reflexivity|apply quiet_nil].
Qed.

(** C5.  When the repository has no tag that is a semantic version (and the
    run gets as far as looking for one: a git root is found and the
    dirty-tree gate does not fire), [main.mjs] reports exactly [0.1.0], and
    has done nothing but query git: no clone, no packaging, no oracle. *)
Theorem no_previous_tag_reports_initial_version
  (w : World) (root : string) (errorOnDirty errorOnUnreachable : bool) :
  gitRoot w = Some root ->
  (errorOnDirty = true ->
   isZero (code (statusOf w root)) = true /\
   trim (stdout (statusOf w root)) = "") ->
  validTags (listedTags w root) = [] ->
  exists log,
    MainMjs.run errorOnDirty errorOnUnreachable w
    = (MainMjs.Printed ("0.1.0" ++ nl), log) /\
    quiet log.
Proof.
  intros Hroot Hclean Htags.
  destruct (getRoot_spec _ spawn_main w) as [l1 [E1 Q1]].
  destruct (dirtyGate_main errorOnDirty root w Hclean) as [l2 [E2 Q2]].
  destruct (getHighestVersionTag_spec _ spawn_main root w) as [l3 [E3 Q3]].
  rewrite Htags in E3. change (highestOf []) with (@Ok (option string) None) in E3.
  exists (l1 ++ l2 ++ l3 ++ [])%list. split.
  - unfold MainMjs.run, MainMjs.main.
    rewrite (bind_ok _ _ _ _ _ E1), Hroot.
    rewrite (bind_ok _ _ _ _ _ E2).
    rewrite (bind_ok _ _ _ _ _ E3). reflexivity.
  - repeat apply quiet_app; auto. apply quiet_nil.
Qed.

Lemma no_previous_tag_reports_initial_version_witness :
  exists log,
    MainMjs.run true true
      (mkWorld
         (fun c =>
            if String.eqb (nth 0 (args c) "") "rev-parse"
            then mkSpawned (Some 0%Z) ("/repo" ++ nl) ""
            else if String.eqb (nth 0 (args c) "") "tag"
            then mkSpawned (Some 0%Z) ("nightly" ++ nl ++ "stable" ++ nl) ""
            else mkSpawned (Some 0%Z) "" "")
         "/tmp" (fun p => Ok (p ++ "XXXXXX")) (fun _ => Ok tt) (fun _ => true)
         (fun _ => Ok (JObj [])) (fun _ _ => Ok tt))
    = (MainMjs.Printed ("0.1.0" ++ nl), log) /\
    quiet log.
Proof.
  apply (no_previous_tag_reports_initial_version _ "/repo" true true).
  - reflexivity.
  - intros _. split; reflexivity.
  - reflexivity.
Defined.

(** C10.  [isDirty] answers true when the status query prints something,
    and also whenever the status command does not exit with code 0; so with
    error-on-dirty enabled a run aborts, before anything but git queries,
    also when the status query merely fails. *)
Theorem status_failure_is_dirty (w : World) (root : string) :
  (exists d l,
     isDirty MainMjs.spawn root w = (Ok d, l) /\
     (d = true <->
      isZero (code (statusOf w root)) = false \/
      trim (stdout (statusOf w root)) <> "")) /\
  (forall errorOnUnreachable,
     gitRoot w = Some root ->
     isZero (code (statusOf w root)) = false ->
     exists log,
       MainMjs.run true errorOnUnreachable w
       = (MainMjs.Failed (Error "error: dirty working tree"), log) /\
       quiet log).
Proof.
  destruct (isDirty_spec _ spawn_main root w) as [l [E Q]].
  split.
  - eexists. exists l. split; [exact E|].
    destruct (isZero (code (statusOf w root)));
      destruct (String.eqb_spec "" (trim (stdout (statusOf w root)))) as [Ee|Ne];
      simpl.
    + split; [discriminate|]. intros [H|H]; [discriminate|].
      exfalso. apply H. now symmetry.
    + split; [|reflexivity]. intros _. right. intros Ee. apply Ne.
      now symmetry.
    + split; auto.
    + split; auto.
  - intros errorOnUnreachable Hroot Hfail.
    destruct (getRoot_spec _ spawn_main w) as [l1 [E1 Q1]].
    rewrite Hfail in E. simpl in E.
    exists (l1 ++ l ++ [])%list. split.
    + unfold MainMjs.run, MainMjs.main.
      rewrite (bind_ok _ _ _ _ _ E1), Hroot.
      rewrite (bind_ok _ _ _ _ _ E). reflexivity.
    + repeat apply quiet_app; auto. apply quiet_nil.
Qed.

Lemma status_failure_is_dirty_witness :
  exists log,
    MainMjs.run true false
      (mkWorld
         (fun c =>
            if String.eqb (nth 0 (args c) "") "rev-parse"
            then mkSpawned (Some 0%Z) ("/repo" ++ nl) ""
            else mkSpawned (Some 128%Z) "" "fatal: index file corrupt")
         "/tmp" (fun p => Ok (p ++ "XXXXXX")) (fun _ => Ok tt) (fun _ => true)
         (fun _ => Ok (JObj [])) (fun _ _ => Ok tt))
    = (MainMjs.Failed (Error "error: dirty working tree"), log) /\
    quiet log.
Proof.
  apply (proj2 (status_failure_is_dirty _ "/repo") false); reflexivity.
Defined.

(** ** The same-commit exit of [unnamed/part_000] *)

Lemma getRefCommit_spec root ref refType w :
  exists l,
    Part000.getRefCommit root ref refType w
    = (Ok (refCommit w root ref refType), l) /\ quiet l.
Proof.
  destruct (spawn_part000 "git" ["rev-list"; "-1"; refType ++ "s/" ++ ref]
              (Some root) w) as [l [E Q]].
  exists (l ++ [])%list. unfold Part000.getRefCommit.
  rewrite (bind_ok _ _ _ _ _ E).
  split; [reflexivity|]. apply quiet_app; [now apply Q|apply quiet_nil].
Qed.

Lemma dirtyGate_part000 errorOnDirty root w :
  (errorOnDirty = true ->
   isZero (code (statusOf w root)) = true /\
   trim (stdout (statusOf w root)) = "") ->
  exists l,
    (if errorOnDirty then isDirty Part000.spawn root else ret false) w
    = (Ok false, l) /\ quiet l.
Proof.
  intros H. destruct errorOnDirty.
  - destruct (isDirty_spec _ spawn_part000 root w) as [l [E Q]].
    destruct (H eq_refl) as [Hc Ho]. rewrite Hc, Ho in E.
    exists l. split; [exact E|exact Q].
  - exists []. split; [reflexivity|apply quiet_nil].
Qed.

(** C6, as the code has it.  In the revision that has the exit
    ([unnamed/part_000]; [main.mjs] has none), when the highest version tag
    and the current branch resolve to the same commit, the engine reports
    the name of that tag normalised as a semantic version, whatever the
    later stages are, having done nothing but query git: no packaging and
    no comparison, and no manifest is read. *)
Theorem same_commit_reports_previous_tag
  (pipeline : string -> string -> string -> M (json * json * bool * bool))
  (w : World) (root t b h : string) (errorOnDirty errorOnUnreachable : bool) :
  gitRoot w = Some root ->
  (errorOnDirty = true ->
   isZero (code (statusOf w root)) = true /\
   trim (stdout (statusOf w root)) = "") ->
  highestOf (validTags (listedTags w root)) = Ok (Some t) ->
  refCommit w root t "tag" = Some h ->
  currentBranch w root = Some b ->
  refCommit w root b "head" = Some h ->
  exists v log,
    semver.parse (semver.Text t) = Some v /\
    Part000.run pipeline errorOnDirty errorOnUnreachable w
    = (MainMjs.Printed (semver.format v ++ nl), log) /\
    quiet log.
Proof.
  intros Hroot Hclean Htag Hth Hb Hbh.
  destruct (getRoot_spec _ spawn_part000 w) as [l1 [E1 Q1]].
  destruct (dirtyGate_part000 errorOnDirty root w Hclean) as [l2 [E2 Q2]].
  destruct (getHighestVersionTag_spec _ spawn_part000 root w) as [l3 [E3 Q3]].
  destruct (getRefCommit_spec root t "tag" w) as [l4 [E4 Q4]].
  destruct (getCurrentBranch_spec _ spawn_part000 root w) as [l5 [E5 Q5]].
  destruct (getRefCommit_spec root b "head" w) as [l6 [E6 Q6]].
  rewrite Htag in E3.
  destruct (highestOf_total _ (validTags_valid (listedTags w root)))
    as [res [Er [_ Hres]]].
  rewrite Htag in Er. injection Er as <-.
  pose proof (validTags_valid (listedTags w root)) as V.
  rewrite Forall_forall in V.
  destruct (V t (Hres t eq_refl)) as [v Hv].
  exists v, (l1 ++ l2 ++ l3 ++ l4 ++ l5 ++ l6 ++ [])%list. split; [exact Hv|].
  split.
  - unfold Part000.run, Part000.main.
    rewrite (bind_ok _ _ _ _ _ E1), Hroot.
    rewrite (bind_ok _ _ _ _ _ E2).
    rewrite (bind_ok _ _ _ _ _ E3).
    rewrite (bind_ok _ _ _ _ _ E4), Hth.
    rewrite (bind_ok _ _ _ _ _ E5), Hb.
    rewrite (bind_ok _ _ _ _ _ E6), Hbh.
    rewrite String.eqb_refl. unfold semver.valid. rewrite Hv. reflexivity.
  - repeat apply quiet_app; auto. apply quiet_nil.
Qed.

Lemma same_commit_reports_previous_tag_witness :
  exists v log,
    semver.parse (semver.Text "v1.2.3") = Some v /\
    Part000.run MainMjs.liskovSemVerForwardsBackwards true true sameCommitWorld
    = (MainMjs.Printed (semver.format v ++ nl), log) /\
    quiet log.
Proof.
  apply (same_commit_reports_previous_tag _ sameCommitWorld
           "/repo" "v1.2.3" "main" "4f2a9c1" true true).
  - reflexivity.
  - intros _. split; reflexivity.
  - reflexivity.
  - reflexivity.
  - reflexivity.
  - reflexivity.
Defined.

(** C6 as stated fails: at the same commit the revision of
    [unnamed/part_000] reports the tag, [1.2.3], not the version the
    previous artifact declares, [1.0.0]; and [main.mjs], which has no such
    exit, packs both artifacts and reports a patch bump, [1.0.1]. *)
Lemma same_commit_counterexample :
  fst (Part000.run MainMjs.liskovSemVerForwardsBackwards true true sameCommitWorld)
  = MainMjs.Printed ("1.2.3" ++ nl) /\
  artifactVersion sameCommitWorld "/tmp/liskov-semver-k3Jq0x" "previousVersion"
  = Ok (JStr "1.0.0") /\
  MainMjs.Printed ("1.2.3" ++ nl) <> MainMjs.Printed ("1.0.0" ++ nl) /\
  fst (MainMjs.run true true sameCommitWorld) = MainMjs.Printed ("1.0.1" ++ nl).
Proof.
  split; [vm_compute; reflexivity|].
  split; [reflexivity|].
  split; [discriminate|].
  vm_compute. reflexivity.
Qed.

(** ** Witness synthesis *)

Lemma bind_inv_ok {A B : Type} (m : M A) (k : A -> M B) w b l :
  bind m k w = (Ok b, l) ->
  exists a l1 l2, m w = (Ok a, l1) /\ k a w = (Ok b, l2) /\ l = (l1 ++ l2)%list.
Proof.
  unfold bind. destruct (m w) as [[a|e] l1]; [|discriminate].
  destruct (k a w) as [r l2] eqn:Ek. intros [= -> <-].
  exists a, l1, l2. repeat split; auto.
Qed.

Lemma written_app l1 l2 : written (l1 ++ l2) = (written l1 ++ written l2)%list.
Proof.
  induction l1 as [|e l1 IH]; [reflexivity|].
  destruct e; simpl; rewrite IH; reflexivity.
Qed.

Lemma writesNothing_bind {A B : Type} (m : M A) (k : A -> M B) :
  writesNothing m -> (forall a, writesNothing (k a)) -> writesNothing (bind m k).
Proof.
  intros Hm Hk w. unfold bind. specialize (Hm w).
  destruct (m w) as [[a|e] l]; simpl in *; [|exact Hm].
  specialize (Hk a w). destruct (k a w) as [r l']. simpl in *.
  now rewrite written_app, Hm, Hk.
Qed.

Lemma writesNothing_spawn c a d : writesNothing (MainMjs.spawn c a d).
Proof. intros w. reflexivity. Qed.

Lemma writesNothing_stderr t : writesNothing (stderrWrite t).
Proof. intros w. reflexivity. Qed.

Lemma writesNothing_ret {A : Type} (a : A) : writesNothing (ret a).
Proof. intros w. reflexivity. Qed.

Lemma writesNothing_throw {A : Type} e : writesNothing (@throw A e).
Proof. intros w. reflexivity. Qed.

Lemma writesNothing_orThrow step msg :
  writesNothing step -> writesNothing (MainMjs.orThrow step msg).
Proof.
  intros H. apply writesNothing_bind; [exact H|].
  intros [|]; [apply writesNothing_ret|apply writesNothing_throw].
Qed.

Ltac quiet_step :=
  repeat first
    [ apply writesNothing_orThrow
    | apply writesNothing_bind; [|intros]
    | apply writesNothing_spawn
    | apply writesNothing_stderr
    | apply writesNothing_ret
    | apply writesNothing_throw
    | (intros ?; reflexivity) ].

Lemma writesNothing_cloneTo root to ref : writesNothing (MainMjs.cloneTo root to ref).
Proof. unfold MainMjs.cloneTo. quiet_step. Qed.

Lemma writesNothing_install dir : writesNothing (MainMjs.install dir).
Proof. unfold MainMjs.install. quiet_step. Qed.

Lemma writesNothing_rename dir name : writesNothing (MainMjs.rename dir name).
Proof. unfold MainMjs.rename. quiet_step. Qed.

Lemma writesNothing_build dir : writesNothing (MainMjs.build dir).
Proof. unfold MainMjs.build. quiet_step. Qed.

Lemma writesNothing_packTo dir to : writesNothing (MainMjs.packTo dir to).
Proof.
  unfold MainMjs.packTo. quiet_step.
  match goal with
  | |- context [negb (isZero (code ?pack))] =>
      destruct (negb (isZero (code pack)))
  end; quiet_step.
Qed.

Lemma writesNothing_createTgz root base ref name :
  writesNothing (MainMjs.createTgzAndGetEntryPointsAndVersion root base ref name).
Proof.
  unfold MainMjs.createTgzAndGetEntryPointsAndVersion, MainMjs.exists_.
  repeat first
    [ apply writesNothing_cloneTo | apply writesNothing_install
    | apply writesNothing_rename | apply writesNothing_build
    | apply writesNothing_packTo
    | apply writesNothing_orThrow
    | apply writesNothing_bind; [|intros]
    | (intros ?; reflexivity) ].
Qed.

(** What the packaging of an artifact returns is what extraction makes of
    the manifest it reads. *)
Lemma createTgz_result root base ref name w r l :
  MainMjs.createTgzAndGetEntryPointsAndVersion root base ref name w = (Ok r, l) ->
  bindR (readJson w (pathJoin (pathJoin base name) "package.json"))
    entryPointsAndVersion = Ok r.
Proof.
  unfold MainMjs.createTgzAndGetEntryPointsAndVersion. intros H.
  repeat match goal with
         | H : bind _ _ _ = (Ok _, _) |- _ =>
             apply bind_inv_ok in H; destruct H as (? & ? & ? & ? & H & _)
         end.
  match goal with
  | Hr : askR (fun w => readJson w _) _ = (Ok _, _) |- _ =>
      unfold askR in Hr; injection Hr as Hr _; rewrite Hr
  end.
  unfold liftR in H. injection H as H _. exact H.
Qed.

Lemma written_of {A : Type} (m : M A) w r l :
  m w = (r, l) -> written l = written (snd (m w)).
Proof. intros ->. reflexivity. Qed.

Lemma artifactEntryPoints_of w base name eps v :
  bindR (readJson w (pathJoin (pathJoin base name) "package.json"))
    entryPointsAndVersion = Ok (eps, v) ->
  artifactEntryPoints w base name = Ok eps.
Proof.
  unfold artifactEntryPoints.
  destruct (readJson w _) as [m|e]; [|discriminate]. simpl.
  now intros ->.
Qed.

(** The files a successful hydration wrote: the scratch manifest and the two
    witness programs, made of the two artifacts' entry points. *)
Lemma hydrate_written root previousVersion currentVersion base w r log :
  MainMjs.hydrateBaseDirectoryAndGetSemver root previousVersion currentVersion
    base w = (Ok r, log) ->
  exists pe ce,
    artifactEntryPoints w base "previousVersion" = Ok pe /\
    artifactEntryPoints w base "currentVersion" = Ok ce /\
    written log
    = [ (pathJoin base "package.json", scratchManifest);
        (pathJoin base "currentFitsPrevious.ts", currentFitsPrevious pe ce);
        (pathJoin base "previousFitsCurrent.ts", previousFitsCurrent pe ce) ].
Proof.
  unfold MainMjs.hydrateBaseDirectoryAndGetSemver. intros H.
  apply bind_inv_ok in H. destruct H as ([pe pv] & l1 & l1' & H1 & H & ->).
  apply bind_inv_ok in H. destruct H as ([ce cv] & l2 & l2' & H2 & H & ->).
  apply bind_inv_ok in H. destruct H as (u & l3 & l4 & H3 & H4 & ->).
  exists pe, ce.
  split; [apply (artifactEntryPoints_of _ _ _ _ pv), (createTgz_result _ _ _ _ _ _ _ H1)|].
  split; [apply (artifactEntryPoints_of _ _ _ _ cv), (createTgz_result _ _ _ _ _ _ _ H2)|].
  rewrite !written_app.
  rewrite (written_of _ _ _ _ H1), (writesNothing_createTgz _ _ _ _ w).
  rewrite (written_of _ _ _ _ H2), (writesNothing_createTgz _ _ _ _ w).
  rewrite (written_of _ _ _ _ H3).
  rewrite (written_of _ _ _ _ H4).
  assert (W : writesNothing
                (MainMjs.orThrow (MainMjs.install base) "error: failed to install" ;;;
                 ret (pv, cv))).
  { apply writesNothing_bind;
      [apply writesNothing_orThrow, writesNothing_install|].
    intros _. apply writesNothing_ret. }
  rewrite (W w). reflexivity.
Qed.

(** C7.  Witness synthesis is deterministic: in any two runs, whatever the
    repository, the references, the declared versions and the scratch
    directory, if the two artifacts have the same entry-point lists then
    the files written have the same contents, byte for byte; the programs'
    texts are [currentFitsPrevious] and [previousFitsCurrent] of the two
    lists. *)
Theorem witness_synthesis_deterministic
  (w1 w2 : World) (root1 root2 previous1 previous2 current1 current2 : string)
  (base1 base2 : string) (r1 r2 : json * json) (log1 log2 : list event) :
  MainMjs.hydrateBaseDirectoryAndGetSemver root1 previous1 current1 base1 w1
  = (Ok r1, log1) ->
  MainMjs.hydrateBaseDirectoryAndGetSemver root2 previous2 current2 base2 w2
  = (Ok r2, log2) ->
  artifactEntryPoints w1 base1 "previousVersion"
  = artifactEntryPoints w2 base2 "previousVersion" ->
  artifactEntryPoints w1 base1 "currentVersion"
  = artifactEntryPoints w2 base2 "currentVersion" ->
  map snd (written log1) = map snd (written log2) /\
  exists pe ce,
    artifactEntryPoints w1 base1 "previousVersion" = Ok pe /\
    artifactEntryPoints w1 base1 "currentVersion" = Ok ce /\
    In (pathJoin base1 "currentFitsPrevious.ts", currentFitsPrevious pe ce)
      (written log1) /\
    In (pathJoin base1 "previousFitsCurrent.ts", previousFitsCurrent pe ce)
      (written log1) /\
    In (pathJoin base2 "currentFitsPrevious.ts", currentFitsPrevious pe ce)
      (written log2) /\
    In (pathJoin base2 "previousFitsCurrent.ts", previousFitsCurrent pe ce)
      (written log2).
Proof.
  intros H1 H2 Ep Ec.
  destruct (hydrate_written _ _ _ _ _ _ _ H1) as (pe & ce & P1 & C1 & W1).
  destruct (hydrate_written _ _ _ _ _ _ _ H2) as (pe' & ce' & P2 & C2 & W2).
  rewrite P1, P2 in Ep. injection Ep as <-.
  rewrite C1, C2 in Ec. injection Ec as <-.
  rewrite W1, W2. split; [reflexivity|].
  exists pe, ce. simpl. intuition.
Qed.

Lemma witness_synthesis_deterministic_witness :
  map snd
    (written
       (snd (MainMjs.hydrateBaseDirectoryAndGetSemver "/repo" "v1.2.3" "main"
               "/tmp/liskov-semver-k3Jq0x" sameCommitWorld)))
  = map snd
      (written
         (snd (MainMjs.hydrateBaseDirectoryAndGetSemver "/srv/lib" "0.9.0" "dev"
                 "/var/tmp/liskov-semver-Zz81Qp" otherWorld))).
Proof.
  refine (proj1 (witness_synthesis_deterministic
                   sameCommitWorld otherWorld "/repo" "/srv/lib" "v1.2.3" "0.9.0"
                   "main" "dev" "/tmp/liskov-semver-k3Jq0x"
                   "/var/tmp/liskov-semver-Zz81Qp"
                   (JStr "1.0.0", JStr "1.0.0") (JStr "2.5.0", JStr "2.5.0")
                   _ _ _ _ _ _)).
  - vm_compute. reflexivity.
  - vm_compute. reflexivity.
  - reflexivity.
  - reflexivity.
Defined.

(** * Further properties of the code *)

(** ** [latest] *)

Lemma latest_ok l r vl vr :
  semver.parse l = Some vl -> semver.parse r = Some vr ->
  latest l r = Ok (if (semver.compareVersions vr vl >? 0)%Z then r else l).
Proof.
  intros Hl Hr. unfold latest. simpl. unfold semver.rcompare, semver.compare.
  rewrite (parse_construct _ _ Hl), (parse_construct _ _ Hr). simpl.
  destruct (semver.compareVersions vr vl >? 0)%Z; reflexivity.
Qed.

(** X1.  [latest] throws when one of its arguments is not a version; on two
    versions it returns one of its arguments: the right one when the
    package compares it strictly above the left one, and the left one
    otherwise.  The package never compares the result below an argument,
    and after swapping the arguments it compares the two results equal.
    When every numeral among the pre-release identifiers is below
    [Number.MAX_SAFE_INTEGER], that is: the result is the greater of the
    two under semantic-version order, and the same up to precedence after
    a swap. *)
Theorem latest_is_greater (l r : semver.arg) :
  (semver.parse l = None \/ semver.parse r = None ->
   latest l r = Throw (TypeError "semver")) /\
  (forall vl vr,
     semver.parse l = Some vl -> semver.parse r = Some vr ->
     exists v v',
       latest l r = Ok (if (semver.compareVersions vr vl >? 0)%Z then r else l) /\
       bindR (latest l r) semver.construct = Ok v /\
       (semver.compareVersions v vl >= 0)%Z /\
       (semver.compareVersions v vr >= 0)%Z /\
       bindR (latest r l) semver.construct = Ok v' /\
       semver.compareVersions v v' = 0%Z /\
       (safe vl = true -> safe vr = true ->
        notLower v vl /\ notLower v vr /\ sameVersion v v')).
Proof.
  split; [apply latest_invalid|].
  intros vl vr Hl Hr.
  rewrite (latest_ok l r vl vr Hl Hr), (latest_ok r l vr vl Hr Hl).
  pose proof (compareVersions_anti vr vl) as A.
  pose proof (compareVersions_refl vl) as Rl.
  pose proof (compareVersions_refl vr) as Rr.
  assert (S : forall a b v v',
             safe a = true -> safe b = true ->
             (v = a \/ v = b) -> (v' = a \/ v' = b) ->
             (semver.compareVersions v a >= 0)%Z ->
             (semver.compareVersions v b >= 0)%Z ->
             semver.compareVersions v v' = 0%Z ->
             notLower v a /\ notLower v b /\ sameVersion v v').
  { intros a b v v' Sa Sb Hv Hv' G1 G2 G3.
    assert (Sv : safe v = true) by (destruct Hv; subst; assumption).
    assert (Sv' : safe v' = true) by (destruct Hv'; subst; assumption).
    unfold notLower, sameVersion.
    rewrite <- !compareVersions_safe by assumption. auto. }
  destruct (Z.gtb_spec (semver.compareVersions vr vl) 0) as [G|G];
    destruct (Z.gtb_spec (semver.compareVersions vl vr) 0) as [G'|G']; simpl;
    rewrite ?(parse_construct _ _ Hl), ?(parse_construct _ _ Hr);
    try lia.
  - exists vr, vr. repeat split; auto; try lia;
      apply (S vl vr vr vr); auto; lia.
  - exists vl, vl. repeat split; auto; try lia;
      apply (S vl vr vl vl); auto; lia.
  - exists vl, vr. repeat split; auto; try lia;
      apply (S vl vr vl vr); auto; lia.
Qed.

Lemma latest_is_greater_witness :
  exists v v',
    latest (semver.Text "1.4.0") (semver.Text "v1.4.0+build.7")
    = Ok (semver.Text "1.4.0") /\
    bindR (latest (semver.Text "1.4.0") (semver.Text "v1.4.0+build.7"))
      semver.construct = Ok v /\
    bindR (latest (semver.Text "v1.4.0+build.7") (semver.Text "1.4.0"))
      semver.construct = Ok v' /\
    sameVersion v v'.
Proof.
  destruct (proj2 (latest_is_greater (semver.Text "1.4.0")
                     (semver.Text "v1.4.0+build.7"))
              (semver.mkSemVer 1 4 0 [] [])
              (semver.mkSemVer 1 4 0 [] ["build"; "7"]) eq_refl eq_refl)
    as [v [v' [H1 [H2 [_ [_ [H3 [_ H4]]]]]]]].
  exists v, v'. repeat split; try assumption.
  apply (H4 eq_refl eq_refl).
Defined.

(** ** The highest tag does not depend on the order of the tags *)

(** X2.  Two listings with the same tag names, in any order and with any
    repetitions, give highest tags of the same precedence (or none for
    both), when every numeral among the pre-release identifiers of the
    valid names is below [Number.MAX_SAFE_INTEGER]. *)
Theorem highest_tag_order_independent (names names' : list string) :
  (forall t, In t names <-> In t names') ->
  Forall (fun t => safe (versionOf t) = true) (validTags names) ->
  match highestOf (validTags names), highestOf (validTags names') with
  | Ok (Some t), Ok (Some t') => sameVersion (versionOf t) (versionOf t')
  | Ok None, Ok None => True
  | _, _ => False
  end.
Proof.
  intros Hsame Hsafe.
  assert (Hv : forall t, In t (validTags names) <-> In t (validTags names')).
  { intros t. rewrite !validTags_In, Hsame. reflexivity. }
  assert (S : Forall safeTag (validTags names)).
  { pose proof (validTags_valid names) as V.
    rewrite Forall_forall in *. intros t Ht. split; auto. }
  assert (S' : Forall safeTag (validTags names')).
  { rewrite Forall_forall in *. intros t Ht. apply S, Hv, Ht. }
  destruct (highestOf_safe _ S) as [res [E H]].
  destruct (highestOf_safe _ S') as [res' [E' H']].
  rewrite E, E'.
  destruct res as [t|], res' as [t'|]; auto.
  - destruct H as [Hin [vt [Ht Hmax]]]. destruct H' as [Hin' [vt' [Ht' Hmax']]].
    destruct (Hmax' t (proj1 (Hv t) Hin)) as [v1 [Hv1 G1]].
    destruct (Hmax t' (proj2 (Hv t') Hin')) as [v2 [Hv2 G2]].
    rewrite Ht in Hv1. injection Hv1 as <-.
    rewrite Ht' in Hv2. injection Hv2 as <-.
    unfold sameVersion, versionOf. rewrite Ht, Ht'.
    unfold notLower in *.
    rewrite (o_anti _ order3_precedence vt vt') in G1. lia.
  - destruct H as [Hin _]. apply Hv in Hin. rewrite H' in Hin. exact Hin.
  - destruct H' as [Hin _]. apply Hv in Hin. rewrite H in Hin. exact Hin.
Qed.

Lemma highest_tag_order_independent_witness :
  match highestOf (validTags ["1.0.0"; "v2.0.0"; "2.0.0-rc.1"; "2.0.0"; "next"]),
        highestOf (validTags ["2.0.0"; "next"; "v2.0.0"; "2.0.0-rc.1"; "1.0.0";
                              "1.0.0"]) with
  | Ok (Some t), Ok (Some t') => sameVersion (versionOf t) (versionOf t')
  | Ok None, Ok None => True
  | _, _ => False
  end.
Proof.
  apply (highest_tag_order_independent
           ["1.0.0"; "v2.0.0"; "2.0.0-rc.1"; "2.0.0"; "next"]
           ["2.0.0"; "next"; "v2.0.0"; "2.0.0-rc.1"; "1.0.0"; "1.0.0"]).
  - intros t. simpl. intuition.
  - repeat constructor.
Defined.

(** ** More on the version decision *)

(** The version the decision returns, as [semver] reads it: the greater of
    the bump and [C], up to build metadata. *)
Lemma decide_version P C p c forwards backwards :
  semver.parse (ofJson P) = Some p ->
  semver.parse (ofJson C) = Some c ->
  semver.withinRange (semver.increment p (tableRelease forwards backwards p))
  = true ->
  exists rv,
    bindR (decide P C forwards backwards) semver.construct = Ok rv /\
    semver.v_major rv
    = semver.v_major
        (greater (semver.increment p (tableRelease forwards backwards p)) c) /\
    (forall x, precedence rv x
               = precedence
                   (greater (semver.increment p (tableRelease forwards backwards p)) c)
                   x) /\
    (forall x, precedence x rv
               = precedence x
                   (greater (semver.increment p (tableRelease forwards backwards p)) c)).
Proof.
  intros HP HC W. rewrite (decide_valid P C p c forwards backwards HP HC), W.
  pose proof (increment_prerelease p (tableRelease forwards backwards p)) as Hpre.
  pose proof (proj1 (increment_exact p (tableRelease forwards backwards p)
                       (parse_json_range P p HP))) as Hb.
  unfold greater.
  destruct (precedence c
              (semver.increment p (tableRelease forwards backwards p)) >? 0)%Z.
  - exists c. repeat split; reflexivity.
  - unfold bindR. rewrite (construct_format_release _ Hpre Hb), W.
    eexists. split; [reflexivity|]. split; [reflexivity|]. split; intros x.
    + apply (precedence_release x _ Hpre).
    + apply (precedence_release x _ Hpre).
Qed.

(** Outside the package's range the decision returns nothing. *)
Lemma decide_returns P C p forwards backwards rv :
  semver.parse (ofJson P) = Some p ->
  bindR (decide P C forwards backwards) semver.construct = Ok rv ->
  (exists c, semver.parse (ofJson C) = Some c) /\
  semver.withinRange (semver.increment p (tableRelease forwards backwards p))
  = true.
Proof.
  intros HP H.
  destruct (semver.parse (ofJson C)) as [c|] eqn:HC.
  - split; [eauto|].
    rewrite (decide_valid P C p c forwards backwards HP HC) in H.
    destruct (semver.withinRange _); [reflexivity|discriminate H].
  - rewrite (decide_invalid P C forwards backwards (or_intror HC)) in H.
    discriminate H.
Qed.

Lemma increment_mono p :
  semver.withinRange p = true ->
  notLower (semver.increment p semver.Rminor) (semver.increment p semver.Rpatch) /\
  notLower (semver.increment p semver.Rmajor) (semver.increment p semver.Rminor).
Proof.
  intros W.
  rewrite (proj2 (increment_exact p semver.Rpatch W)),
    (proj2 (increment_exact p semver.Rminor W)),
    (proj2 (increment_exact p semver.Rmajor W)).
  destruct p as [ma mi pa pre bld].
  unfold notLower, precedence, semver.compareMain, precedencePre.
  simpl. split.
  - destruct (N.eqb_spec pa 0) as [->|Hpa]; simpl; destruct pre; simpl;
      rewrite ?compareN_refl, ?compareN_succ; unfold semver.orElse; simpl; lia.
  - destruct (N.eqb_spec mi 0) as [->|Hmi]; simpl;
      destruct (N.eqb_spec pa 0) as [->|Hpa]; simpl; destruct pre; simpl;
      rewrite ?compareN_refl, ?compareN_succ; unfold semver.orElse; simpl; lia.
Qed.

Lemma greater_mono x y c :
  notLower x y -> notLower (greater x c) (greater y c).
Proof.
  pose proof order3_precedence as O.
  unfold notLower, greater. intros H.
  pose proof (o_anti _ O c x) as A1.
  pose proof (order3_refl _ O c) as Rc.
  destruct (Z.gtb_spec (precedence c x) 0) as [G|G];
    destruct (Z.gtb_spec (precedence c y) 0) as [G'|G']; try lia.
  destruct (o_trans _ O c x y) as [_ T]; lia.
Qed.

(** With every number of [p] below the bound, every increment of [p] is
    within range. *)
Lemma increment_within p r :
  (semver.v_major p < semver.MAX_SAFE_INTEGER)%N ->
  (semver.v_minor p < semver.MAX_SAFE_INTEGER)%N ->
  (semver.v_patch p < semver.MAX_SAFE_INTEGER)%N ->
  semver.withinRange (semver.increment p r) = true.
Proof.
  intros Ha Hi Hp.
  assert (W : semver.withinRange p = true) by (apply withinRange_spec; lia).
  rewrite (proj2 (increment_exact p r W)).
  apply withinRange_spec. unfold semver.MAX_SAFE_INTEGER in *.
  destruct r; cbn [semver.v_major semver.v_minor semver.v_patch];
    repeat match goal with |- context [if ?b then _ else _] => destruct b end;
    lia.
Qed.

(** X3.  The decision is monotone in the oracle's answers: for the same
    declared versions, whenever versions are returned, a forward fit
    without a backward fit never gives a lower version than a fit in both
    directions, and a forward failure never gives a lower version than a
    forward fit.  Versions are returned in all three cases when no number
    of the previous version is at [Number.MAX_SAFE_INTEGER]. *)
Theorem decision_monotone (P C : json) (p c : semver.SemVer) (backwards : bool) :
  semver.parse (ofJson P) = Some p ->
  semver.parse (ofJson C) = Some c ->
  (forall both forwardOnly broken,
     bindR (decide P C true true) semver.construct = Ok both ->
     bindR (decide P C true false) semver.construct = Ok forwardOnly ->
     bindR (decide P C false backwards) semver.construct = Ok broken ->
     notLower forwardOnly both /\ notLower broken forwardOnly) /\
  ((semver.v_major p < semver.MAX_SAFE_INTEGER)%N ->
   (semver.v_minor p < semver.MAX_SAFE_INTEGER)%N ->
   (semver.v_patch p < semver.MAX_SAFE_INTEGER)%N ->
   exists both forwardOnly broken,
     bindR (decide P C true true) semver.construct = Ok both /\
     bindR (decide P C true false) semver.construct = Ok forwardOnly /\
     bindR (decide P C false backwards) semver.construct = Ok broken).
Proof.
  intros HP HC.
  pose proof (parse_json_range P p HP) as W.
  split.
  - intros v1 v2 v3 H1 H2 H3.
    destruct (decide_returns P C p _ _ _ HP H1) as [_ W1].
    destruct (decide_returns P C p _ _ _ HP H2) as [_ W2].
    destruct (decide_returns P C p _ _ _ HP H3) as [_ W3].
    destruct (decide_version P C p c true true HP HC W1) as [u1 [E1 [_ [L1 R1]]]].
    destruct (decide_version P C p c true false HP HC W2) as [u2 [E2 [_ [L2 R2]]]].
    destruct (decide_version P C p c false backwards HP HC W3)
      as [u3 [E3 [_ [L3 R3]]]].
    rewrite H1 in E1. injection E1 as <-.
    rewrite H2 in E2. injection E2 as <-.
    rewrite H3 in E3. injection E3 as <-.
    split.
    + unfold notLower. rewrite L2, R1. apply greater_mono.
      apply (proj1 (increment_mono p W)).
    + unfold notLower. rewrite L3, R2. apply greater_mono.
      unfold tableRelease.
      destruct (semver.v_major p =? 0)%N.
      * unfold notLower. rewrite (order3_refl _ order3_precedence). lia.
      * apply (proj2 (increment_mono p W)).
  - intros Ha Hi Hp.
    destruct (decide_version P C p c true true HP HC
                (increment_within p _ Ha Hi Hp)) as [u1 [E1 _]].
    destruct (decide_version P C p c true false HP HC
                (increment_within p _ Ha Hi Hp)) as [u2 [E2 _]].
    destruct (decide_version P C p c false backwards HP HC
                (increment_within p _ Ha Hi Hp)) as [u3 [E3 _]].
    exists u1, u2, u3. repeat split; assumption.
Qed.

Lemma decision_monotone_witness :
  exists both forwardOnly broken,
    bindR (decide (JStr "1.2.0-beta.2") (JStr "1.1.9") true true)
      semver.construct = Ok both /\
    bindR (decide (JStr "1.2.0-beta.2") (JStr "1.1.9") true false)
      semver.construct = Ok forwardOnly /\
    bindR (decide (JStr "1.2.0-beta.2") (JStr "1.1.9") false true)
      semver.construct = Ok broken /\
    notLower forwardOnly both /\
    notLower broken forwardOnly.
Proof.
  destruct (decision_monotone (JStr "1.2.0-beta.2") (JStr "1.1.9")
              (semver.mkSemVer 1 2 0 [semver.Alnum "beta"; semver.Num 2] [])
              (semver.mkSemVer 1 1 9 [] []) true eq_refl eq_refl) as [M E].
  destruct (E eq_refl eq_refl eq_refl) as [v1 [v2 [v3 [H1 [H2 H3]]]]].
  destruct (M v1 v2 v3 H1 H2 H3) as [G1 G2].
  exists v1, v2, v3. repeat split; assumption.
Defined.

(** X4.  While the previous declared version has major 0 the decision never
    promotes it: whatever the oracle answers, a returned version has
    major 0 too, unless it is the current declared version itself, bumped
    by hand above the computed bump.  A version is returned whenever the
    current declared version is valid and the bump is within the package's
    range. *)
Theorem prestable_is_never_promoted (P C : json) (p : semver.SemVer)
  (forwards backwards : bool) :
  semver.parse (ofJson P) = Some p ->
  semver.v_major p = 0%N ->
  (forall rv,
     bindR (decide P C forwards backwards) semver.construct = Ok rv ->
     semver.v_major rv = 0%N \/
     exists c,
       semver.parse (ofJson C) = Some c /\
       decide P C forwards backwards = Ok (semver.Parsed c) /\
       (semver.v_major c > 0)%N) /\
  (forall c,
     semver.parse (ofJson C) = Some c ->
     semver.withinRange (semver.increment p (tableRelease forwards backwards p))
     = true ->
     exists rv, bindR (decide P C forwards backwards) semver.construct = Ok rv).
Proof.
  intros HP H0. split.
  - intros rv Hrv.
    destruct (decide_returns P C p _ _ _ HP Hrv) as [[c HC] W].
    destruct (decide_version P C p c forwards backwards HP HC W)
      as [u [E [M _]]].
    rewrite Hrv in E. injection E as <-.
    rewrite M. rewrite (decide_valid P C p c forwards backwards HP HC), W.
    unfold greater.
    destruct (precedence c _ >? 0)%Z.
    + destruct (N.eqb_spec (semver.v_major c) 0) as [Ec|Nc]; [now left|].
      right. exists c. split; [exact HC|]. split; [reflexivity|lia].
    + left. unfold tableRelease. rewrite H0. simpl.
      destruct forwards; [destruct backwards|]; simpl; exact H0.
  - intros c HC W.
    destruct (decide_version P C p c forwards backwards HP HC W) as [u [E _]].
    eauto.
Qed.

Lemma prestable_is_never_promoted_witness :
  exists rv,
    bindR (decide (JStr "0.9.4") (JStr "0.9.4") false false) semver.construct
    = Ok rv /\
    semver.v_major rv = 0%N.
Proof.
  destruct (prestable_is_never_promoted (JStr "0.9.4") (JStr "0.9.4")
              (semver.mkSemVer 0 9 4 [] []) false false eq_refl eq_refl)
    as [H1 H2].
  destruct (H2 (semver.mkSemVer 0 9 4 [] []) eq_refl eq_refl) as [rv E].
  exists rv. split; [exact E|].
  destruct (H1 rv E) as [H|[c [Hc [Hd _]]]]; [exact H|discriminate Hd].
Defined.

(** ** When extraction goes through *)

Lemma filterR_throw {A : Type} (p : A -> Result bool) (e : exn) l :
  (forall x, In x l -> (exists b, p x = Ok b) \/ p x = Throw e) ->
  (exists x, In x l /\ p x = Throw e) ->
  filterR p l = Throw e.
Proof.
  induction l as [|y l IH]; intros Hall [x [Hin Hx]]; [contradiction|].
  simpl. destruct (Hall y (or_introl eq_refl)) as [[b Hb]|Hy].
  - rewrite Hb. simpl. destruct Hin as [->|Hin]; [congruence|].
    rewrite IH; [reflexivity| |eauto].
    intros z Hz. apply Hall. now right.
  - now rewrite Hy.
Qed.

Lemma forallb_false_exists {A : Type} (f : A -> bool) l :
  forallb f l = false -> exists x, In x l /\ f x = false.
Proof.
  induction l as [|y l IH]; simpl; [discriminate|].
  destruct (f y) eqn:Ey; simpl.
  - intros H. destruct (IH H) as [x [Hin Hx]]. eauto.
  - intros _. eauto.
Qed.

Lemma exportMap_null_throws m :
  typeofObject m = true -> extractable m = false ->
  entryPointsAndVersion m = Throw (TypeError "in").
Proof.
  intros Hobj Hext. unfold entryPointsAndVersion. rewrite Hobj.
  cbn [negb].
  destruct (isNull m) eqn:En.
  { destruct m; try discriminate En. reflexivity. }
  assert (Hall : forallb (fun kv => negb (isNull (snd kv))) (exportMap m) = false).
  { destruct m; try discriminate Hobj; try discriminate En; exact Hext. }
  assert (D : declaredEntryPoints m = Throw (TypeError "in")).
  { unfold declaredEntryPoints.
    rewrite (hasProperty_types m Hobj En). cbn [bindR].
    unfold exportMap in Hall.
    destruct (getProperty "exports" m) as [exports|e] eqn:E.
    2:{ destruct m; discriminate. }
    cbn [bindR].
    rewrite (filterR_throw _ (TypeError "in")); [reflexivity| |].
    - intros [k v] _. cbn [snd]. destruct v; cbn; eauto.
    - destruct (forallb_false_exists _ _ Hall) as [[k v] [Hin Hn]].
      exists (k, v). split; [exact Hin|]. cbn [snd] in *.
      destruct v; try discriminate Hn. reflexivity. }
  rewrite D. reflexivity.
Qed.

(** X5.  Extraction goes through exactly on a manifest that is an object or
    an array with no [null] value in its export map.  A manifest of another
    type is refused as malformed; a [null] manifest, or a [null] value in
    the export map, is not refused but makes extraction throw a
    [TypeError]; an array passes as a manifest, with the root entry point
    and no declared version. *)
Theorem extraction_outcome (m : json) :
  (extractable m = true <-> exists r, entryPointsAndVersion m = Ok r) /\
  (typeofObject m = false <->
   entryPointsAndVersion m = Throw (Error "error: malformed package.json")) /\
  (typeofObject m = true /\ extractable m = false <->
   entryPointsAndVersion m = Throw (TypeError "in")) /\
  (forall items, m = JArr items -> entryPointsAndVersion m = Ok ([""], JNull)).
Proof.
  assert (H1 : typeofObject m = false ->
               entryPointsAndVersion m = Throw (Error "error: malformed package.json")).
  { intros H. unfold entryPointsAndVersion. now rewrite H. }
  assert (H2 : extractable m = true -> exists r, entryPointsAndVersion m = Ok r).
  { intros H. destruct (entryPointsAndVersion_ok m H) as [eps [v [E _]]]. eauto. }
  pose proof (exportMap_null_throws m) as H3.
  assert (Hobj : extractable m = true -> typeofObject m = true).
  { destruct m; try discriminate; reflexivity. }
  split; [split|split; [split|split; [split|]]].
  - exact H2.
  - intros [r Hr]. destruct (extractable m) eqn:Ex; [reflexivity|].
    destruct (typeofObject m) eqn:Et.
    + rewrite (H3 eq_refl eq_refl) in Hr. discriminate Hr.
    + rewrite (H1 eq_refl) in Hr. discriminate Hr.
  - exact H1.
  - intros E. destruct (typeofObject m) eqn:Et; [|reflexivity].
    destruct (extractable m) eqn:Ex.
    + destruct (H2 eq_refl) as [r Hr]. congruence.
    + rewrite (H3 eq_refl eq_refl) in E. discriminate E.
  - intros [Et Ex]. apply H3; assumption.
  - intros E. split.
    + destruct (typeofObject m) eqn:Et; [reflexivity|].
      rewrite (H1 eq_refl) in E. discriminate E.
    + destruct (extractable m) eqn:Ex; [|reflexivity].
      destruct (H2 eq_refl) as [r Hr]. congruence.
  - intros items ->.
    destruct (entryPoints_sorted_perm (JArr items) eq_refl) as [eps [v [E [P _]]]].
    assert (Ev : declaredVersion (JArr items) = Ok JNull) by reflexivity.
    destruct (entryPointsAndVersion_ok (JArr items) eq_refl)
      as [eps' [v' [E' [_ Ev']]]].
    rewrite E in E'. injection E' as <- <-.
    rewrite Ev in Ev'. injection Ev' as <-.
    change (collected (JArr items)) with [""] in P.
    apply Permutation_length_1_inv in P. now subst eps.
Qed.

Lemma extraction_outcome_witness :
  exists r,
    entryPointsAndVersion
      (JObj [("exports", JObj [("./internal", JStr "./internal.js");
                               ("api", JObj [("types", JStr "./api.d.ts")])])])
    = Ok r.
Proof.
  exact (proj1 (proj1 (extraction_outcome
                         (JObj [("exports",
                                 JObj [("./internal", JStr "./internal.js");
                                       ("api", JObj [("types", JStr "./api.d.ts")])])])))
           eq_refl).
Defined.

Lemma chars_are_strings s v : In v (chars s) -> exists c, v = JStr c.
Proof.
  unfold chars. intros H. apply in_map_iff in H.
  destruct H as [c [<- _]]. eauto.
Qed.

(** X6.  An export map that is not an object or an array (the string
    shorthand of a manifest with one entry, a number, a boolean) provides
    no entry point: the list is the root entry point alone, whether or not
    the manifest declares root types. *)
Theorem scalar_exports_give_root_only (members : list (string * json)) (e : json) :
  getProperty "exports" (JObj members) = Ok (Some e) ->
  typeofObject e = false ->
  exists v, entryPointsAndVersion (JObj members) = Ok ([""], v).
Proof.
  intros He Ht.
  assert (Hq : forall kv, In kv (exportMap (JObj members)) ->
                          typeofObject (snd kv) = false).
  { unfold exportMap. rewrite He. intros [k v] Hin. simpl.
    destruct e; try discriminate Ht; simpl in Hin; try contradiction.
    apply in_combine_r in Hin. destruct (chars_are_strings _ _ Hin) as [c ->].
    reflexivity. }
  assert (Hext : extractable (JObj members) = true).
  { simpl. apply forallb_forall. intros kv Hin. specialize (Hq kv Hin).
    destruct (snd kv); try discriminate Hq; reflexivity. }
  assert (Hk : qualifyingKeys (JObj members) = []).
  { unfold qualifyingKeys.
    replace (filter (fun kv => declaresTypes (snd kv)) (exportMap (JObj members)))
      with (@nil (string * json)); [reflexivity|].
    symmetry. induction (exportMap (JObj members)) as [|kv l IH]; [reflexivity|].
    simpl. pose proof (Hq kv (or_introl eq_refl)) as Hkv.
    destruct (snd kv); try discriminate Hkv; simpl;
      apply IH; intros kv' Hin; apply Hq; now right. }
  destruct (entryPoints_sorted_perm (JObj members) Hext) as [eps [v [E [P _]]]].
  exists v. rewrite E. f_equal. f_equal.
  unfold collected in P. rewrite Hk in P.
  destruct (declaresTypes (JObj members)); simpl in P;
    now apply Permutation_length_1_inv in P.
Qed.

Lemma scalar_exports_give_root_only_witness :
  exists v,
    entryPointsAndVersion
      (JObj [("version", JStr "3.1.4"); ("exports", JStr "./dist/index.js")])
    = Ok ([""], v).
Proof.
  apply (scalar_exports_give_root_only _ (JStr "./dist/index.js")); reflexivity.
Defined.

(** ** The two revisions of the witness text agree *)

(** X7.  The import template of the documented revision, which leaves the
    slash out for the root entry point, gives the same text as the two
    templates of [main.mjs] for every entry point, so both revisions
    synthesise the same common source. *)
Theorem witness_text_same_in_both_revisions (previous current : list string) :
  (forall role entryPoint,
     Part000Doc.importLine role entryPoint = importLine role entryPoint) /\
  Part000Doc.commonSource previous current = commonSource previous current.
Proof.
  assert (H : forall role entryPoint,
             Part000Doc.importLine role entryPoint = importLine role entryPoint).
  { intros role entryPoint. unfold Part000Doc.importLine, importLine.
    destruct (String.eqb_spec "" entryPoint) as [<-|Hn]; reflexivity. }
  split; [exact H|].
  unfold Part000Doc.commonSource, commonSource.
  rewrite (map_ext _ _ (H "previousVersion")), (map_ext _ _ (H "currentVersion")).
  reflexivity.
Qed.

(** ** Tags and branches ([unnamed/part_001]) *)

Lemma fromSet_In x xs : In x (GitMjs.fromSet xs) <-> In x xs.
Proof.
  induction xs as [|y xs IH]; simpl; [reflexivity|].
  rewrite filter_In, IH. split.
  - intros [H|[H _]]; auto.
  - intros [H|H]; auto.
    destruct (String.eqb_spec x y) as [->|Hn]; [now left|].
    right. split; [exact H|reflexivity].
Qed.

Lemma fromSet_NoDup xs : NoDup (GitMjs.fromSet xs).
Proof.
  induction xs as [|y xs IH]; simpl; constructor.
  - rewrite filter_In. intros [_ H]. now rewrite String.eqb_refl in H.
  - now apply NoDup_filter.
Qed.

Lemma sorted_set xs :
  exists res, sort defaultCompare (GitMjs.fromSet xs) = Ok res /\
    StronglySorted strLe res /\ NoDup res /\ forall x, In x res <-> In x xs.
Proof.
  destruct (defaultCompare_sorted (GitMjs.fromSet xs)) as [res [E [P S]]].
  exists res. split; [exact E|]. split; [exact S|]. split.
  - apply (Permutation_NoDup P), fromSet_NoDup.
  - intros x. split; intros H.
    + apply fromSet_In. apply (Permutation_in x (Permutation_sym P) H).
    + apply (Permutation_in x P). apply fromSet_In. exact H.
Qed.

(** X8.  [getTagsAndBranches] never fails on the names listed; it returns
    every tag name and every branch name, each once even when a tag and a
    branch share a name or a name is listed twice, in sorted order. *)
Theorem tags_and_branches_sorted_unique (tags branches : list string) :
  exists res,
    GitMjs.getTagsAndBranches tags branches = Ok res /\
    StronglySorted strLe res /\
    NoDup res /\
    forall x, In x res <-> In x tags \/ In x branches.
Proof.
  unfold GitMjs.getTagsAndBranches, GitMjs.getTags, GitMjs.getBranches.
  destruct (sorted_set tags) as [t [Et [_ [_ It]]]].
  destruct (sorted_set branches) as [b [Eb [_ [_ Ib]]]].
  rewrite Et, Eb. simpl.
  destruct (sorted_set (t ++ b)) as [res [E [S [N I]]]].
  exists res. repeat split; auto.
  - intros H. apply I, in_app_or in H. rewrite It, Ib in H. exact H.
  - intros H. apply I, in_or_app. rewrite It, Ib. exact H.
Qed.

(** X9.  [isDirty] of [unnamed/part_001] finds the tree clean exactly when
    every row of the status matrix is [1, 1, 1]: the product of the three
    numbers is 1 for no other row. *)
Theorem status_matrix_clean_iff (matrix : list GitMjs.row) :
  GitMjs.isDirty matrix = false <->
  Forall (fun r => GitMjs.head r = 1%N /\ GitMjs.workDir r = 1%N
                   /\ GitMjs.stage r = 1%N) matrix.
Proof.
  unfold GitMjs.isDirty. induction matrix as [|r l IH]; simpl.
  - split; auto.
  - rewrite orb_false_iff, IH, negb_false_iff, N.eqb_eq. split.
    + intros [H Hl]. constructor; [|exact Hl].
      apply N.eq_mul_1 in H. destruct H as [H ->].
      apply N.eq_mul_1 in H. destruct H as [-> ->]. auto.
    + intros H. inversion H as [|? ? [H1 [H2 H3]] Hl]; subst.
      rewrite H1, H2, H3. auto.
Qed.

(** ** The gates of [main] and the scratch directory *)

Lemma dirtyGate_value (errorOnDirty : bool) (root : string) (w : World) :
  exists l,
    (if errorOnDirty then isDirty MainMjs.spawn root else ret false) w
    = (Ok (errorOnDirty && treeDirty w root), l) /\ quiet l.
Proof.
  destruct errorOnDirty.
  - destruct (isDirty_spec _ spawn_main root w) as [l [E Q]].
    exists l. split; [exact E|exact Q].
  - exists []. split; [reflexivity|apply quiet_nil].
Qed.

Lemma reachGate_value (errorOnUnreachable : bool) (root oldRef newRef : string)
  (w : World) :
  exists l,
    (if errorOnUnreachable
     then reachable <- isReachable MainMjs.spawn root oldRef newRef ;;
          ret (negb reachable)
     else ret false) w
    = (Ok (errorOnUnreachable && negb (reachable w root oldRef newRef)), l) /\
    quiet l.
Proof.
  destruct errorOnUnreachable.
  - eexists. split; [reflexivity|]. repeat constructor.
  - exists []. split; [reflexivity|apply quiet_nil].
Qed.

(** What [main] does, gate by gate: the result, and a log that is quiet up
    to the packaging stage. *)
Lemma main_cases (errorOnDirty errorOnUnreachable : bool) (w : World) :
  exists l0, quiet l0 /\
    match gitRoot w with
    | None =>
        MainMjs.main errorOnDirty errorOnUnreachable w
        = (Throw (Error "error: cannot determine git root"), l0)
    | Some root =>
        if errorOnDirty && treeDirty w root
        then MainMjs.main errorOnDirty errorOnUnreachable w
             = (Throw (Error "error: dirty working tree"), l0)
        else
          match highestOf (validTags (listedTags w root)) with
          | Throw e =>
              MainMjs.main errorOnDirty errorOnUnreachable w = (Throw e, l0)
          | Ok None =>
              MainMjs.main errorOnDirty errorOnUnreachable w
              = (Ok (semver.Text "0.1.0"), l0)
          | Ok (Some t) =>
              match currentBranch w root with
              | None =>
                  MainMjs.main errorOnDirty errorOnUnreachable w
                  = (Throw (Error "error: no current version --- detached HEAD?"),
                     l0)
              | Some b =>
                  if errorOnUnreachable && negb (reachable w root t b)
                  then MainMjs.main errorOnDirty errorOnUnreachable w
                       = (Throw (Error
                            "error: current version is not reachable from previous version"),
                          l0)
                  else MainMjs.main errorOnDirty errorOnUnreachable w
                       = (bindR (fst (MainMjs.liskovSemVerForwardsBackwards
                                        root t b w))
                            (fun r =>
                               let '(previousSemVer, currentSemVer, forwards,
                                     backwards) := r in
                               decide previousSemVer currentSemVer forwards
                                 backwards),
                          (l0 ++ snd (MainMjs.liskovSemVerForwardsBackwards
                                        root t b w))%list)
              end
          end
    end.
Proof.
  destruct (getRoot_spec _ spawn_main w) as [l1 [E1 Q1]].
  unfold MainMjs.main. rewrite (bind_ok _ _ _ _ _ E1).
  destruct (gitRoot w) as [root|].
  2:{ exists (l1 ++ [])%list. split; [|reflexivity].
      apply quiet_app; [exact Q1|apply quiet_nil]. }
  destruct (dirtyGate_value errorOnDirty root w) as [l2 [E2 Q2]].
  rewrite (bind_ok _ _ _ _ _ E2).
  destruct (errorOnDirty && treeDirty w root).
  { exists (l1 ++ l2 ++ [])%list. split; [|reflexivity].
    repeat apply quiet_app; auto. apply quiet_nil. }
  destruct (getHighestVersionTag_spec _ spawn_main root w) as [l3 [E3 Q3]].
  destruct (highestOf (validTags (listedTags w root))) as [[t|]|e].
  3:{ rewrite (bind_throw _ _ _ _ _ E3).
      exists (l1 ++ l2 ++ l3)%list. split; [|reflexivity].
      repeat apply quiet_app; auto. }
  2:{ rewrite (bind_ok _ _ _ _ _ E3).
      exists (l1 ++ l2 ++ l3 ++ [])%list. split; [|reflexivity].
      repeat apply quiet_app; auto. apply quiet_nil. }
  rewrite (bind_ok _ _ _ _ _ E3).
  destruct (getCurrentBranch_spec _ spawn_main root w) as [l4 [E4 Q4]].
  rewrite (bind_ok _ _ _ _ _ E4).
  destruct (currentBranch w root) as [b|].
  2:{ exists (l1 ++ l2 ++ l3 ++ l4 ++ [])%list. split; [|reflexivity].
      repeat apply quiet_app; auto. apply quiet_nil. }
  destruct (reachGate_value errorOnUnreachable root t b w) as [l5 [E5 Q5]].
  rewrite (bind_ok _ _ _ _ _ E5).
  destruct (errorOnUnreachable && negb (reachable w root t b)).
  { exists (l1 ++ l2 ++ l3 ++ l4 ++ l5 ++ [])%list. split; [|reflexivity].
    repeat apply quiet_app; auto. apply quiet_nil. }
  exists (l1 ++ l2 ++ l3 ++ l4 ++ l5)%list. split.
  { repeat apply quiet_app; auto. }
  match goal with
  | |- context [bind (MainMjs.liskovSemVerForwardsBackwards root t b) ?k w] =>
      assert (T : bind (MainMjs.liskovSemVerForwardsBackwards root t b) k w
                  = (bindR (fst (MainMjs.liskovSemVerForwardsBackwards root t b w))
                       (fun r =>
                          let '(previousSemVer, currentSemVer, forwards,
                                backwards) := r in
                          decide previousSemVer currentSemVer forwards backwards),
                     snd (MainMjs.liskovSemVerForwardsBackwards root t b w)))
  end.
  { unfold bind.
    destruct (MainMjs.liskovSemVerForwardsBackwards root t b w)
      as [[[[[pv cv] f] bk]|e] l6]; unfold liftR; cbn;
      rewrite ?List.app_nil_r; reflexivity. }
  rewrite T. cbn [fst snd]. repeat rewrite <- List.app_assoc. reflexivity.
Qed.

Lemma tsc_both base w :
  exists lt,
    both (MainMjs.tscOk base "currentFitsPrevious.ts")
      (MainMjs.tscOk base "previousFitsCurrent.ts") w
    = (Ok (succeeded w (cmdTsc base "currentFitsPrevious.ts"),
           succeeded w (cmdTsc base "previousFitsCurrent.ts")), lt) /\
    spawnedCommands lt
    = [cmdTsc base "currentFitsPrevious.ts"; cmdTsc base "previousFitsCurrent.ts"] /\
    written lt = [] /\
    Forall (fun e => negb (isScratchEvent e) = true) lt.
Proof.
  eexists. split; [reflexivity|]. split; [reflexivity|].
  split; [reflexivity|]. repeat constructor.
Qed.

(** [liskovSemVerForwardsBackwards], stage by stage. *)
Lemma liskov_unfold root previousVersion currentVersion w :
  match mkdtempResult w (scratchPrefix w) with
  | Throw e =>
      MainMjs.liskovSemVerForwardsBackwards root previousVersion currentVersion w
      = (Throw e, [Mkdtemp (scratchPrefix w)])
  | Ok base =>
      match MainMjs.hydrateBaseDirectoryAndGetSemver root previousVersion
              currentVersion base w with
      | (Throw e, lh) =>
          MainMjs.liskovSemVerForwardsBackwards root previousVersion
            currentVersion w
          = (Throw e, (Mkdtemp (scratchPrefix w) :: lh ++ [Rm base])%list)
      | (Ok (previousSemVer, currentSemVer), lh) =>
          exists lt,
            MainMjs.liskovSemVerForwardsBackwards root previousVersion
              currentVersion w
            = (Ok (previousSemVer, currentSemVer,
                   succeeded w (cmdTsc base "currentFitsPrevious.ts"),
                   succeeded w (cmdTsc base "previousFitsCurrent.ts")),
               (Mkdtemp (scratchPrefix w) :: lh ++ lt ++ [Rm base])%list) /\
            spawnedCommands lt
            = [cmdTsc base "currentFitsPrevious.ts";
               cmdTsc base "previousFitsCurrent.ts"] /\
            written lt = [] /\
            Forall (fun e => negb (isScratchEvent e) = true) lt
      end
  end.
Proof.
  unfold MainMjs.liskovSemVerForwardsBackwards.
  rewrite (bind_ok _ _ w (tmpdir w) [] eq_refl).
  unfold MainMjs.withTempDir.
  rewrite (bind_ok _ _ w tt [Mkdtemp (pathJoin (tmpdir w) "liskov-semver-")]
             eq_refl).
  fold (scratchPrefix w).
  destruct (mkdtempResult w (scratchPrefix w)) as [base|e] eqn:Em.
  - assert (Ea : askR (fun w0 => mkdtempResult w0 (scratchPrefix w)) w
                 = (Ok base, [])) by (unfold askR; now rewrite Em).
    rewrite (bind_ok _ _ _ _ _ Ea). unfold finally.
    destruct (MainMjs.hydrateBaseDirectoryAndGetSemver root previousVersion
                currentVersion base w) as [[[pv cv]|e] lh] eqn:Eh.
    + destruct (tsc_both base w) as [lt [Et [St [Wt Ft]]]].
      exists lt. split; [|repeat split; assumption].
      rewrite (bind_ok _ _ _ _ _ Eh), (bind_ok _ _ _ _ _ Et).
      cbn. rewrite ?List.app_nil_r, <- ?List.app_assoc. reflexivity.
    + rewrite (bind_throw _ _ _ _ _ Eh). reflexivity.
  - assert (Ea : askR (fun w0 => mkdtempResult w0 (scratchPrefix w)) w
                 = (Throw e, [])) by (unfold askR; now rewrite Em).
    rewrite (bind_throw _ _ _ _ _ Ea). reflexivity.
Qed.

Lemma quiet_no_mkdtemp l p : quiet l -> ~ In (Mkdtemp p) l.
Proof.
  unfold quiet. rewrite Forall_forall. intros H Hin.
  specialize (H _ Hin). discriminate H.
Qed.

Lemma quiet_no_rm l d : quiet l -> ~ In (Rm d) l.
Proof.
  unfold quiet. rewrite Forall_forall. intros H Hin.
  specialize (H _ Hin). discriminate H.
Qed.

(** The log of [main]: quiet, or quiet up to the log of the packaging
    stage. *)
Lemma main_log (errorOnDirty errorOnUnreachable : bool) (w : World) :
  exists l0, quiet l0 /\
    (snd (MainMjs.main errorOnDirty errorOnUnreachable w) = l0 \/
     exists root t b,
       MainMjs.main errorOnDirty errorOnUnreachable w
       = (bindR (fst (MainMjs.liskovSemVerForwardsBackwards root t b w))
            (fun r =>
               let '(previousSemVer, currentSemVer, forwards, backwards) := r in
               decide previousSemVer currentSemVer forwards backwards),
          (l0 ++ snd (MainMjs.liskovSemVerForwardsBackwards root t b w))%list)).
Proof.
  destruct (main_cases errorOnDirty errorOnUnreachable w) as [l0 [Q H]].
  exists l0. split; [exact Q|].
  destruct (gitRoot w) as [root|]; [|left; now rewrite H].
  destruct (errorOnDirty && treeDirty w root); [left; now rewrite H|].
  destruct (highestOf (validTags (listedTags w root))) as [[t|]|e];
    [|left; now rewrite H|left; now rewrite H].
  destruct (currentBranch w root) as [b|]; [|left; now rewrite H].
  destruct (errorOnUnreachable && negb (reachable w root t b));
    [left; now rewrite H|].
  right. exists root, t, b. exact H.
Qed.

(** ** Events a stage never produces *)

Lemma logsOnly_bind {A B : Type} ok (m : M A) (k : A -> M B) :
  logsOnly ok m -> (forall a, logsOnly ok (k a)) -> logsOnly ok (bind m k).
Proof.
  intros Hm Hk w. unfold bind. specialize (Hm w).
  destruct (m w) as [[a|e] l]; simpl in *; [|exact Hm].
  specialize (Hk a w). destruct (k a w) as [r l']. simpl in *.
  apply Forall_app. auto.
Qed.

Lemma logsOnly_both {A B : Type} ok (m1 : M A) (m2 : M B) :
  logsOnly ok m1 -> logsOnly ok m2 -> logsOnly ok (both m1 m2).
Proof.
  intros H1 H2 w. unfold both. specialize (H1 w). specialize (H2 w).
  destruct (m1 w) as [r1 l1], (m2 w) as [r2 l2]. simpl in *.
  apply Forall_app. auto.
Qed.

Lemma logsOnly_emit ok e : ok e = true -> logsOnly ok (emit e).
Proof. intros H w. repeat constructor. exact H. Qed.

Lemma logsOnly_silent {A : Type} ok (m : M A) :
  (forall w, snd (m w) = []) -> logsOnly ok m.
Proof. intros H w. rewrite H. constructor. Qed.

Lemma logsOnly_orThrow ok step msg :
  logsOnly ok step -> logsOnly ok (MainMjs.orThrow step msg).
Proof.
  intros H. apply logsOnly_bind; [exact H|].
  intros [|]; apply logsOnly_silent; reflexivity.
Qed.

Ltac logs_step :=
  repeat first
    [ apply logsOnly_orThrow
    | apply logsOnly_both
    | apply logsOnly_bind; [|intros]
    | apply logsOnly_emit; reflexivity
    | apply logsOnly_silent; intros; reflexivity
    | match goal with
      | |- logsOnly _ (if ?c then _ else _) => destruct c
      | |- logsOnly _ (let (_, _) := ?p in _) => destruct p
      end ].

Lemma hydrate_no_scratch_event root previousVersion currentVersion base :
  logsOnly (fun e => negb (isScratchEvent e))
    (MainMjs.hydrateBaseDirectoryAndGetSemver root previousVersion currentVersion
       base).
Proof.
  unfold MainMjs.hydrateBaseDirectoryAndGetSemver,
    MainMjs.createTgzAndGetEntryPointsAndVersion, MainMjs.cloneTo, MainMjs.exists_,
    MainMjs.rename, MainMjs.install, MainMjs.build, MainMjs.packTo,
    MainMjs.writeFile, MainMjs.spawn, stderrWrite.
  logs_step.
Qed.

(** The log of the packaging stage: the creation of the scratch directory,
    then events that touch no scratch directory, then its removal. *)
Lemma liskov_log root previousVersion currentVersion w :
  match mkdtempResult w (scratchPrefix w) with
  | Throw e =>
      MainMjs.liskovSemVerForwardsBackwards root previousVersion currentVersion w
      = (Throw e, [Mkdtemp (scratchPrefix w)])
  | Ok base =>
      exists body,
        Forall (fun e => negb (isScratchEvent e) = true) body /\
        snd (MainMjs.liskovSemVerForwardsBackwards root previousVersion
               currentVersion w)
        = (Mkdtemp (scratchPrefix w) :: body ++ [Rm base])%list
  end.
Proof.
  pose proof (liskov_unfold root previousVersion currentVersion w) as U.
  destruct (mkdtempResult w (scratchPrefix w)) as [base|e]; [|exact U].
  pose proof (hydrate_no_scratch_event root previousVersion currentVersion base w)
    as Hh.
  destruct (MainMjs.hydrateBaseDirectoryAndGetSemver root previousVersion
              currentVersion base w) as [[[pv cv]|e] lh]; cbn [snd] in Hh.
  - destruct U as [lt [U [_ [_ Ft]]]].
    exists (lh ++ lt)%list. split.
    + apply Forall_app. split; assumption.
    + rewrite U. cbn [snd]. now rewrite <- List.app_assoc.
  - exists lh. split; [exact Hh|]. now rewrite U.
Qed.

Lemma body_no_mkdtemp body p :
  Forall (fun e => negb (isScratchEvent e) = true) body -> ~ In (Mkdtemp p) body.
Proof.
  rewrite Forall_forall. intros H Hin. specialize (H _ Hin). discriminate H.
Qed.

Lemma body_no_rm body d :
  Forall (fun e => negb (isScratchEvent e) = true) body -> ~ In (Rm d) body.
Proof.
  rewrite Forall_forall. intros H Hin. specialize (H _ Hin). discriminate H.
Qed.

(** X10.  In a run of [main] whose child processes all close with an exit
    code (so that [spawn] resolves each time and node is not ended by a
    program that cannot be started), a scratch directory that is created
    is created under the system's temporary directory, and the run removes
    it, and nothing else, whether the packaging, the installation or the
    oracle went through or threw; when the run returns a version, the
    removal is its last action.  When the creation itself fails, the
    failure is the run's and nothing is removed. *)
Theorem scratch_directory_always_removed
  (errorOnDirty errorOnUnreachable : bool) (w : World) (prefix : string) :
  In (Mkdtemp prefix) (snd (MainMjs.main errorOnDirty errorOnUnreachable w)) ->
  closed w (snd (MainMjs.main errorOnDirty errorOnUnreachable w)) ->
  prefix = scratchPrefix w /\
  match mkdtempResult w prefix with
  | Ok base =>
      In (Rm base) (snd (MainMjs.main errorOnDirty errorOnUnreachable w)) /\
      (forall d,
         In (Rm d) (snd (MainMjs.main errorOnDirty errorOnUnreachable w)) ->
         d = base) /\
      (forall res,
         fst (MainMjs.main errorOnDirty errorOnUnreachable w) = Ok res ->
         exists l,
           snd (MainMjs.main errorOnDirty errorOnUnreachable w)
           = (l ++ [Rm base])%list)
  | Throw e =>
      fst (MainMjs.main errorOnDirty errorOnUnreachable w) = Throw e /\
      forall d, ~ In (Rm d) (snd (MainMjs.main errorOnDirty errorOnUnreachable w))
  end.
Proof.
  intros Hin _.
  destruct (main_log errorOnDirty errorOnUnreachable w) as [l0 [Q [H|H]]].
  - rewrite H in Hin. exfalso. exact (quiet_no_mkdtemp _ _ Q Hin).
  - destruct H as [root [t [b H]]]. rewrite H in *. cbn [fst snd] in *.
    apply in_app_or in Hin.
    destruct Hin as [Hin|Hin]; [exfalso; exact (quiet_no_mkdtemp _ _ Q Hin)|].
    pose proof (liskov_log root t b w) as U.
    destruct (mkdtempResult w (scratchPrefix w)) as [base|e] eqn:Em.
    + destruct U as [body [Fb U]]. rewrite U in *.
      assert (Hp : prefix = scratchPrefix w).
      { destruct Hin as [Hin|Hin]; [congruence|].
        exfalso. apply in_app_or in Hin.
        destruct Hin as [Hin|[Hin|[]]];
          [exact (body_no_mkdtemp _ _ Fb Hin)|discriminate Hin]. }
      split; [exact Hp|]. rewrite Hp, Em. split; [|split].
      * apply in_or_app. right. right. apply in_or_app. right. now left.
      * intros d Hd. apply in_app_or in Hd.
        destruct Hd as [Hd|[Hd|Hd]];
          [exfalso; exact (quiet_no_rm _ _ Q Hd)|discriminate Hd|].
        apply in_app_or in Hd.
        destruct Hd as [Hd|[Hd|[]]];
          [exfalso; exact (body_no_rm _ _ Fb Hd)|congruence].
      * intros res _.
        exists (l0 ++ Mkdtemp (scratchPrefix w) :: body)%list.
        rewrite <- List.app_assoc. reflexivity.
    + rewrite U in *. cbn [fst snd] in *.
      assert (Hp : prefix = scratchPrefix w)
        by (destruct Hin as [Hin|[]]; congruence).
      split; [exact Hp|]. rewrite Hp, Em. split; [reflexivity|].
      intros d Hd. apply in_app_or in Hd.
      destruct Hd as [Hd|[Hd|[]]];
        [exact (quiet_no_rm _ _ Q Hd)|discriminate Hd].
Qed.

Lemma scratch_directory_always_removed_witness :
  exists l,
    snd (MainMjs.main true true sameCommitWorld)
    = (l ++ [Rm "/tmp/liskov-semver-k3Jq0x"])%list.
Proof.
  assert (H : In (Mkdtemp "/tmp/liskov-semver-")
                (snd (MainMjs.main true true sameCommitWorld))).
  { vm_compute. repeat (first [left; reflexivity | right]). }
  assert (C : closed sameCommitWorld (snd (MainMjs.main true true sameCommitWorld))).
  { unfold closed. vm_compute. repeat constructor; discriminate. }
  destruct (proj2 (scratch_directory_always_removed true true sameCommitWorld
                     "/tmp/liskov-semver-" H C)) as [_ [_ L]].
  apply (L (semver.Text "1.0.1")). vm_compute. reflexivity.
Defined.

(** ** Packaging one artifact *)

Lemma orThrow_inv step msg w u l :
  MainMjs.orThrow step msg w = (Ok u, l) -> fst (step w) = Ok true.
Proof.
  unfold MainMjs.orThrow. intros H.
  apply bind_inv_ok in H. destruct H as (a & l1 & l2 & Hs & Hk & _).
  rewrite Hs. destruct a; [reflexivity|discriminate Hk].
Qed.

Lemma orThrow_fail step msg w l :
  step w = (Ok false, l) ->
  MainMjs.orThrow step msg w = (Throw (Error msg), l).
Proof.
  intros H. unfold MainMjs.orThrow. rewrite (bind_ok _ _ _ _ _ H).
  cbn. now rewrite List.app_nil_r.
Qed.

Lemma orThrow_pass step msg w l :
  step w = (Ok true, l) -> MainMjs.orThrow step msg w = (Ok tt, l).
Proof.
  intros H. unfold MainMjs.orThrow. rewrite (bind_ok _ _ _ _ _ H).
  cbn. now rewrite List.app_nil_r.
Qed.

Lemma packTo_value dir to w :
  fst (MainMjs.packTo dir to w)
  = Ok (succeeded w (cmdPnpm ["pack"] dir) &&
        succeeded w
          (cmdMv (pathJoin dir (trim (stdout (spawnResult w (cmdPnpm ["pack"] dir)))))
             to)).
Proof.
  unfold MainMjs.packTo, MainMjs.spawn, stderrWrite, succeeded, cmdPnpm, cmdMv.
  cbn. destruct (isZero (code (spawnResult w _))); reflexivity.
Qed.

(** X11.  [packTo] answers true exactly when both the pack and the move
    exit with code 0, and when the pack fails the move is not attempted. *)
Theorem pack_then_move (dir to : string) (w : World) :
  fst (MainMjs.packTo dir to w)
  = Ok (succeeded w (cmdPnpm ["pack"] dir) &&
        succeeded w
          (cmdMv (pathJoin dir (trim (stdout (spawnResult w (cmdPnpm ["pack"] dir)))))
             to)) /\
  spawnedCommands (snd (MainMjs.packTo dir to w))
  = if succeeded w (cmdPnpm ["pack"] dir)
    then [cmdPnpm ["pack"] dir;
          cmdMv (pathJoin dir (trim (stdout (spawnResult w (cmdPnpm ["pack"] dir)))))
            to]
    else [cmdPnpm ["pack"] dir].
Proof.
  split; [apply packTo_value|].
  unfold MainMjs.packTo, MainMjs.spawn, stderrWrite, succeeded, cmdPnpm, cmdMv.
  cbn. destruct (isZero (code (spawnResult w _))); reflexivity.
Qed.

(** X12.  An artifact is returned only if every stage went through: the
    directory was made, the clone, the rename, the install, the build, the
    pack and the move all exited with code 0, and a [package.json] was
    found after cloning. *)
Theorem packaging_needs_every_stage
  (root base ref name : string) (w : World) (r : list string * json)
  (l : list event) :
  MainMjs.createTgzAndGetEntryPointsAndVersion root base ref name w = (Ok r, l) ->
  mkdirResult w (pathJoin base name) = Ok tt /\
  succeeded w (cmdClone root (pathJoin base name) ref) = true /\
  accessible w (pathJoin (pathJoin base name) "package.json") = true /\
  succeeded w (cmdPnpm ["pkg"; "set"; "name=" ++ name] (pathJoin base name)) = true /\
  succeeded w (cmdPnpm ["install"] (pathJoin base name)) = true /\
  succeeded w (cmdPnpm ["run"; "build"] (pathJoin base name)) = true /\
  succeeded w (cmdPnpm ["pack"] (pathJoin base name)) = true /\
  succeeded w
    (cmdMv (pathJoin (pathJoin base name)
              (trim (stdout (spawnResult w (cmdPnpm ["pack"] (pathJoin base name))))))
       (pathJoin base (name ++ ".tgz"))) = true.
Proof.
  unfold MainMjs.createTgzAndGetEntryPointsAndVersion. intros H.
  apply bind_inv_ok in H. destruct H as (? & ? & ? & _ & H & _).
  apply bind_inv_ok in H. destruct H as ([] & ? & ? & Hmk & H & _).
  apply bind_inv_ok in H. destruct H as (? & ? & ? & Hclone & H & _).
  apply bind_inv_ok in H. destruct H as (? & ? & ? & Hpkg & H & _).
  apply bind_inv_ok in H. destruct H as (? & ? & ? & Hren & H & _).
  apply bind_inv_ok in H. destruct H as (? & ? & ? & Hins & H & _).
  apply bind_inv_ok in H. destruct H as (? & ? & ? & Hbld & H & _).
  apply bind_inv_ok in H. destruct H as (? & ? & ? & Hpack & _ & _).
  apply orThrow_inv in Hclone, Hpkg, Hren, Hins, Hbld, Hpack.
  rewrite packTo_value in Hpack. injection Hpack as Hpack.
  apply andb_true_iff in Hpack. destruct Hpack as [Hp Hm].
  unfold askR in Hmk. injection Hmk as Hmk _.
  injection Hclone as Hclone. injection Hpkg as Hpkg. injection Hren as Hren.
  injection Hins as Hins. injection Hbld as Hbld.
  repeat split; assumption.
Qed.

Lemma packaging_needs_every_stage_witness :
  succeeded sameCommitWorld
    (cmdPnpm ["run"; "build"] (pathJoin "/tmp/liskov-semver-k3Jq0x" "previousVersion"))
  = true.
Proof.
  refine (proj1 (proj2 (proj2 (proj2 (proj2 (proj2
            (packaging_needs_every_stage "/repo" "/tmp/liskov-semver-k3Jq0x"
               "v1.2.3" "previousVersion" sameCommitWorld
               ([""], JStr "1.0.0") _ _))))))).
  vm_compute. reflexivity.
Defined.

Lemma spawnedCommands_app l1 l2 :
  spawnedCommands (l1 ++ l2) = (spawnedCommands l1 ++ spawnedCommands l2)%list.
Proof.
  induction l1 as [|e l1 IH]; [reflexivity|].
  destruct e; simpl; rewrite IH; reflexivity.
Qed.

(** X13.  Packaging stops at the first stage that fails: when the clone
    exits with a code other than 0 the failure is "failed to clone", and
    when the clone leaves no [package.json] it is "no package.json found";
    in both cases no package-manager command was started. *)
Theorem failed_clone_stops_packaging (root base ref name : string) (w : World) :
  mkdirResult w (pathJoin base name) = Ok tt ->
  (succeeded w (cmdClone root (pathJoin base name) ref) = false ->
   exists l,
     MainMjs.createTgzAndGetEntryPointsAndVersion root base ref name w
     = (Throw (Error "error: failed to clone to temporary directory"), l) /\
     spawnedCommands l = [cmdClone root (pathJoin base name) ref]) /\
  (succeeded w (cmdClone root (pathJoin base name) ref) = true ->
   accessible w (pathJoin (pathJoin base name) "package.json") = false ->
   exists l,
     MainMjs.createTgzAndGetEntryPointsAndVersion root base ref name w
     = (Throw (Error "error: no package.json found after cloning"), l) /\
     spawnedCommands l = [cmdClone root (pathJoin base name) ref]).
Proof.
  intros Hmk.
  assert (Em : askR (fun w0 => mkdirResult w0 (pathJoin base name)) w = (Ok tt, []))
    by (unfold askR; now rewrite Hmk).
  destruct (MainMjs.cloneTo root (pathJoin base name) ref w) as [rc lc] eqn:Ec.
  assert (Hv : fst (MainMjs.cloneTo root (pathJoin base name) ref w)
               = Ok (succeeded w (cmdClone root (pathJoin base name) ref)))
    by reflexivity.
  assert (Hs : spawnedCommands (snd (MainMjs.cloneTo root (pathJoin base name) ref w))
               = [cmdClone root (pathJoin base name) ref]) by reflexivity.
  rewrite Ec in Hv, Hs. cbn [fst snd] in Hv, Hs. subst rc.
  unfold MainMjs.createTgzAndGetEntryPointsAndVersion.
  rewrite (bind_ok _ _ w tt [Mkdir (pathJoin base name)] eq_refl).
  rewrite (bind_ok _ _ _ _ _ Em).
  split.
  - intros Hf. rewrite Hf in Ec.
    rewrite (bind_throw _ _ _ _ _ (orThrow_fail _ _ _ _ Ec)).
    eexists. split; [reflexivity|]. exact Hs.
  - intros Ht Ha. rewrite Ht in Ec.
    rewrite (bind_ok _ _ _ _ _ (orThrow_pass _ _ _ _ Ec)).
    assert (Ee : MainMjs.exists_ (pathJoin (pathJoin base name) "package.json") w
                 = (Ok false, [Access (pathJoin (pathJoin base name) "package.json")])).
    { unfold MainMjs.exists_, bind, emit, ask. cbn. now rewrite Ha. }
    rewrite (bind_throw _ _ _ _ _ (orThrow_fail _ _ _ _ Ee)).
    eexists. split; [reflexivity|].
    cbn [fst snd]. rewrite !spawnedCommands_app, Hs. reflexivity.
Qed.

Lemma failed_clone_stops_packaging_witness :
  exists l,
    MainMjs.createTgzAndGetEntryPointsAndVersion "/repo" "/tmp/liskov-semver-k3Jq0x"
      "v1.2.3" "previousVersion" cloneFailsWorld
    = (Throw (Error "error: failed to clone to temporary directory"), l) /\
    spawnedCommands l
    = [cmdClone "/repo" (pathJoin "/tmp/liskov-semver-k3Jq0x" "previousVersion")
         "v1.2.3"].
Proof.
  apply (proj1 (failed_clone_stops_packaging "/repo" "/tmp/liskov-semver-k3Jq0x"
                  "v1.2.3" "previousVersion" cloneFailsWorld eq_refl)).
  reflexivity.
Defined.

(** ** What [main] reports *)

Lemma entryPointsAndVersion_version m eps v :
  entryPointsAndVersion m = Ok (eps, v) -> declaredVersion m = Ok v.
Proof.
  unfold entryPointsAndVersion.
  destruct (negb (typeofObject m)); [discriminate|].
  destruct (declaredEntryPoints m) as [l|e]; [|discriminate]. cbn [bindR].
  destruct (sort defaultCompare _) as [l'|e]; [|discriminate]. cbn [bindR].
  destruct (declaredVersion m) as [v'|e]; [|discriminate]. cbn [bindR].
  now intros [= _ ->].
Qed.

Lemma artifactVersion_of w base name eps v :
  bindR (readJson w (pathJoin (pathJoin base name) "package.json"))
    entryPointsAndVersion = Ok (eps, v) ->
  artifactVersion w base name = Ok v.
Proof.
  unfold artifactVersion.
  destruct (readJson w _) as [m|e]; [|discriminate]. cbn [bindR].
  apply entryPointsAndVersion_version.
Qed.

Lemma hydrate_versions root previousVersion currentVersion base w pv cv lh :
  MainMjs.hydrateBaseDirectoryAndGetSemver root previousVersion currentVersion
    base w = (Ok (pv, cv), lh) ->
  artifactVersion w base "previousVersion" = Ok pv /\
  artifactVersion w base "currentVersion" = Ok cv.
Proof.
  unfold MainMjs.hydrateBaseDirectoryAndGetSemver. intros H.
  apply bind_inv_ok in H. destruct H as ([pe pv'] & l1 & l1' & H1 & H & _).
  apply bind_inv_ok in H. destruct H as ([ce cv'] & l2 & l2' & H2 & H & _).
  apply bind_inv_ok in H. destruct H as (u & l3 & l4 & _ & H & _).
  apply bind_inv_ok in H. destruct H as (u' & l5 & l6 & _ & H & _).
  unfold ret in H. injection H as -> -> _.
  split.
  - apply (artifactVersion_of _ _ _ pe), (createTgz_result _ _ _ _ _ _ _ H1).
  - apply (artifactVersion_of _ _ _ ce), (createTgz_result _ _ _ _ _ _ _ H2).
Qed.

(** ** Declared versions that are not semantic versions *)

Lemma declaredVersion_field m v :
  declaredVersion m = Ok v -> v = versionField m.
Proof.
  unfold declaredVersion, versionField.
  destruct m as [|b|n|s|items|members]; simpl; try discriminate;
    try (now intros [= <-]).
  destruct (find (fun kv => String.eqb (fst kv) "version") members) as [[k x]|];
    simpl; intros [= <-]; [destruct x|]; reflexivity.
Qed.

(** C9, as the code has it.  Extraction does not validate the declared
    version: it fails with "malformed package.json" exactly on a manifest
    that is not of object type, it goes through on every manifest that is
    an object or an array with no [null] in its export map, whatever its
    version field is, and it hands over that field as it is ([null] when
    absent).  A declared version, previous or current, that is [null] or
    that the package does not accept as a semantic version reaches the
    version decision and makes it throw there, so that a run of [main]
    that reports a version other than the initial one had two valid
    declared versions. *)
Theorem malformed_version_reaches_decision :
  (forall m,
     entryPointsAndVersion m = Throw (Error "error: malformed package.json")
     <-> typeofObject m = false) /\
  (forall m, extractable m = true ->
     exists eps, entryPointsAndVersion m = Ok (eps, versionField m)) /\
  (forall m r, entryPointsAndVersion m = Ok r -> snd r = versionField m) /\
  (forall P C forwards backwards,
     semver.parse (ofJson P) = None \/ semver.parse (ofJson C) = None ->
     decide P C forwards backwards = Throw (TypeError "semver")) /\
  (forall errorOnDirty errorOnUnreachable w res log,
     MainMjs.main errorOnDirty errorOnUnreachable w = (Ok res, log) ->
     res = semver.Text "0.1.0" \/
     exists base pv cv p c,
       artifactVersion w base "previousVersion" = Ok pv /\
       artifactVersion w base "currentVersion" = Ok cv /\
       semver.parse (ofJson pv) = Some p /\
       semver.parse (ofJson cv) = Some c).
Proof.
  split; [|split; [|split; [|split]]].
  - intros m. split.
    + intros E. destruct (typeofObject m) eqn:Et; [|reflexivity]. exfalso.
      destruct (extractable m) eqn:Ex.
      * destruct (entryPointsAndVersion_ok m Ex) as [eps [v [E' _]]].
        rewrite E in E'. discriminate E'.
      * rewrite (exportMap_null_throws m Et Ex) in E. discriminate E.
    + intros H. unfold entryPointsAndVersion. now rewrite H.
  - intros m Hext.
    destruct (entryPointsAndVersion_ok m Hext) as [eps [v [E [_ Ev]]]].
    exists eps. rewrite E. now rewrite (declaredVersion_field m v Ev).
  - intros m [eps v] E. simpl.
    apply declaredVersion_field. apply (entryPointsAndVersion_version m eps v E).
  - apply decide_invalid.
  - intros errorOnDirty errorOnUnreachable w res log Hmain.
    destruct (main_cases errorOnDirty errorOnUnreachable w) as [l0 [Q H]].
    destruct (gitRoot w) as [root|]; [|congruence].
    destruct (errorOnDirty && treeDirty w root); [congruence|].
    destruct (highestOf (validTags (listedTags w root))) as [[t|]|e];
      [|left; congruence|congruence].
    destruct (currentBranch w root) as [b|]; [|congruence].
    destruct (errorOnUnreachable && negb (reachable w root t b)); [congruence|].
    right. rewrite Hmain in H. injection H as Hres _.
    pose proof (liskov_unfold root t b w) as U.
    destruct (mkdtempResult w (scratchPrefix w)) as [base|e].
    2:{ rewrite U in Hres. discriminate Hres. }
    destruct (MainMjs.hydrateBaseDirectoryAndGetSemver root t b base w)
      as [[[pv cv]|e] lh] eqn:Eh.
    2:{ rewrite U in Hres. discriminate Hres. }
    destruct U as [lt [U _]]. rewrite U in Hres. cbn in Hres.
    destruct (hydrate_versions _ _ _ _ _ _ _ _ Eh) as [Hp Hc].
    destruct (semver.parse (ofJson pv)) as [p|] eqn:Ep.
    2:{ rewrite decide_invalid in Hres by (now left). discriminate Hres. }
    destruct (semver.parse (ofJson cv)) as [c|] eqn:Ec.
    2:{ rewrite decide_invalid in Hres by (now right). discriminate Hres. }
    exists base, pv, cv, p, c. repeat split; assumption.
Qed.

Lemma malformed_version_reaches_decision_witness :
  decide (JStr "latest") (JStr "1.0.0") true true = Throw (TypeError "semver") /\
  decide (JStr "1.0.0") JNull false true = Throw (TypeError "semver") /\
  exists eps,
    entryPointsAndVersion (JObj [("name", JStr "pkg"); ("version", JStr "latest")])
    = Ok (eps, JStr "latest").
Proof.
  destruct malformed_version_reaches_decision as [_ [H2 [_ [H _]]]].
  split; [apply H; left; reflexivity|].
  split; [apply H; right; reflexivity|].
  apply (H2 (JObj [("name", JStr "pkg"); ("version", JStr "latest")])).
  reflexivity.
Defined.

(** C9 as stated fails: a manifest whose version is not a semantic version
    passes extraction, which returns that version unchanged. *)
Lemma unvalidated_version_counterexample :
  semver.parse (ofJson (JStr "latest")) = None /\
  entryPointsAndVersion (JObj [("name", JStr "pkg"); ("version", JStr "latest")])
  = Ok ([""], JStr "latest") /\
  ~ (exists e, entryPointsAndVersion
                 (JObj [("name", JStr "pkg"); ("version", JStr "latest")])
               = Throw e).
Proof.
  split; [reflexivity|]. split; [reflexivity|].
  intros [e H]. discriminate H.
Qed.

(** X14.  A version that [main] returns is either the initial [0.1.0], when
    the repository has no version tag, or the decision taken on exactly
    these inputs: the versions declared by the two packed manifests in the
    scratch directory, and the exit codes of the type-checker on the
    forward-fits and the backward-fits programs. *)
Theorem main_reports_the_decision
  (errorOnDirty errorOnUnreachable : bool) (w : World) (res : semver.arg)
  (log : list event) :
  MainMjs.main errorOnDirty errorOnUnreachable w = (Ok res, log) ->
  exists root,
    gitRoot w = Some root /\
    ((highestOf (validTags (listedTags w root)) = Ok None /\
      res = semver.Text "0.1.0") \/
     (exists t b base previousSemVer currentSemVer,
        highestOf (validTags (listedTags w root)) = Ok (Some t) /\
        currentBranch w root = Some b /\
        mkdtempResult w (scratchPrefix w) = Ok base /\
        artifactVersion w base "previousVersion" = Ok previousSemVer /\
        artifactVersion w base "currentVersion" = Ok currentSemVer /\
        decide previousSemVer currentSemVer
          (succeeded w (cmdTsc base "currentFitsPrevious.ts"))
          (succeeded w (cmdTsc base "previousFitsCurrent.ts")) = Ok res)).
Proof.
  intros Hmain.
  destruct (main_cases errorOnDirty errorOnUnreachable w) as [l0 [Q H]].
  destruct (gitRoot w) as [root|]; [|congruence].
  exists root. split; [reflexivity|].
  destruct (errorOnDirty && treeDirty w root); [congruence|].
  destruct (highestOf (validTags (listedTags w root))) as [[t|]|e];
    [|left; split; [reflexivity|congruence]|congruence].
  destruct (currentBranch w root) as [b|]; [|congruence].
  destruct (errorOnUnreachable && negb (reachable w root t b)); [congruence|].
  right. rewrite Hmain in H. injection H as Hres _.
  pose proof (liskov_unfold root t b w) as U.
  destruct (mkdtempResult w (scratchPrefix w)) as [base|e].
  2:{ rewrite U in Hres. discriminate Hres. }
  destruct (MainMjs.hydrateBaseDirectoryAndGetSemver root t b base w)
    as [[[pv cv]|e] lh] eqn:Eh.
  2:{ rewrite U in Hres. discriminate Hres. }
  destruct U as [lt [U _]]. rewrite U in Hres. cbn in Hres.
  destruct (hydrate_versions _ _ _ _ _ _ _ _ Eh) as [Hp Hc].
  exists t, b, base, pv, cv. repeat split; auto.
Qed.

Lemma main_reports_the_decision_witness :
  exists root,
    gitRoot sameCommitWorld = Some root /\
    ((highestOf (validTags (listedTags sameCommitWorld root)) = Ok None /\
      semver.Text "1.0.1" = semver.Text "0.1.0") \/
     (exists t b base previousSemVer currentSemVer,
        highestOf (validTags (listedTags sameCommitWorld root)) = Ok (Some t) /\
        currentBranch sameCommitWorld root = Some b /\
        mkdtempResult sameCommitWorld (scratchPrefix sameCommitWorld) = Ok base /\
        artifactVersion sameCommitWorld base "previousVersion" = Ok previousSemVer /\
        artifactVersion sameCommitWorld base "currentVersion" = Ok currentSemVer /\
        decide previousSemVer currentSemVer
          (succeeded sameCommitWorld (cmdTsc base "currentFitsPrevious.ts"))
          (succeeded sameCommitWorld (cmdTsc base "previousFitsCurrent.ts"))
        = Ok (semver.Text "1.0.1"))).
Proof.
  refine (main_reports_the_decision true true sameCommitWorld
            (semver.Text "1.0.1") _ _).
  vm_compute. reflexivity.
Defined.

(** X15.  With error-on-unreachable, when the highest tag cannot reach the
    current branch (the boundary query fails or prints nothing) the run
    aborts, having done nothing but query git; without the option the same
    run goes on to the packaging stage. *)
Theorem unreachable_aborts_before_packaging
  (errorOnDirty : bool) (w : World) (root t b : string) :
  gitRoot w = Some root ->
  errorOnDirty && treeDirty w root = false ->
  highestOf (validTags (listedTags w root)) = Ok (Some t) ->
  currentBranch w root = Some b ->
  reachable w root t b = false ->
  (exists log,
     MainMjs.run errorOnDirty true w
     = (MainMjs.Failed
          (Error "error: current version is not reachable from previous version"),
        log) /\
     quiet log) /\
  In (Mkdtemp (scratchPrefix w)) (snd (MainMjs.run errorOnDirty false w)).
Proof.
  intros Hroot Hdirty Htag Hb Hreach. split.
  - destruct (main_cases errorOnDirty true w) as [l0 [Q H]].
    rewrite Hroot, Hdirty, Htag, Hb, Hreach in H. cbn [andb negb] in H.
    exists l0. split; [|exact Q]. unfold MainMjs.run. now rewrite H.
  - destruct (main_cases errorOnDirty false w) as [l0 [Q H]].
    rewrite Hroot, Hdirty, Htag, Hb in H. cbn [andb negb] in H.
    unfold MainMjs.run. rewrite H.
    assert (Hin : In (Mkdtemp (scratchPrefix w))
                    (snd (MainMjs.liskovSemVerForwardsBackwards root t b w))).
    { pose proof (liskov_log root t b w) as U.
      destruct (mkdtempResult w (scratchPrefix w)).
      - destruct U as [body [_ U]]. rewrite U. now left.
      - rewrite U. now left. }
    destruct (bindR _ _); cbn [snd]; apply in_or_app; now right.
Qed.

Lemma unreachable_aborts_before_packaging_witness :
  exists log,
    MainMjs.run true true unreachableWorld
    = (MainMjs.Failed
         (Error "error: current version is not reachable from previous version"),
       log) /\
    quiet log.
Proof.
  apply (proj1 (unreachable_aborts_before_packaging true unreachableWorld
                  "/repo" "v1.2.3" "main" eq_refl eq_refl eq_refl eq_refl eq_refl)).
Defined.

(** X16.  The run stops with "no current version" only when the
    current-branch query exits with a code other than 0.  On a detached
    HEAD, where that query prints nothing and exits with code 0, the
    current reference is the empty name and the run goes on to the
    packaging stage. *)
Theorem detached_head_is_not_detected
  (errorOnDirty errorOnUnreachable : bool) (w : World) (root t : string) :
  gitRoot w = Some root ->
  errorOnDirty && treeDirty w root = false ->
  highestOf (validTags (listedTags w root)) = Ok (Some t) ->
  (succeeded w (cmdBranch root) = false ->
   exists log,
     MainMjs.run errorOnDirty errorOnUnreachable w
     = (MainMjs.Failed (Error "error: no current version --- detached HEAD?"),
        log) /\
     quiet log) /\
  (succeeded w (cmdBranch root) = true ->
   trim (stdout (spawnResult w (cmdBranch root))) = "" ->
   currentBranch w root = Some "" /\
   In (Mkdtemp (scratchPrefix w)) (snd (MainMjs.run errorOnDirty false w))).
Proof.
  intros Hroot Hdirty Htag. split.
  - intros Hf.
    destruct (main_cases errorOnDirty errorOnUnreachable w) as [l0 [Q H]].
    assert (Hb : currentBranch w root = None).
    { unfold currentBranch, stdoutIfOk. unfold succeeded in Hf. now rewrite Hf. }
    rewrite Hroot, Hdirty, Htag, Hb in H.
    exists l0. split; [|exact Q]. unfold MainMjs.run. now rewrite H.
  - intros Hs Hout.
    assert (Hb : currentBranch w root = Some "").
    { unfold currentBranch, stdoutIfOk. unfold succeeded in Hs.
      now rewrite Hs, Hout. }
    split; [exact Hb|].
    destruct (main_cases errorOnDirty false w) as [l0 [Q H]].
    rewrite Hroot, Hdirty, Htag, Hb in H. cbn [andb negb] in H.
    unfold MainMjs.run. rewrite H.
    assert (Hin : In (Mkdtemp (scratchPrefix w))
                    (snd (MainMjs.liskovSemVerForwardsBackwards root t "" w))).
    { pose proof (liskov_log root t "" w) as U.
      destruct (mkdtempResult w (scratchPrefix w)).
      - destruct U as [body [_ U]]. rewrite U. now left.
      - rewrite U. now left. }
    destruct (bindR _ _); cbn [snd]; apply in_or_app; now right.
Qed.

Lemma detached_head_is_not_detected_witness :
  currentBranch detachedWorld "/repo" = Some "" /\
  In (Mkdtemp (scratchPrefix detachedWorld))
    (snd (MainMjs.run true false detachedWorld)).
Proof.
  apply (proj2 (detached_head_is_not_detected true false detachedWorld
                  "/repo" "v1.2.3" eq_refl eq_refl eq_refl)); reflexivity.
Defined.

(** ** The package managers of [unnamed/part_000] *)

Lemma spawn_part000_commands c a d w :
  exists l,
    Part000.spawn c a d w = (Ok (spawnResult w (mkCommand c a d)), l) /\
    spawnedCommands l = [mkCommand c a d] /\
    filesRead l = [].
Proof. eexists. split; [|split]; reflexivity. Qed.

Lemma filesRead_app l1 l2 :
  filesRead (l1 ++ l2) = (filesRead l1 ++ filesRead l2)%list.
Proof.
  induction l1 as [|e l1 IH]; [reflexivity|].
  destruct e; simpl; rewrite IH; reflexivity.
Qed.

Lemma pm_yarn dir w :
  accessible w (pathJoin dir "yarn.lock") = true ->
  Part000Pm.pm dir w = (Ok Part000Pm.Yarn, [Access (pathJoin dir "yarn.lock")]).
Proof.
  intros H. unfold Part000Pm.pm, Part000Pm.exists_, bind, emit, ask, ret.
  cbn [fst snd app]. rewrite H. reflexivity.
Qed.

Lemma pm_other dir w :
  accessible w (pathJoin dir "yarn.lock") = false ->
  exists l,
    Part000Pm.pm dir w
    = (Ok (if accessible w (pathJoin dir "pnpm-lock.yaml")
           then Part000Pm.Pnpm else Part000Pm.Npm), l) /\
    spawnedCommands l = [] /\ filesRead l = [].
Proof.
  intros H. unfold Part000Pm.pm, Part000Pm.exists_, bind, emit, ask, ret.
  cbn [fst snd app]. rewrite H.
  destruct (accessible w (pathJoin dir "pnpm-lock.yaml"));
    eexists; split; [reflexivity|split; reflexivity|reflexivity|split; reflexivity].
Qed.

(** X17.  Under yarn (a [yarn.lock] is found, whatever other lock file
    there is) [pm_build] reads the manifest and starts the build only when
    it has a [scripts] object with a [build] entry, and otherwise succeeds
    without starting any process; a [scripts] field that is [null] makes
    it throw.  Under the other managers it reads no file and always runs
    [run --if-present build]. *)
Theorem yarn_builds_only_with_a_build_script (dir : string) (w : World) :
  (forall c,
     accessible w (pathJoin dir "yarn.lock") = true ->
     readJson w (pathJoin dir "package.json") = Ok c ->
     typeofObject c = true ->
     exists l,
       filesRead l = [pathJoin dir "package.json"] /\
       spawnedCommands l
       = match Part000Pm.hasBuildScript c with
         | Ok true => [mkCommand "yarn" ["run"; "build"] (Some dir)]
         | _ => []
         end /\
       Part000Pm.pm_build dir w
       = (match Part000Pm.hasBuildScript c with
          | Ok true =>
              Ok (succeeded w (mkCommand "yarn" ["run"; "build"] (Some dir)))
          | Ok false => Ok true
          | Throw e => Throw e
          end, l)) /\
  (forall members,
     getProperty "scripts" (JObj members) = Ok (Some JNull) ->
     Part000Pm.hasBuildScript (JObj members)
     = Throw (TypeError "property of null")) /\
  (accessible w (pathJoin dir "yarn.lock") = false ->
   exists l m,
     m = (if accessible w (pathJoin dir "pnpm-lock.yaml")
          then Part000Pm.Pnpm else Part000Pm.Npm) /\
     Part000Pm.pm_build dir w
     = (Ok (succeeded w
              (mkCommand (Part000Pm.commandOf m) ["run"; "--if-present"; "build"]
                 (Some dir))), l) /\
     spawnedCommands l
     = [mkCommand (Part000Pm.commandOf m) ["run"; "--if-present"; "build"]
          (Some dir)] /\
     filesRead l = []).
Proof.
  split; [|split].
  - intros c Hy Hr Ht. unfold Part000Pm.pm_build.
    rewrite (bind_ok _ _ _ _ _ (pm_yarn dir w Hy)).
    rewrite (bind_ok _ _ w tt [ReadFile (pathJoin dir "package.json")] eq_refl).
    assert (Ea : askR (fun w0 => readJson w0 (pathJoin dir "package.json")) w
                 = (Ok c, [])) by (unfold askR; now rewrite Hr).
    rewrite (bind_ok _ _ _ _ _ Ea), Ht. cbn [negb].
    destruct (Part000Pm.hasBuildScript c) as [[|]|e] eqn:Eb.
    + assert (El : liftR (A:=bool) (Ok true) w = (Ok true, [])) by reflexivity.
      rewrite (bind_ok _ _ _ _ _ El).
      destruct (spawn_part000_commands "yarn" ["run"; "build"] (Some dir) w)
        as [l [Es [Hs Hf]]].
      rewrite (bind_ok _ _ _ _ _ Es).
      eexists. split; [|split; [|reflexivity]]; cbn [fst snd].
      * rewrite !filesRead_app, Hf. reflexivity.
      * rewrite !spawnedCommands_app, Hs. reflexivity.
    + assert (El : liftR (A:=bool) (Ok false) w = (Ok false, [])) by reflexivity.
      rewrite (bind_ok _ _ _ _ _ El).
      eexists. split; [|split; [|reflexivity]]; reflexivity.
    + assert (El : liftR (A:=bool) (Throw e) w = (Throw e, [])) by reflexivity.
      rewrite (bind_throw _ _ _ _ _ El).
      eexists. split; [|split; [|reflexivity]]; reflexivity.
  - intros members H. unfold Part000Pm.hasBuildScript. rewrite H. reflexivity.
  - intros Hn. destruct (pm_other dir w Hn) as [lp [Ep [Hp Hq]]].
    unfold Part000Pm.pm_build. rewrite (bind_ok _ _ _ _ _ Ep).
    destruct (accessible w (pathJoin dir "pnpm-lock.yaml")).
    + destruct (spawn_part000_commands "pnpm" ["run"; "--if-present"; "build"]
                  (Some dir) w) as [l [Es [Hs Hf]]].
      cbn [Part000Pm.commandOf]. rewrite (bind_ok _ _ _ _ _ Es).
      eexists. exists Part000Pm.Pnpm. split; [reflexivity|].
      split; [reflexivity|].
      cbn [fst snd]. rewrite !spawnedCommands_app, !filesRead_app, Hs, Hp, Hf, Hq.
      split; reflexivity.
    + destruct (spawn_part000_commands "npm" ["run"; "--if-present"; "build"]
                  (Some dir) w) as [l [Es [Hs Hf]]].
      cbn [Part000Pm.commandOf]. rewrite (bind_ok _ _ _ _ _ Es).
      eexists. exists Part000Pm.Npm. split; [reflexivity|].
      split; [reflexivity|].
      cbn [fst snd]. rewrite !spawnedCommands_app, !filesRead_app, Hs, Hp, Hf, Hq.
      split; reflexivity.
Qed.

Lemma yarn_builds_only_with_a_build_script_witness :
  exists l,
    filesRead l = ["/tmp/liskov-semver-k3Jq0x/previousVersion/package.json"] /\
    spawnedCommands l = [] /\
    Part000Pm.pm_build "/tmp/liskov-semver-k3Jq0x/previousVersion" sameCommitWorld
    = (Ok true, l).
Proof.
  exact (proj1 (yarn_builds_only_with_a_build_script
                  "/tmp/liskov-semver-k3Jq0x/previousVersion" sameCommitWorld)
           _ eq_refl eq_refl eq_refl).
Defined.
